(** * mlx-vlm: multimodal fusion (gemma3), MoE gate, YaRN rotary embedding and
      attention construction (deepseek_vl_v2, llava_next)

    A shallow embedding of the parts of
      - [mlx_vlm/models/gemma3/gemma3.py]
      - [mlx_vlm/models/deepseek_vl_v2/language.py]
      - [mlx_vlm/models/llava_next/vision.py]
    that the specification talks about, followed by the theorems.

    Conventions.
      - An [mx.array] is a [tensor]: a shape and the row-major list of its
        elements.  Array operations follow the MLX/NumPy rules, including
        broadcasting and the shape errors they raise.
      - Python exceptions are the [Raise] case of [result].
      - Python floats are binary64 ([float]); [math.log] and the float power
        [**] have no counterpart in the kernel and are section variables.
      - Array element types are kept abstract (dtype conversions are not
        modelled); the operations the code applies to elements are section
        variables. *)

From Stdlib Require Import String ZArith Lia Bool Floats QArith Qabs.
From Stdlib Require Import Ascii DecimalString DecimalNat.
From Stdlib Require Import Arith List Permutation Sorted.
Import ListNotations.

Set Implicit Arguments.

Open Scope string_scope.
Open Scope nat_scope.

(** ** Exceptions *)

Inductive exn : Type :=
| ValueError (msg : string)
| TypeError (msg : string)
| KeyError (key : string)
| IndexError (msg : string)
| ZeroDivisionError (msg : string)
| OverflowError (msg : string).

Inductive result (A : Type) : Type :=
| Ok (a : A)
| Raise (e : exn).

Arguments Ok {A} a.
Arguments Raise {A} e.

Definition bind {A B : Type} (c : result A) (k : A -> result B) : result B :=
  match c with
  | Ok a => k a
  | Raise e => Raise e
  end.

Notation "x <- c ;; k" := (bind c (fun x => k))
  (at level 61, c at next level, right associativity).
Notation "' p <- c ;; k" := (bind c (fun x => let p := x in k))
  (at level 61, p pattern, c at next level, right associativity).

Definition is_ok {A : Type} (r : result A) : bool :=
  match r with Ok _ => true | Raise _ => false end.

(** [[f(x) for x in l]]: the first exception ends the comprehension. *)
Fixpoint list_comp {X Y : Type} (f : X -> result Y) (l : list X)
  : result (list Y) :=
  match l with
  | [] => Ok []
  | x :: l' => y <- f x ;; ys <- list_comp f l' ;; Ok (y :: ys)
  end.

(** ** Python helpers *)

Module Py.

(** [l[start:stop]] bounds for a sequence of length [n] (step 1): the pair
    [(lo, hi)] of clamped indices. *)
Definition clamp_index (n : nat) (i : Z) : nat :=
  if (i <? 0)%Z then Z.to_nat (Z.max (i + Z.of_nat n) 0)
  else Nat.min (Z.to_nat i) n.

Definition slice_bounds (n : nat) (start stop : option Z) : nat * nat :=
  (match start with Some i => clamp_index n i | None => 0 end,
   match stop with Some i => clamp_index n i | None => n end).

Definition slice {A : Type} (l : list A) (start stop : option Z) : list A :=
  let '(lo, hi) := slice_bounds (length l) start stop in
  firstn (hi - lo) (skipn lo l).

(** A JSON/Python value as found in the [rope_scaling] dict. *)
Inductive value : Type :=
| Num (f : float)
| Str (s : string).

Definition dict := list (string * value).

Fixpoint lookup (d : dict) (k : string) : option value :=
  match d with
  | [] => None
  | (k', v) :: d' => if String.eqb k k' then Some v else lookup d' k
  end.

(** [d.get(k, default)] *)
Definition get (d : dict) (k : string) (default : value) : value :=
  match lookup d k with Some v => v | None => default end.

(** [d[k]] *)
Definition getitem (d : dict) (k : string) : result value :=
  match lookup d k with Some v => Ok v | None => Raise (KeyError k) end.

(** Truth value of [if v:]. *)
Definition truthy (v : value) : bool :=
  match v with
  | Num f => negb (PrimFloat.eqb f 0%float)
  | Str s => negb (String.eqb s "")
  end.

Definition as_float (v : value) : result float :=
  match v with
  | Num f => Ok f
  | Str _ => Raise (TypeError "unsupported operand type: str")
  end.

(** [float(n)] of a non-negative int. *)
Definition float_of_nat (n : nat) : float :=
  PrimFloat.of_uint63 (Uint63.of_Z (Z.of_nat n)).

(** [a // b] on non-negative ints. *)
Definition int_floordiv (a b : nat) : result nat :=
  if b =? 0
  then Raise (ZeroDivisionError "integer division or modulo by zero")
  else Ok (a / b).

(** [a % b] on non-negative ints. *)
Definition int_mod (a b : nat) : result nat :=
  if b =? 0
  then Raise (ZeroDivisionError "integer division or modulo by zero")
  else Ok (a mod b).

(** [a / b] on floats. *)
Definition float_div (a b : float) : result float :=
  if PrimFloat.eqb b 0 then Raise (ZeroDivisionError "float division by zero")
  else Ok (a / b)%float.

(** A Python number: an int or a float. *)
Inductive number : Type :=
| Int (z : Z)
| Float (f : float).

(** [float(z)] of an int below [2 ** 63] in absolute value. *)
Definition float_of_int (z : Z) : float :=
  if (z <? 0)%Z then (- PrimFloat.of_uint63 (Uint63.of_Z (- z)))%float
  else PrimFloat.of_uint63 (Uint63.of_Z z).

(** [math.pi] *)
Definition math_pi : float := 0x1.921fb54442d18p+1%float.

(** [math.floor(x)] and [math.ceil(x)] of a float: the exact integer, an
    exception for NaN and the infinities. *)
Definition math_floor (x : float) : result Z :=
  match Prim2SF x with
  | S754_nan => Raise (ValueError "cannot convert float NaN to integer")
  | S754_infinity _ =>
      Raise (OverflowError "cannot convert float infinity to integer")
  | S754_zero _ => Ok 0%Z
  | S754_finite sign m e =>
      let n := if sign then Z.neg m else Z.pos m in
      Ok (if (0 <=? e)%Z then n * 2 ^ e else n / 2 ^ (- e))%Z
  end.

Definition math_ceil (x : float) : result Z :=
  match Prim2SF x with
  | S754_nan => Raise (ValueError "cannot convert float NaN to integer")
  | S754_infinity _ =>
      Raise (OverflowError "cannot convert float infinity to integer")
  | S754_zero _ => Ok 0%Z
  | S754_finite sign m e =>
      let n := if sign then Z.neg m else Z.pos m in
      Ok (if (0 <=? e)%Z then n * 2 ^ e else - ((- n) / 2 ^ (- e)))%Z
  end.

(** [n ** -0.5] for a non-negative int [n]; [pow] is the float power. *)
Definition int_pow_neg_half (pow : float -> float -> float) (n : nat)
  : result float :=
  if n =? 0
  then Raise (ZeroDivisionError "0.0 cannot be raised to a negative power")
  else Ok (pow (float_of_nat n) (-0.5)%float).

(** [sub in s] on strings. *)
Fixpoint contains (sub s : string) : bool :=
  String.prefix sub s
  || match s with
     | EmptyString => false
     | String _ s' => contains sub s'
     end.

(** [str(n)], the way an f-string prints a non-negative int. *)
Definition str_of_nat (n : nat) : string :=
  NilEmpty.string_of_uint (Nat.to_uint n).

(** A [dict] with string keys, in insertion order; its keys are distinct. *)
Section Dict.

Variable V : Type.

Definition dict_of : Type := list (string * V).

Fixpoint dict_lookup (d : dict_of) (k : string) : option V :=
  match d with
  | [] => None
  | (k', v) :: d' => if String.eqb k k' then Some v else dict_lookup d' k
  end.

(** [k in d] *)
Definition dict_mem (d : dict_of) (k : string) : bool :=
  match dict_lookup d k with Some _ => true | None => false end.

Fixpoint dict_remove (d : dict_of) (k : string) : dict_of :=
  match d with
  | [] => []
  | (k', v) :: d' =>
      if String.eqb k k' then d' else (k', v) :: dict_remove d' k
  end.

(** [d.pop(k)]: the value and the dict without the key. *)
Definition dict_pop (d : dict_of) (k : string) : result (V * dict_of) :=
  match dict_lookup d k with
  | Some v => Ok (v, dict_remove d k)
  | None => Raise (KeyError k)
  end.

(** [d[k] = v]: in place when the key is there, at the end otherwise. *)
Fixpoint dict_set (d : dict_of) (k : string) (v : V) : dict_of :=
  match d with
  | [] => [(k, v)]
  | (k', v') :: d' =>
      if String.eqb k k' then (k, v) :: d' else (k', v') :: dict_set d' k v
  end.

End Dict.

(** Code that updates a store in place and may raise: the store after the
    run comes with the outcome, so that what was changed before an
    exception stays visible. *)
Definition stateful (S X : Type) : Type := S -> S * result X.

Definition st_ret {S X : Type} (x : X) : stateful S X := fun s => (s, Ok x).

Definition st_raise {S X : Type} (e : exn) : stateful S X :=
  fun s => (s, Raise e).

Definition st_bind {S X Y : Type} (c : stateful S X) (k : X -> stateful S Y)
  : stateful S Y :=
  fun s =>
    match c s with
    | (s', Ok x) => k x s'
    | (s', Raise e) => (s', Raise e)
    end.

(** [for x in l: body(x)] *)
Fixpoint st_for {S X : Type} (l : list X) (body : X -> stateful S unit)
  : stateful S unit :=
  match l with
  | [] => st_ret tt
  | x :: l' => st_bind (body x) (fun _ => st_for l' body)
  end.

End Py.

(** ** Arrays *)

Module Mx.

Record tensor (A : Type) : Type := mk_tensor {
  shape : list nat;
  data : list A
}.

Definition numel (s : list nat) : nat := fold_right Nat.mul 1 s.

Definition ndim {A : Type} (t : tensor A) : nat := length (shape t).

Definition well_formed {A : Type} (t : tensor A) : Prop :=
  length (data t) = numel (shape t).

Definition shape_eqb (s1 s2 : list nat) : bool :=
  if list_eq_dec Nat.eq_dec s1 s2 then true else false.

(** [chunks k n l]: the first [k] consecutive blocks of [n] elements. *)
Fixpoint chunks {A : Type} (k n : nat) (l : list A) : list (list A) :=
  match k with
  | 0 => []
  | S k' => firstn n l :: chunks k' n (skipn n l)
  end.

(** The rows along the last axis. *)
Definition last_dim {A : Type} (t : tensor A) : nat := last (shape t) 0.
Definition lead_shape {A : Type} (t : tensor A) : list nat := removelast (shape t).

Definition last_rows {A : Type} (t : tensor A) : list (list A) :=
  chunks (numel (lead_shape t)) (last_dim t) (data t).

(** *** Broadcasting *)

Fixpoint broadcast_shapes_rev (r1 r2 : list nat) : result (list nat) :=
  match r1, r2 with
  | [], r => Ok r
  | r, [] => Ok r
  | a :: r1', b :: r2' =>
      rest <- broadcast_shapes_rev r1' r2' ;;
      if a =? b then Ok (a :: rest)
      else if (a =? 1) || (b =? 1) then Ok (a * b :: rest)
      else Raise (ValueError "Shapes cannot be broadcast.")
  end.

Definition broadcast_shapes (s1 s2 : list nat) : result (list nat) :=
  r <- broadcast_shapes_rev (rev s1) (rev s2) ;;
  Ok (rev r).

(** Data of an array of shape [src] viewed at shape [tgt] (same rank, each
    source dimension equal to the target's or 1). *)
Fixpoint bcast_data {A : Type} (src tgt : list nat) (d : list A) : list A :=
  match src, tgt with
  | a :: src', b :: tgt' =>
      if a =? b
      then concat (map (bcast_data src' tgt') (chunks a (numel src') d))
      else concat (repeat (bcast_data src' tgt' d) b)
  | _, _ => d
  end.

Definition broadcast_to {A : Type} (t : tensor A) (tgt : list nat)
  : result (tensor A) :=
  if shape_eqb (shape t) tgt then Ok t
  else
    bx <- broadcast_shapes (shape t) tgt ;;
    if shape_eqb bx tgt
    then Ok (mk_tensor tgt
               (bcast_data (repeat 1 (length tgt - ndim t) ++ shape t) tgt
                  (data t)))
    else Raise (ValueError "Cannot broadcast array to the given shape.").

Definition map2 {A B C : Type} (f : A -> B -> C) (l1 : list A) (l2 : list B)
  : list C :=
  map (fun p => f (fst p) (snd p)) (combine l1 l2).

(** Element-wise binary operation with broadcasting. *)
Definition binop {A B C : Type} (f : A -> B -> C) (t1 : tensor A) (t2 : tensor B)
  : result (tensor C) :=
  s <- broadcast_shapes (shape t1) (shape t2) ;;
  a <- broadcast_to t1 s ;;
  b <- broadcast_to t2 s ;;
  Ok (mk_tensor s (map2 f (data a) (data b))).

Definition map_t {A B : Type} (f : A -> B) (t : tensor A) : tensor B :=
  mk_tensor (shape t) (map f (data t)).

(** [mx.where(c, x, y)] *)
Definition where_ {A : Type} (c : tensor bool) (x y : tensor A)
  : result (tensor A) :=
  s0 <- broadcast_shapes (shape c) (shape x) ;;
  s <- broadcast_shapes s0 (shape y) ;;
  c' <- broadcast_to c s ;;
  x' <- broadcast_to x s ;;
  y' <- broadcast_to y s ;;
  Ok (mk_tensor s
        (map2 (fun (b : bool) (xy : A * A) => if b then fst xy else snd xy)
           (data c') (combine (data x') (data y')))).

(** *** Shape manipulation *)

Definition zeros {A : Type} (zero : A) (s : list nat) : tensor A :=
  mk_tensor s (repeat zero (numel s)).

Definition zeros_like {A : Type} (zero : A) (t : tensor A) : tensor A :=
  zeros zero (shape t).

Definition flatten {A : Type} (t : tensor A) : tensor A :=
  mk_tensor [numel (shape t)] (data t).

Definition arange (n : nat) : tensor nat := mk_tensor [n] (seq 0 n).

Fixpoint insert_at {A : Type} (i : nat) (x : A) (l : list A) : list A :=
  match i, l with
  | 0, _ => x :: l
  | S i', y :: l' => y :: insert_at i' x l'
  | S _, [] => [x]
  end.

(** [mx.expand_dims(t, axis)] *)
Definition expand_dims {A : Type} (t : tensor A) (axis : Z) : result (tensor A) :=
  let nd := Z.of_nat (S (ndim t)) in
  let ax := if (axis <? 0)%Z then (axis + nd)%Z else axis in
  if ((0 <=? ax) && (ax <? nd))%Z
  then Ok (mk_tensor (insert_at (Z.to_nat ax) 1 (shape t)) (data t))
  else Raise (ValueError "[expand_dims] Invalid axis.").

(** [mx.expand_dims(t, (a1, a2))] with [a1 < a2] non-negative. *)
Definition expand_dims2 {A : Type} (t : tensor A) (a1 a2 : Z)
  : result (tensor A) :=
  t1 <- expand_dims t a1 ;;
  expand_dims t1 a2.

(** [mx.repeat(t, n, axis=-1)] *)
Definition repeat_last {A : Type} (t : tensor A) (n : nat) : result (tensor A) :=
  match shape t with
  | [] => Raise (ValueError "[repeat] Invalid axis.")
  | _ => Ok (mk_tensor (lead_shape t ++ [last_dim t * n])
               (flat_map (fun x => repeat x n) (data t)))
  end.

(** [mx.reshape(t, dims)], where one entry of [dims] may be [-1]. *)
Definition reshape {A : Type} (t : tensor A) (dims : list Z) : result (tensor A) :=
  let known := filter (fun d => negb (d =? -1)%Z) dims in
  let p := fold_right Z.mul 1%Z known in
  let total := Z.of_nat (numel (shape t)) in
  if negb (forallb (fun d => (0 <=? d)%Z) known)
  then Raise (ValueError "[reshape] Invalid shape.")
  else
    match length dims - length known with
    | 0 =>
        if (p =? total)%Z
        then Ok (mk_tensor (map Z.to_nat dims) (data t))
        else Raise (ValueError "[reshape] Cannot reshape array.")
    | 1 =>
        if (p =? 0)%Z
        then Raise (ValueError "[reshape] Cannot infer the shape of an empty array.")
        else if (total mod p =? 0)%Z
        then Ok (mk_tensor
                   (map (fun d => if (d =? -1)%Z then Z.to_nat (total / p)
                                  else Z.to_nat d) dims)
                   (data t))
        else Raise (ValueError "[reshape] Cannot reshape array.")
    | _ => Raise (ValueError "[reshape] Can only infer one dimension.")
    end.

(** *** Indexing *)

(** [np.where(mask)[0]] on a flat mask. *)
Fixpoint where_indices_from (i : nat) (mask : list bool) : list nat :=
  match mask with
  | [] => []
  | b :: mask' =>
      if b then i :: where_indices_from (S i) mask'
      else where_indices_from (S i) mask'
  end.

Definition where_indices (mask : list bool) : list nat :=
  where_indices_from 0 mask.

Fixpoint replace_nth {A : Type} (i : nat) (x : A) (l : list A) : list A :=
  match l, i with
  | [], _ => []
  | _ :: l', 0 => x :: l'
  | y :: l', S i' => y :: replace_nth i' x l'
  end.

Definition scatter {A : Type} (d : list A) (idx : list nat) (vals : list A)
  : list A :=
  fold_left (fun acc iv => replace_nth (fst iv) (snd iv) acc) (combine idx vals) d.

Fixpoint squeeze_leading (s : list nat) : list nat :=
  match s with
  | 1 :: s' => squeeze_leading s'
  | _ => s
  end.

(** [src[indices] = update] for a one-dimensional [src] and a one-dimensional
    array of distinct indices: leading singleton axes of the update are
    dropped and the update is broadcast to the shape of the indices. *)
Definition setitem_1d {A : Type} (src : tensor A) (indices : list nat)
    (update : tensor A) : result (tensor A) :=
  match shape src with
  | [_] =>
      let up := mk_tensor (squeeze_leading (shape update)) (data update) in
      up' <- broadcast_to up [length indices] ;;
      Ok (mk_tensor (shape src) (scatter (data src) indices (data up')))
  | _ => Raise (IndexError "setitem_1d: array is not one-dimensional")
  end.

Definition fill_range {A : Type} (start len : nat) (v : A) (l : list A) : list A :=
  firstn start l ++ repeat v (Nat.min len (length l - start)) ++ skipn (start + len) l.

(** [t[i0, i1, i2] = v] for three integer index arrays and a scalar [v]: the
    index arrays are broadcast together; every index triple addresses the
    sub-array [t[a, b, c, ...]], which is filled with [v]. *)
Definition setitem_idx3 {A : Type} (t : tensor A) (i0 i1 i2 : tensor nat) (v : A)
  : result (tensor A) :=
  match shape t with
  | _ :: d1 :: d2 :: rest =>
      s0 <- broadcast_shapes (shape i0) (shape i1) ;;
      s <- broadcast_shapes s0 (shape i2) ;;
      a <- broadcast_to i0 s ;;
      b <- broadcast_to i1 s ;;
      c <- broadcast_to i2 s ;;
      let r := numel rest in
      Ok (mk_tensor (shape t)
            (fold_left
               (fun acc xyz =>
                  let '(x, y, z) := xyz in
                  fill_range (((x * d1 + y) * d2 + z) * r) r v acc)
               (combine (combine (data a) (data b)) (data c))
               (data t)))
  | _ => Raise (IndexError "Too many indices for array.")
  end.

(** [t[..., start:stop]] *)
Definition slice_last {A : Type} (t : tensor A) (start stop : option Z)
  : result (tensor A) :=
  match shape t with
  | [] => Raise (IndexError "Too many indices for array.")
  | _ =>
      let '(lo, hi) := Py.slice_bounds (last_dim t) start stop in
      Ok (mk_tensor (lead_shape t ++ [hi - lo])
            (concat (map (fun row => Py.slice row start stop) (last_rows t))))
  end.

(** [mx.take_along_axis(t, inds, axis=-1)] for [inds] with the leading shape
    of [t] (the only way the program calls it). *)
Definition take_along_last {A : Type} (dflt : A) (t : tensor A) (inds : tensor nat)
  : result (tensor A) :=
  match shape t, shape inds with
  | _ :: _, _ :: _ =>
      if shape_eqb (lead_shape t) (lead_shape inds)
      then Ok (mk_tensor (shape inds)
                 (concat (map2 (fun row irow => map (fun i => nth i row dflt) irow)
                            (last_rows t) (last_rows inds))))
      else Raise (ValueError "[take_along_axis] leading shapes differ")
  | _, _ => Raise (ValueError "[take_along_axis] Invalid axis.")
  end.

(** [mx.take(t, inds)] without axis: indexes the flattened array. *)
Definition take_flat {A : Type} (dflt : A) (t : tensor A) (inds : tensor nat)
  : tensor A :=
  mk_tensor (shape inds) (map (fun i => nth i (data t) dflt) (data inds)).

(** *** Reductions and selection along the last axis *)

Section Ordered.
Variable A : Type.
Variable leb : A -> A -> bool.
Variable add : A -> A -> A.
Variable zero : A.

Definition max_list (x : A) (l : list A) : A :=
  fold_left (fun m y => if leb m y then y else m) l x.

(** [t.max(axis=-1)] *)
Definition max_last (t : tensor A) : result (tensor A) :=
  match shape t with
  | [] => Raise (ValueError "Invalid axis.")
  | _ =>
      if last_dim t =? 0
      then Raise (ValueError "Cannot max reduce zero size array.")
      else Ok (mk_tensor (lead_shape t)
                 (map (fun row => match row with
                                  | [] => zero
                                  | x :: l => max_list x l
                                  end) (last_rows t)))
  end.

(** [t.sum(axis=-1)] *)
Definition sum_last (t : tensor A) : result (tensor A) :=
  match shape t with
  | [] => Raise (ValueError "Invalid axis.")
  | _ => Ok (mk_tensor (lead_shape t)
               (map (fun row => match row with
                                | [] => zero
                                | x :: l => fold_left add l x
                                end) (last_rows t)))
  end.

(** The partial-selection primitive.  [partition_fn row kth] is the index
    array [mx.argpartition] yields for one row, for [kth] already brought
    into [0 <= kth < length row]: a permutation of the positions of [row]
    with the element of rank [kth] at position [kth], no larger elements
    before it and no smaller ones after it.  The order inside both parts is
    left to the implementation. *)
Variable partition_fn : list A -> nat -> list nat.

(** [mx.argpartition(t, kth=kth, axis=-1)] *)
Definition argpartition (t : tensor A) (kth : Z) : result (tensor nat) :=
  match shape t with
  | [] => Raise (ValueError "[argpartition] Invalid axis.")
  | _ =>
      let n := Z.of_nat (last_dim t) in
      let kth' := if (kth <? 0)%Z then (kth + n)%Z else kth in
      if ((0 <=? kth') && (kth' <? n))%Z
      then Ok (mk_tensor (shape t)
                 (concat (map (fun row => partition_fn row (Z.to_nat kth'))
                            (last_rows t))))
      else Raise (ValueError "[argpartition] Received invalid kth.")
  end.

(** [mx.topk(t, k, axis=-1)]: the [k] largest entries of each row, taken
    from the partition around rank [n - k]; the array itself when the whole
    axis is requested. *)
Definition topk_last (t : tensor A) (k : nat) : result (tensor A) :=
  match shape t with
  | [] => Raise (ValueError "[topk] Invalid axis.")
  | _ =>
      let n := last_dim t in
      if n <? k then Raise (ValueError "[topk] Received invalid k.")
      else if k =? n then Ok t
      else if k =? 0 then Ok (mk_tensor (lead_shape t ++ [0]) [])
      else Ok (mk_tensor (lead_shape t ++ [k])
                 (concat (map (fun row =>
                                 map (fun i => nth i row zero)
                                   (skipn (n - k) (partition_fn row (n - k))))
                            (last_rows t))))
  end.

End Ordered.

(** *** Transposition and stacking *)

(** Row-major strides of a shape, the multi-indices of a shape in
    row-major order, and the flat position of a multi-index. *)
Fixpoint strides (s : list nat) : list nat :=
  match s with
  | [] => []
  | _ :: s' => numel s' :: strides s'
  end.

Fixpoint indices (s : list nat) : list (list nat) :=
  match s with
  | [] => [[]]
  | n :: s' => flat_map (fun i => map (cons i) (indices s')) (seq 0 n)
  end.

Definition ravel (st idx : list nat) : nat :=
  fold_right Nat.add 0 (map2 Nat.mul idx st).

(** [axes] names every axis of an [n]-dimensional array once. *)
Definition is_axes_permutation (axes : list nat) (n : nat) : bool :=
  (length axes =? n) && forallb (fun a => existsb (Nat.eqb a) axes) (seq 0 n).

(** [t.transpose(axes)]: axis [k] of the result is axis [axes[k]] of [t]. *)
Definition transpose {A : Type} (dflt : A) (t : tensor A) (axes : list nat)
  : result (tensor A) :=
  if negb (length axes =? ndim t)
  then Raise (ValueError "[transpose] Received axes for an array with another number of dimensions.")
  else if negb (is_axes_permutation axes (ndim t))
  then Raise (ValueError "[transpose] Repeat axes not allowed.")
  else
    let s := map (fun a => nth a (shape t) 0) axes in
    let st := map (fun a => nth a (strides (shape t)) 0) axes in
    Ok (mk_tensor s
          (map (fun idx => nth (ravel st idx) (data t) dflt) (indices s))).

(** [mx.stack(ts)] along a new first axis. *)
Definition stack {A : Type} (ts : list (tensor A)) : result (tensor A) :=
  match ts with
  | [] => Raise (ValueError "[stack] No arrays provided for stacking.")
  | t :: _ =>
      if forallb (fun u => shape_eqb (shape u) (shape t)) ts
      then Ok (mk_tensor (length ts :: shape t) (concat (map (@data A) ts)))
      else Raise (ValueError "[stack] All arrays must have the same shape.")
  end.

(** [t[i0, i1, ...]]: the element at a multi-index. *)
Definition item {A : Type} (dflt : A) (t : tensor A) (idx : list nat) : A :=
  nth (ravel (strides (shape t)) idx) (data t) dflt.

End Mx.

Import Mx.

(** ** gemma3: multimodal fusion ([models/gemma3/gemma3.py]) *)

Module Gemma3.

Section Fusion.

(** Element type of the embedding arrays. *)
Variable A : Type.
Variable zero : A.
(** [div_sqrt h x] is the element [x / (h ** 0.5)]. *)
Variable div_sqrt : nat -> A -> A.

Definition masked_scatter (final_embedding : tensor A)
    (image_mask_expanded : tensor bool) (scaled_image_features : tensor A)
  : result (tensor A) :=
  (* Reshape the tensors to 1D *)
  let final_embedding_shape := shape final_embedding in
  let scaled_image_features_flattened := flatten scaled_image_features in
  let final_embedding_flattened := flatten final_embedding in
  let image_mask_expanded_flattened := flatten image_mask_expanded in
  (* Scatter the scaled image features into the special image token positions *)
  let image_positions := where_indices (data image_mask_expanded_flattened) in
  final_embedding_flattened <-
    setitem_1d final_embedding_flattened image_positions
      scaled_image_features_flattened ;;
  (* Reshape back to the original shape *)
  reshape final_embedding_flattened (map Z.of_nat final_embedding_shape).

Definition prepare_inputs_for_multimodal
    (hidden_size : nat) (pad_token_id : option Z) (image_token_index : Z)
    (image_features inputs_embeds : tensor A) (input_ids : tensor Z)
    (attention_mask : option (tensor Z))
  : result (tensor A * tensor Z) :=
  match shape image_features with
  | [_; _; embed_dim] =>
    match shape input_ids with
    | [batch_size; sequence_length] =>
      let scaled_image_features := map_t (div_sqrt hidden_size) image_features in
      let final_embedding := zeros zero [batch_size; sequence_length; embed_dim] in
      let pad_token_id :=
        match pad_token_id with Some p => p | None => 0%Z end in
      let text_mask :=
        map_t (fun id => negb (id =? image_token_index)%Z
                         && negb (id =? pad_token_id)%Z) input_ids in
      let image_mask := map_t (fun id => (id =? image_token_index)%Z) input_ids in
      let pad_mask := map_t (fun id => (id =? pad_token_id)%Z) input_ids in
      (* expand masks to match embedding dimension *)
      text_mask_expanded <- expand_dims text_mask (-1) ;;
      text_mask_expanded <- repeat_last text_mask_expanded embed_dim ;;
      pad_mask_expanded <- expand_dims pad_mask (-1) ;;
      pad_mask_expanded <- repeat_last pad_mask_expanded embed_dim ;;
      image_mask_expanded <- expand_dims image_mask (-1) ;;
      image_mask_expanded <- repeat_last image_mask_expanded embed_dim ;;
      (* insert padding and text token embeddings *)
      final_embedding <- where_ text_mask_expanded inputs_embeds final_embedding ;;
      final_embedding <-
        where_ pad_mask_expanded (zeros_like zero final_embedding) final_embedding ;;
      (* insert image token embeddings *)
      final_embedding <-
        masked_scatter final_embedding image_mask_expanded scaled_image_features ;;
      match attention_mask with
      | None => Raise (TypeError "expand_dims: incompatible function arguments (None)")
      | Some attention_mask =>
        attention_mask_expanded_1 <- expand_dims attention_mask 1 ;;
        attention_mask_expanded_2 <- expand_dims attention_mask 2 ;;
        final_attention_mask_4d <-
          binop Z.mul attention_mask_expanded_1 attention_mask_expanded_2 ;;
        final_attention_mask_4d <- expand_dims final_attention_mask_4d 1 ;;
        Ok (final_embedding, final_attention_mask_4d)
      end
    | _ => Raise (ValueError "input_ids.shape: cannot unpack into 2 values")
    end
  | _ => Raise (ValueError "image_features.shape: cannot unpack into 3 values")
  end.

(** *** The model wrapper *)

Record ModelConfig : Type := {
  hidden_size : nat;
  pad_token_id : option Z;
  image_token_index : Z
}.

(** Collaborators that are not part of the fusion code: the embedding table
    of the language model, the vision tower followed by the projector, and
    the language model itself. *)
Variable Pixels Cache Logits : Type.
Variable embed_tokens : tensor Z -> tensor A.
Variable vision_tower : Pixels -> tensor A.
Variable multi_modal_projector : tensor A -> tensor A.

Definition get_input_embeddings (config : ModelConfig) (input_ids : tensor Z)
    (pixel_values : option Pixels) (mask : option (tensor Z))
  : result (tensor A * option (tensor Z)) :=
  match pixel_values with
  | None => Ok (embed_tokens input_ids, None)
  | Some pixel_values =>
      let inputs_embeds := embed_tokens input_ids in
      let hidden_state := vision_tower pixel_values in
      let image_features := multi_modal_projector hidden_state in
      '(final_inputs_embeds, final_attention_mask_4d) <-
        prepare_inputs_for_multimodal (hidden_size config) (pad_token_id config)
          (image_token_index config) image_features inputs_embeds input_ids mask ;;
      Ok (final_inputs_embeds, Some final_attention_mask_4d)
  end.

(** The keyword arguments of one call of the language model.  A keyword the
    call site does not pass is [None]: the callee's default applies. *)
Record lm_kwargs : Type := {
  kw_inputs : tensor Z;
  kw_cache : option Cache;
  kw_inputs_embeds : option (tensor A);
  kw_mask : option (tensor Z)
}.

Variable language_model : lm_kwargs -> Logits.

(** The arguments [Model.__call__] hands to [self.language_model]. *)
Definition Model_call_kwargs (config : ModelConfig) (input_ids : tensor Z)
    (pixel_values : option Pixels) (mask : option (tensor Z))
    (cache : option Cache) : result lm_kwargs :=
  '(input_embeddings, final_attention_mask_4d) <-
    get_input_embeddings config input_ids pixel_values mask ;;
  Ok {| kw_inputs := input_ids;
        kw_cache := cache;
        kw_inputs_embeds := Some input_embeddings;
        kw_mask := None |}.

Definition Model_call (config : ModelConfig) (input_ids : tensor Z)
    (pixel_values : option Pixels) (mask : option (tensor Z))
    (cache : option Cache) : result Logits :=
  kw <- Model_call_kwargs config input_ids pixel_values mask cache ;;
  Ok (language_model kw).

End Fusion.

End Gemma3.

(** ** Layers shared by the attention constructors *)

(** [nn.Linear(input_dims, output_dims, bias)]: only the dimensions matter
    here; constructing one never fails. *)
Record Linear : Type := {
  input_dims : nat;
  output_dims : nat;
  has_bias : bool
}.

(** ** deepseek_vl_v2: YaRN, attention, gate
       ([models/deepseek_vl_v2/language.py]) *)

Module DeepseekV2.

Local Open Scope float_scope.

(** The literal [0.1]. *)
Definition f0_1 : float := 0x1.999999999999ap-4.

(** [nn.RoPE(dims, traditional, base, scale)] *)
Record RoPE : Type := {
  r_dims : nat;
  r_traditional : bool;
  r_base : float;
  r_scale : float
}.

Section Rotary.

(** [math.log] and the float power [a ** b]. *)
Variable log : float -> float.
Variable pow : float -> float -> float.

Definition yarn_get_mscale (scale mscale : Py.value) : result float :=
  s <- Py.as_float scale ;;
  if PrimFloat.leb s 1 then Ok 1
  else
    m <- Py.as_float mscale ;;
    Ok (f0_1 * m * log s + 1).

(** Element type of the activations, the type of a frequency table and the
    array primitives the rotary embedding relies on. *)
Variable A : Type.
Variable Freqs : Type.
(** [m * x] for a Python float [m] and one element [x]. *)
Variable scal : float -> A -> A.
(** The arguments of one call
    [mx.fast.rope(x, dims, traditional=, base=, scale=, offset=, freqs=)],
    and the kernel itself. *)
Record rope_args : Type := {
  ra_x : tensor A;
  ra_dims : nat;
  ra_traditional : bool;
  ra_base : option float;
  ra_scale : float;
  ra_offset : nat;
  ra_freqs : option Freqs
}.

Variable fast_rope : rope_args -> tensor A.

(** [nn.RoPE.__call__] of MLX, the plain rotary path: what it hands to
    [mx.fast.rope], and the call. *)
Definition RoPE_rope_args (self : RoPE) (x : tensor A) (offset : nat)
  : rope_args :=
  {| ra_x := x;
     ra_dims := r_dims self;
     ra_traditional := r_traditional self;
     ra_base := Some (r_base self);
     ra_scale := r_scale self;
     ra_offset := offset;
     ra_freqs := None |}.

Definition RoPE_call (self : RoPE) (x : tensor A) (offset : nat) : tensor A :=
  fast_rope (RoPE_rope_args self x offset).

Record YarnArgs : Type := {
  ya_dim : nat;
  ya_max_position_embeddings : nat;
  ya_base : float;
  ya_scaling_factor : Py.value;
  ya_original_max_position_embeddings : Py.value;
  ya_beta_fast : Py.value;
  ya_beta_slow : Py.value;
  ya_mscale : Py.value;
  ya_mscale_all_dim : Py.value
}.

(** [math.log(x)] of a float: a domain error at zero and below. *)
Definition math_log (x : float) : result float :=
  if PrimFloat.leb x 0 then Raise (ValueError "math domain error")
  else Ok (log x).

(** The literal [0.001]. *)
Definition f0_001 : float := 0x1.0624dd2f1a9fcp-10.

Definition yarn_find_correction_dim (num_rotations : Py.value) (dim : nat)
    (base : float) (max_position_embeddings : Py.value) : result float :=
  n <- Py.as_float num_rotations ;;
  m <- Py.as_float max_position_embeddings ;;
  q <- Py.float_div m (n * 2 * Py.math_pi) ;;
  l <- math_log q ;;
  lb <- math_log base ;;
  Py.float_div (Py.float_of_nat dim * l) (2 * lb).

Definition yarn_find_correction_range (low_rot high_rot : Py.value) (dim : nat)
    (base : float) (max_position_embeddings : Py.value) : result (Z * Z) :=
  dl <- yarn_find_correction_dim low_rot dim base max_position_embeddings ;;
  low <- Py.math_floor dl ;;
  dh <- yarn_find_correction_dim high_rot dim base max_position_embeddings ;;
  high <- Py.math_ceil dh ;;
  Ok (Z.max low 0, Z.min high (Z.of_nat dim - 1))%Z.

(** The float32 array arithmetic of the embedding, statement by statement;
    what MLX computes, and whether it raises, is left open:
      - [base ** (mx.arange(0, dim, 2, dtype=mx.float32) / dim)],
      - [scaling_factor * base ** (mx.arange(0, dim, 2, dtype=mx.float32) / dim)],
      - [mx.clip((mx.arange(dim, dtype=mx.float32) - min_val)
                 / (max_val - min_val), 0, 1)],
      - with [freq_mask = 1.0 - ramp],
        [(freq_inter * freq_extra)
         / (freq_inter * freq_mask + freq_extra * (1 - freq_mask))]. *)
Record YarnArrays : Type := {
  ya_freq_extra : float -> nat -> result Freqs;
  ya_freq_inter : Py.value -> float -> nat -> result Freqs;
  ya_ramp : Z -> Py.number -> nat -> result Freqs;
  ya_blend : Freqs -> Freqs -> Freqs -> result Freqs
}.

Variable yarn_ops : YarnArrays.

Definition yarn_linear_ramp_mask (min_val max_val : Z) (dim : nat)
  : result Freqs :=
  let max_val :=
    if (min_val =? max_val)%Z
    then Py.Float (Py.float_of_int max_val + f0_001) (* Prevent singularity *)
    else Py.Int max_val in
  ya_ramp yarn_ops min_val max_val dim.

Record DeepseekV2YarnRotaryEmbedding : Type := {
  mscale : float;
  _freqs : Freqs
}.

Definition DeepseekV2YarnRotaryEmbedding_init (args : YarnArgs)
  : result DeepseekV2YarnRotaryEmbedding :=
  num <- yarn_get_mscale (ya_scaling_factor args) (ya_mscale args) ;;
  den <- yarn_get_mscale (ya_scaling_factor args) (ya_mscale_all_dim args) ;;
  m <- Py.float_div num den ;;
  freq_extra <- ya_freq_extra yarn_ops (ya_base args) (ya_dim args) ;;
  freq_inter <- ya_freq_inter yarn_ops (ya_scaling_factor args) (ya_base args)
                  (ya_dim args) ;;
  '(low, high) <-
    yarn_find_correction_range (ya_beta_fast args) (ya_beta_slow args)
      (ya_dim args) (ya_base args) (ya_original_max_position_embeddings args) ;;
  ramp <- yarn_linear_ramp_mask low high (ya_dim args / 2) ;;
  freqs <- ya_blend yarn_ops freq_inter freq_extra ramp ;;
  Ok {| mscale := m; _freqs := freqs |}.



(** *** Attention constructors *)

(** The fields of [TextConfig] the constructors read. *)
Record TextConfig : Type := {
  hidden_size : nat;
  num_attention_heads : nat;
  num_key_value_heads : nat;
  max_position_embeddings : nat;
  rope_theta : float;
  rope_traditional : bool;
  rope_scaling : option Py.dict;
  q_lora_rank : option nat;
  qk_rope_head_dim : nat;
  kv_lora_rank : nat;
  v_head_dim : nat;
  qk_nope_head_dim : nat;
  attention_bias : bool
}.

(** The rotary module of latent attention: [nn.RoPE] or the YaRN embedding. *)
Inductive rope_module : Type :=
| PlainRoPE (rope : RoPE)
| YarnRoPE (emb : DeepseekV2YarnRotaryEmbedding).

Inductive q_projection : Type :=
| QFull (q_proj : Linear)
| QLowRank (q_a_proj : Linear) (q_a_layernorm : nat) (q_b_proj : Linear).

Record DeepseekV2Attention : Type := {
  dsa_num_heads : nat;
  dsa_q_head_dim : nat;
  dsa_scale : float;
  dsa_q : q_projection;
  dsa_kv_a_proj_with_mqa : Linear;
  dsa_kv_a_layernorm : nat;
  dsa_kv_b_proj : Linear;
  dsa_o_proj : Linear;
  (** [None]: the attribute [rope] was never assigned. *)
  dsa_rope : option rope_module
}.

(** [rope_scaling[key]] when present, the constructor's default otherwise. *)
Definition rope_kwarg (rs : Py.dict) (key : string) (default : Py.value)
  : Py.value :=
  Py.get rs key default.

Definition DeepseekV2Attention_init (config : TextConfig)
  : result DeepseekV2Attention :=
  let hidden := hidden_size config in
  let num_heads := num_attention_heads config in
  let q_head_dim := (qk_nope_head_dim config + qk_rope_head_dim config)%nat in
  scale <- Py.int_pow_neg_half pow q_head_dim ;;
  let q :=
    match q_lora_rank config with
    | None => QFull {| input_dims := hidden;
                       output_dims := num_heads * q_head_dim;
                       has_bias := false |}
    | Some r => QLowRank {| input_dims := hidden; output_dims := r;
                            has_bias := attention_bias config |}
                  r
                  {| input_dims := r; output_dims := num_heads * q_head_dim;
                     has_bias := false |}
    end in
  let kv_a := {| input_dims := hidden;
                 output_dims := kv_lora_rank config + qk_rope_head_dim config;
                 has_bias := attention_bias config |} in
  let kv_b := {| input_dims := kv_lora_rank config;
                 output_dims := num_heads * (q_head_dim - qk_rope_head_dim config
                                             + v_head_dim config);
                 has_bias := false |} in
  let o := {| input_dims := num_heads * v_head_dim config;
              output_dims := hidden;
              has_bias := attention_bias config |} in
  let build scale rope :=
    {| dsa_num_heads := num_heads; dsa_q_head_dim := q_head_dim;
       dsa_scale := scale; dsa_q := q; dsa_kv_a_proj_with_mqa := kv_a;
       dsa_kv_a_layernorm := kv_lora_rank config; dsa_kv_b_proj := kv_b;
       dsa_o_proj := o; dsa_rope := rope |} in
  match rope_scaling config with
  | None =>
      Ok (build scale
            (Some (PlainRoPE {| r_dims := qk_rope_head_dim config;
                                r_traditional := rope_traditional config;
                                r_base := rope_theta config;
                                r_scale := 1 |})))
  | Some rs =>
      let mscale_all_dim := Py.get rs "mscale_all_dim" (Py.Num 0) in
      let scaling_factor := Py.get rs "factor" (Py.Num 1) in
      if Py.truthy mscale_all_dim then
        mscale <- yarn_get_mscale scaling_factor mscale_all_dim ;;
        let scale := scale * mscale * mscale in
        emb <- DeepseekV2YarnRotaryEmbedding_init
                 {| ya_dim := qk_rope_head_dim config;
                    ya_max_position_embeddings := max_position_embeddings config;
                    ya_base := rope_theta config;
                    ya_scaling_factor := scaling_factor;
                    ya_original_max_position_embeddings :=
                      rope_kwarg rs "original_max_position_embeddings" (Py.Num 4096);
                    ya_beta_fast := rope_kwarg rs "beta_fast" (Py.Num 32);
                    ya_beta_slow := rope_kwarg rs "beta_slow" (Py.Num 1);
                    ya_mscale := rope_kwarg rs "mscale" (Py.Num 1);
                    ya_mscale_all_dim := rope_kwarg rs "mscale_all_dim" (Py.Num 0) |} ;;
        Ok (build scale (Some (YarnRoPE emb)))
      else Ok (build scale None)
  end.

End Rotary.

(** *** Grouped-query attention *)

Section Llama.

Variable pow : float -> float -> float.

Record LlamaAttention : Type := {
  la_n_heads : nat;
  la_n_kv_heads : nat;
  la_head_dim : nat;
  la_scale : float;
  la_q_proj : Linear;
  la_k_proj : Linear;
  la_v_proj : Linear;
  la_o_proj : Linear;
  la_rope : RoPE
}.

Definition LlamaAttention_init (config : TextConfig) : result LlamaAttention :=
  let dim := hidden_size config in
  let n_heads := num_attention_heads config in
  let n_kv_heads := num_key_value_heads config in
  head_dim <- Py.int_floordiv (hidden_size config) n_heads ;;
  scale <- Py.int_pow_neg_half pow head_dim ;;
  let attention_bias := if attention_bias config then attention_bias config else false in
  let q_proj := {| input_dims := dim; output_dims := n_heads * head_dim;
                   has_bias := attention_bias |} in
  let k_proj := {| input_dims := dim; output_dims := n_kv_heads * head_dim;
                   has_bias := attention_bias |} in
  let v_proj := {| input_dims := dim; output_dims := n_kv_heads * head_dim;
                   has_bias := attention_bias |} in
  let o_proj := {| input_dims := n_heads * head_dim; output_dims := dim;
                   has_bias := attention_bias |} in
  rope_scale <-
    match rope_scaling config with
    | None => Ok 1
    | Some rs =>
        ty <- Py.getitem rs "type" ;;
        match ty with
        | Py.Str "linear" =>
            f <- Py.getitem rs "factor" ;;
            f <- Py.as_float f ;;
            Py.float_div 1 f
        | _ => Ok 1
        end
    end ;;
  Ok {| la_n_heads := n_heads; la_n_kv_heads := n_kv_heads;
        la_head_dim := head_dim; la_scale := scale;
        la_q_proj := q_proj; la_k_proj := k_proj; la_v_proj := v_proj;
        la_o_proj := o_proj;
        la_rope := {| r_dims := head_dim;
                      r_traditional := rope_traditional config;
                      r_base := rope_theta config;
                      r_scale := rope_scale |} |}.

End Llama.

(** *** The expert gate *)

Section Gate.

(** Element type of the score arrays with the operations the gate applies
    to elements: the literal [0.0], [+], [*], unary [-] and the order. *)
Variable E : Type.
Variable zero : E.
Variable add mul : E -> E -> E.
Variable neg : E -> E.
Variable leb : E -> E -> bool.
(** [mx.softmax(_, axis=-1, precise=True)] on one row and [mx.sigmoid] on
    one element. *)
Variable softmax : list E -> list E.
Variable sigmoid : E -> E.
(** The partial selection behind [mx.argpartition] and [mx.topk]. *)
Variable partition_fn : list E -> nat -> list nat.

Record MoEGate : Type := {
  scoring_func : string;
  top_k : Z;
  n_routed_experts : nat;
  routed_scaling_factor : E;
  topk_method : string;
  n_group : Z;
  topk_group : Z;
  e_score_correction_bias : tensor E;
  weight : tensor E
}.

Definition dot (u v : list E) : E := fold_left add (map2 mul u v) zero.

(** [x @ w.T] for a two-dimensional [w]. *)
Definition matmul_T (x w : tensor E) : result (tensor E) :=
  match shape x, shape w with
  | _ :: _, [n; h] =>
      if (last_dim x =? h)%nat
      then Ok (mk_tensor (lead_shape x ++ [n])
                 (concat (map (fun row => map (dot row) (last_rows w))
                            (last_rows x))))
      else Raise (ValueError "[matmul] Inner dimensions do not match.")
  | _, _ => Raise (ValueError "[matmul] Got 0 dimension input.")
  end.

(** [a, b = s[:2]] *)
Definition unpack2 (s : list nat) : result (nat * nat) :=
  match s with
  | a :: b :: _ => Ok (a, b)
  | _ => Raise (ValueError "not enough values to unpack (expected 2)")
  end.

(** Lines 336-392 of [MoEGate.__call__]: from the normalised scores to the
    selected experts and their weights; [x_shape] is [x.shape]. *)
Definition MoEGate_select (self : MoEGate) (x_shape : list nat)
    (scores : tensor E) : result (tensor nat * tensor E) :=
  '(inds, scores) <-
    (if String.eqb (topk_method self) "greedy" then
       '(bsz, seq_len) <- unpack2 x_shape ;;
       scores <- reshape scores
                   [Z.of_nat bsz; Z.of_nat seq_len; n_group self; (-1)%Z] ;;
       group_scores <- max_last leb zero scores ;;
       (* Get top-k groups *)
       let k := (n_group self - topk_group self)%Z in
       group_part <- argpartition partition_fn group_scores (k - 1)%Z ;;
       group_idx <- slice_last group_part None (Some k) ;;
       batch_idx <- expand_dims2 (arange bsz) 1 2 ;;
       seq_idx <- expand_dims2 (arange seq_len) 0 2 ;;
       (* Mask out top-k groups *)
       scores <- setitem_idx3 scores batch_idx seq_idx group_idx zero ;;
       scores <- reshape scores [Z.of_nat bsz; Z.of_nat seq_len; (-1)%Z] ;;
       (* Get top-k indices and weights *)
       let k := top_k self in
       part <- argpartition partition_fn (map_t neg scores) (k - 1)%Z ;;
       inds <- slice_last part None (Some k) ;;
       scores <- take_along_last zero scores inds ;;
       Ok (inds, scores)
     else if String.eqb (topk_method self) "noaux_tc" then
       '(bsz, seq_len) <- unpack2 x_shape ;;
       (* Add bias correction *)
       scores_2d <- reshape scores [Z.of_nat (bsz * seq_len); (-1)%Z] ;;
       bias <- expand_dims (e_score_correction_bias self) 0 ;;
       scores_for_choice <- binop add scores_2d bias ;;
       (* Calculate group scores using top-2 sum per group *)
       scores_reshaped <- reshape scores_for_choice
                            [Z.of_nat (bsz * seq_len); n_group self; (-1)%Z] ;;
       (* Get top 2 scores per group *)
       top2 <- topk_last zero partition_fn scores_reshaped 2 ;;
       group_scores <- sum_last add zero top2 ;;
       (* Get top groups *)
       let k := (n_group self - topk_group self)%Z in
       (* Create mask for selected groups *)
       group_part <- argpartition partition_fn group_scores (k - 1)%Z ;;
       group_idx <- slice_last group_part None (Some k) ;;
       batch_idx <- expand_dims2 (arange bsz) 1 2 ;;
       seq_idx <- expand_dims2 (arange seq_len) 0 2 ;;
       scores <- setitem_idx3 scores batch_idx seq_idx group_idx zero ;;
       (* Get top-k indices and weights *)
       let k := top_k self in
       part <- argpartition partition_fn scores (- k)%Z ;;
       inds <- slice_last part (Some (- k)%Z) None ;;
       (* Gather original scores for the selected indices *)
       scores_flat <- reshape scores [Z.of_nat (bsz * seq_len); (-1)%Z] ;;
       batch_idx <- expand_dims (arange (bsz * seq_len)) 1 ;;
       let width := nth 1 (shape scores_flat) 0%nat in
       flat_idx <- binop Nat.add inds (map_t (fun b => (b * width)%nat) batch_idx) ;;
       Ok (inds, take_flat zero scores_flat flat_idx)
     else Raise (ValueError "Unknown topk method")) ;;
  Ok (inds, map_t (fun s => mul s (routed_scaling_factor self)) scores).

Definition MoEGate_call (self : MoEGate) (x : tensor E)
  : result (tensor nat * tensor E) :=
  gates <- matmul_T x (weight self) ;;
  scores <-
    (if String.eqb (scoring_func self) "softmax"
     then Ok (mk_tensor (shape gates) (concat (map softmax (last_rows gates))))
     else if String.eqb (scoring_func self) "sigmoid"
     then Ok (map_t sigmoid gates)
     else Raise (ValueError "Unknown scoring function")) ;;
  MoEGate_select self (shape x) scores.

(** A reference partial selection: the stable sort of the positions by
    their entries (a full sort partitions around every rank). *)
Fixpoint insert_by (key : nat -> E) (i : nat) (l : list nat) : list nat :=
  match l with
  | [] => [i]
  | j :: l' => if leb (key i) (key j) then i :: l else j :: insert_by key i l'
  end.

Definition argsort (row : list E) : list nat :=
  fold_right (insert_by (fun i => nth i row zero)) [] (seq 0 (length row)).

End Gate.

Definition partition_by_sort {E : Type} (zero : E) (leb : E -> E -> bool)
    (row : list E) (kth : nat) : list nat :=
  argsort zero leb row.

(** *** Decoder layers and the model *)

(** [TextConfig], the fields read outside the attention constructors; the
    fields above are [attention_config]. *)
Record LayerConfig : Type := {
  attention_config : TextConfig;
  model_type : string;
  attn_type : string;
  vocab_size : nat;
  intermediate_size : nat;
  moe_intermediate_size : nat;
  num_hidden_layers : nat;
  config_n_routed_experts : option nat;
  n_shared_experts : option nat;
  first_k_dense_replace : Z;
  moe_layer_freq : Z;
  rms_norm_eps : float
}.

(** [nn.RMSNorm(dims, eps)] *)
Record RMSNorm : Type := {
  rn_dims : nat;
  rn_eps : float
}.

Record DeepseekV2MLP : Type := {
  mlp_hidden_size : nat;
  mlp_intermediate_size : nat;
  gate_proj : Linear;
  up_proj : Linear;
  down_proj : Linear
}.

Section Layers.

Variable log : float -> float.
Variable pow : float -> float -> float.
Variable Freqs : Type.
Variable yarn_ops : YarnArrays Freqs.

(** Constructors of [mlx.nn], of [mlx_lm] ([SwitchGLU]) and of the gate,
    which allocate parameters: they are not inspected here. *)
Variable Linear_init : nat -> nat -> bool -> result Linear.
Variable Embedding : Type.
Variable Embedding_init : nat -> nat -> result Embedding.
Variable SwitchGLU : Type.
Variable SwitchGLU_init : nat -> nat -> option nat -> result SwitchGLU.
Variable Gate : Type.
Variable MoEGate_init : LayerConfig -> result Gate.

Definition DeepseekV2MLP_init (config : LayerConfig)
    (hidden_size' intermediate_size' : option nat) : result DeepseekV2MLP :=
  let hidden :=
    match hidden_size' with
    | None => hidden_size (attention_config config)
    | Some h => h
    end in
  let intermediate :=
    match intermediate_size' with
    | None => intermediate_size config
    | Some i => i
    end in
  gate_proj <- Linear_init hidden intermediate false ;;
  up_proj <- Linear_init hidden intermediate false ;;
  down_proj <- Linear_init intermediate hidden false ;;
  Ok {| mlp_hidden_size := hidden; mlp_intermediate_size := intermediate;
        gate_proj := gate_proj; up_proj := up_proj; down_proj := down_proj |}.

Record DeepseekV2MoE : Type := {
  switch_mlp : SwitchGLU;
  moe_gate : Gate;
  shared_experts : option DeepseekV2MLP
}.

Definition DeepseekV2MoE_init (config : LayerConfig) : result DeepseekV2MoE :=
  switch <- SwitchGLU_init (hidden_size (attention_config config))
                  (moe_intermediate_size config)
                  (config_n_routed_experts config) ;;
  gate <- MoEGate_init config ;;
  shared <-
    match n_shared_experts config with
    | Some n =>
        let intermediate_size := (moe_intermediate_size config * n)%nat in
        m <- DeepseekV2MLP_init config None (Some intermediate_size) ;;
        Ok (Some m)
    | None => Ok None
    end ;;
  Ok {| switch_mlp := switch; moe_gate := gate;
        shared_experts := shared |}.

Inductive attention_module : Type :=
| LatentAttention (a : DeepseekV2Attention Freqs)
| GroupedAttention (a : LlamaAttention).

Inductive mlp_module : Type :=
| SparseMLP (m : DeepseekV2MoE)
| DenseMLP (m : DeepseekV2MLP).

Record DeepseekV2DecoderLayer : Type := {
  layer_attn_type : string;
  self_attn : attention_module;
  mlp : mlp_module;
  input_layernorm : RMSNorm;
  post_attention_layernorm : RMSNorm
}.

(** The condition of lines 432-436, evaluated left to right:
    [n_routed_experts is not None and layer_idx >= first_k_dense_replace
     and layer_idx % moe_layer_freq == 0]. *)
Definition layer_is_sparse (config : LayerConfig) (layer_idx : nat)
  : result bool :=
  match config_n_routed_experts config with
  | None => Ok false
  | Some _ =>
      if (first_k_dense_replace config <=? Z.of_nat layer_idx)%Z
      then
        if (moe_layer_freq config =? 0)%Z
        then Raise (ZeroDivisionError "integer division or modulo by zero")
        else Ok (Z.of_nat layer_idx mod moe_layer_freq config =? 0)%Z
      else Ok false
  end.

Definition DeepseekV2DecoderLayer_init (config : LayerConfig) (layer_idx : nat)
  : result DeepseekV2DecoderLayer :=
  self_attn <-
    (if String.eqb (attn_type config) "DeepseekV2Attention"
     then a <- DeepseekV2Attention_init log pow yarn_ops
                 (attention_config config) ;;
          Ok (LatentAttention a)
     else a <- LlamaAttention_init pow (attention_config config) ;;
          Ok (GroupedAttention a)) ;;
  mlp <-
    (sparse <- layer_is_sparse config layer_idx ;;
     if sparse
     then m <- DeepseekV2MoE_init config ;; Ok (SparseMLP m)
     else m <- DeepseekV2MLP_init config None None ;; Ok (DenseMLP m)) ;;
  let norm := {| rn_dims := hidden_size (attention_config config);
                 rn_eps := rms_norm_eps config |} in
  Ok {| layer_attn_type := attn_type config;
        self_attn := self_attn; mlp := mlp;
        input_layernorm := norm; post_attention_layernorm := norm |}.

Record DeepseekV2Model : Type := {
  model_vocab_size : nat;
  model_embed_tokens : Embedding;
  model_layers : list DeepseekV2DecoderLayer;
  model_norm : RMSNorm
}.

Definition DeepseekV2Model_init (config : LayerConfig) : result DeepseekV2Model :=
  embed_tokens <- Embedding_init (vocab_size config)
                    (hidden_size (attention_config config)) ;;
  layers <- list_comp (DeepseekV2DecoderLayer_init config)
              (seq 0 (num_hidden_layers config)) ;;
  Ok {| model_vocab_size := vocab_size config;
        model_embed_tokens := embed_tokens;
        model_layers := layers;
        model_norm := {| rn_dims := hidden_size (attention_config config);
                         rn_eps := rms_norm_eps config |} |}.

Record LanguageModel : Type := {
  lm_config : LayerConfig;
  lm_model_type : string;
  lm_model : DeepseekV2Model;
  lm_head : Linear
}.

Definition LanguageModel_init (config : LayerConfig) : result LanguageModel :=
  model <- DeepseekV2Model_init config ;;
  lm_head <- Linear_init (hidden_size (attention_config config))
               (vocab_size config) false ;;
  Ok {| lm_config := config; lm_model_type := model_type config;
        lm_model := model; lm_head := lm_head |}.

(** The property [layers]. *)
Definition LanguageModel_layers (self : LanguageModel)
  : list DeepseekV2DecoderLayer :=
  model_layers (lm_model self).

End Layers.

Arguments GroupedAttention {Freqs} a.
Arguments DenseMLP {SwitchGLU Gate} m.

(** The property [head_dim]: a pair for latent attention, an int otherwise. *)
Inductive head_dims : Type :=
| HeadDimPair (qk v : nat)
| HeadDim (d : nat).

Definition LanguageModel_head_dim (config : LayerConfig) : result head_dims :=
  if String.eqb (attn_type config) "DeepseekV2Attention"
  then Ok (HeadDimPair (qk_nope_head_dim (attention_config config)
                        + qk_rope_head_dim (attention_config config))%nat
             (v_head_dim (attention_config config)))
  else d <- Py.int_floordiv (hidden_size (attention_config config))
              (num_key_value_heads (attention_config config)) ;;
       Ok (HeadDim d).

(** The property [n_kv_heads]. *)
Definition LanguageModel_n_kv_heads (config : LayerConfig) : nat :=
  num_key_value_heads (attention_config config).

(** *** The forward pass of the decoder stack *)

Section Forward.

(** Token ids, hidden states, masks, the cache of one layer and the layers
    with the way one of them is applied; [create_attention_mask] comes from
    [models/base.py]. *)
Variable Tokens Hidden Mask CacheEntry Layer Logits : Type.
Variable embed_tokens : Tokens -> Hidden.
Variable create_attention_mask : Hidden -> list (option CacheEntry) -> Mask.
Variable layer_call :
  Layer -> Hidden -> Mask -> option CacheEntry -> result Hidden.
Variable norm : Hidden -> Hidden.
Variable lm_head_call : Hidden -> Logits.

Definition DeepseekV2Model_call (layers : list Layer) (x : Tokens)
    (mask : option Mask) (inputs_embeds : option Hidden)
    (cache : option (list (option CacheEntry))) : result Hidden :=
  let h :=
    match inputs_embeds with
    | None => embed_tokens x
    | Some inputs_embeds => inputs_embeds
    end in
  let cache :=
    match cache with
    | None => repeat None (length layers)
    | Some cache => cache
    end in
  let mask :=
    match mask with
    | None => create_attention_mask h cache
    | Some mask => mask
    end in
  h <- fold_left (fun acc lc => h <- acc ;; layer_call (fst lc) h mask (snd lc))
         (combine layers cache) (Ok h) ;;
  Ok (norm h).

Definition LanguageModel_call (layers : list Layer) (inputs : Tokens)
    (inputs_embeds : option Hidden) (mask : option Mask)
    (cache : option (list (option CacheEntry))) : result Logits :=
  out <- DeepseekV2Model_call layers inputs mask inputs_embeds cache ;;
  Ok (lm_head_call out).

End Forward.

(** *** Stacking the expert weights ([LanguageModel.sanitize]) *)

Section Sanitize.

Variable A : Type.

Definition weights : Type := Py.dict_of (tensor A).

Definition layer_prefix (l : nat) : string :=
  "language_model.model.layers." ++ Py.str_of_nat l.

Definition expert_key (prefix : string) (e : nat) (m k : string) : string :=
  prefix ++ ".mlp.experts." ++ Py.str_of_nat e ++ "." ++ m ++ "." ++ k.

Definition switch_key (prefix m k : string) : string :=
  prefix ++ ".mlp.switch_mlp." ++ m ++ "." ++ k.

(** [[weights.pop(key(e)) for e in es]] *)
Fixpoint pop_experts (prefix m k : string) (es : list nat)
  : Py.stateful weights (list (tensor A)) :=
  match es with
  | [] => Py.st_ret []
  | e :: es' =>
      Py.st_bind
        (fun w =>
           match Py.dict_pop w (expert_key prefix e m k) with
           | Ok (v, w') => (w', Ok v)
           | Raise ex => (w, Raise ex)
           end)
        (fun v =>
           Py.st_bind (pop_experts prefix m k es')
             (fun vs => Py.st_ret (v :: vs)))
  end.

(** Lines 517-522, the body of the loops. *)
Definition join_experts (n_routed_experts : option nat) (prefix m k : string)
  : Py.stateful weights unit :=
  fun w =>
    if Py.dict_mem w (expert_key prefix 0 m k)
    then
      match n_routed_experts with
      | None =>
          (w, Raise (TypeError
                 "'NoneType' object cannot be interpreted as an integer"))
      | Some n =>
          Py.st_bind (pop_experts prefix m k (seq 0 n))
            (fun to_join w' =>
               match stack to_join with
               | Ok t => (Py.dict_set w' (switch_key prefix m k) t, Ok tt)
               | Raise ex => (w', Raise ex)
               end) w
      end
    else (w, Ok tt).

Definition projections : list (string * string) :=
  [("w1", "gate_proj"); ("w2", "down_proj"); ("w3", "up_proj")].

Definition kinds : list string := ["weight"; "scales"; "biases"].

(** [sanitize] updates the dict it is given and returns it: the store
    after the run is the returned dict. *)
Definition LanguageModel_sanitize (config : LayerConfig)
  : Py.stateful weights unit :=
  Py.st_for (seq 0 (num_hidden_layers config)) (fun l =>
    let prefix := layer_prefix l in
    Py.st_for projections (fun nm =>
      Py.st_for kinds (fun k =>
        join_experts (config_n_routed_experts config) prefix (snd nm) k))).

End Sanitize.

End DeepseekV2.

(** ** llava_next: the vision encoder's attention
       ([models/llava_next/vision.py]) *)

Module LlavaNext.

Section Vision.

Variable pow : float -> float -> float.

Record Attention : Type := {
  num_heads : nat;
  scale : float;
  q_proj : Linear;
  k_proj : Linear;
  v_proj : Linear;
  out_proj : Linear
}.

(** [a or b] for an optional int [a]: [None] and [0] are falsy. *)
Definition or_default (a : option nat) (b : nat) : nat :=
  match a with
  | Some (S n) => S n
  | _ => b
  end.

Definition Attention_init (dims num_heads : nat)
    (query_input_dims key_input_dims value_input_dims value_dims
       value_output_dims : option nat) (bias : bool) : result Attention :=
  r <- Py.int_mod dims num_heads ;;
  if negb (r =? 0)
  then Raise (ValueError
    "The input feature dimensions should be divisible by the number of heads")
  else
    let query_input_dims := or_default query_input_dims dims in
    let key_input_dims := or_default key_input_dims dims in
    let value_input_dims := or_default value_input_dims key_input_dims in
    let value_dims := or_default value_dims dims in
    let value_output_dims := or_default value_output_dims dims in
    head_dim <- Py.int_floordiv dims num_heads ;;
    scale <- Py.int_pow_neg_half pow head_dim ;;
    Ok {| num_heads := num_heads; scale := scale;
          q_proj := {| input_dims := query_input_dims; output_dims := dims;
                       has_bias := bias |};
          k_proj := {| input_dims := key_input_dims; output_dims := dims;
                       has_bias := bias |};
          v_proj := {| input_dims := value_input_dims; output_dims := value_dims;
                       has_bias := bias |};
          out_proj := {| input_dims := value_dims; output_dims := value_output_dims;
                         has_bias := bias |} |}.

End Vision.

(** *** Weights of the vision tower ([check_array_shape], [sanitize]) *)

Section VisionWeights.

Variable A : Type.
(** The value that stands for an element outside an array; no read of a
    well-formed array reaches it. *)
Variable dflt : A.

Definition check_array_shape (arr : tensor A) : bool :=
  match shape arr with
  | [out_channels; kH; KW; _] =>
      (* Check if out_channels is the largest, and kH and KW are the same *)
      (kH <=? out_channels) && (KW <=? out_channels) && (kH =? KW)
  | _ => false
  end.

Definition VisionModel_sanitize (weights : Py.dict_of (tensor A))
  : result (Py.dict_of (tensor A)) :=
  fold_left
    (fun acc kv =>
       sanitized_weights <- acc ;;
       let k := fst kv in
       let v := snd kv in
       if Py.contains "position_ids" k
       then (* Remove unused position_ids *) Ok sanitized_weights
       else if Py.contains "patch_embedding.weight" k
       then
         if check_array_shape v
         then Ok (Py.dict_set sanitized_weights k v)
         else v' <- transpose dflt v [0; 2; 3; 1] ;;
              Ok (Py.dict_set sanitized_weights k v')
       else Ok (Py.dict_set sanitized_weights k v))
    weights (Ok []).

End VisionWeights.

(** *** The encoder and the model *)

(** The fields of [VisionConfig] the constructors read. *)
Record VisionConfig : Type := {
  model_type : string;
  num_hidden_layers : nat;
  hidden_size : nat;
  intermediate_size : nat;
  num_attention_heads : nat;
  image_size : nat;
  patch_size : nat;
  num_channels : nat;
  layer_norm_eps : float
}.

(** [nn.LayerNorm(dims, eps)] *)
Record LayerNorm : Type := {
  ln_dims : nat;
  ln_eps : option float
}.

Record MLP : Type := {
  fc1 : Linear;
  fc2 : Linear
}.

Section VisionConstruction.

Variable pow : float -> float -> float.

(** Constructors of [mlx.nn] that allocate parameters: they are not
    inspected here. *)
Variable Linear_init : nat -> nat -> bool -> result Linear.
Variable Conv2d : Type.
Variable Conv2d_init : nat -> nat -> nat -> nat -> bool -> result Conv2d.
Variable Embedding : Type.
Variable Embedding_init : nat -> nat -> result Embedding.

Definition MLP_init (config : VisionConfig) : result MLP :=
  fc1 <- Linear_init (hidden_size config) (intermediate_size config) true ;;
  fc2 <- Linear_init (intermediate_size config) (hidden_size config) true ;;
  Ok {| fc1 := fc1; fc2 := fc2 |}.

Record EncoderLayer : Type := {
  embed_dim : nat;
  self_attn : Attention;
  layer_norm1 : LayerNorm;
  mlp : MLP;
  layer_norm2 : LayerNorm
}.

Definition EncoderLayer_init (config : VisionConfig) : result EncoderLayer :=
  self_attn <- Attention_init pow (hidden_size config)
                 (num_attention_heads config) None None None None None true ;;
  let norm := {| ln_dims := hidden_size config;
                 ln_eps := Some (layer_norm_eps config) |} in
  mlp <- MLP_init config ;;
  Ok {| embed_dim := hidden_size config; self_attn := self_attn;
        layer_norm1 := norm; mlp := mlp; layer_norm2 := norm |}.

(** [Encoder]: [[EncoderLayer(config) for _ in range(num_hidden_layers)]] *)
Definition Encoder_init (config : VisionConfig) : result (list EncoderLayer) :=
  list_comp (fun _ => EncoderLayer_init config)
    (seq 0 (num_hidden_layers config)).

Record VisionEmbeddings : Type := {
  ve_embed_dim : nat;
  ve_image_size : nat;
  ve_patch_size : nat;
  patch_embedding : Conv2d;
  num_patches : nat;
  num_positions : nat;
  position_embedding : Embedding
}.

Definition VisionEmbeddings_init (config : VisionConfig)
  : result VisionEmbeddings :=
  patch_embedding <- Conv2d_init (num_channels config) (hidden_size config)
                       (patch_size config) (patch_size config) false ;;
  side <- Py.int_floordiv (image_size config) (patch_size config) ;;
  let num_patches := side ^ 2 in
  let num_positions := num_patches + 1 in
  position_embedding <- Embedding_init num_positions (hidden_size config) ;;
  Ok {| ve_embed_dim := hidden_size config;
        ve_image_size := image_size config;
        ve_patch_size := patch_size config;
        patch_embedding := patch_embedding;
        num_patches := num_patches;
        num_positions := num_positions;
        position_embedding := position_embedding |}.

Record ClipVisionModel : Type := {
  embeddings : VisionEmbeddings;
  pre_layrnorm : LayerNorm;
  encoder : list EncoderLayer;
  post_layernorm : LayerNorm
}.

Definition ClipVisionModel_init (config : VisionConfig)
  : result ClipVisionModel :=
  embeddings <- VisionEmbeddings_init config ;;
  let norm := {| ln_dims := hidden_size config; ln_eps := None |} in
  encoder <- Encoder_init config ;;
  Ok {| embeddings := embeddings; pre_layrnorm := norm;
        encoder := encoder; post_layernorm := norm |}.

Record VisionModel : Type := {
  vm_model_type : string;
  vision_model : ClipVisionModel
}.

Definition VisionModel_init (config : VisionConfig) : result VisionModel :=
  if negb (String.eqb (model_type config) "clip_vision_model")
  then Raise (ValueError ("Unsupported model type: " ++ model_type config))
  else
    vision_model <- ClipVisionModel_init config ;;
    Ok {| vm_model_type := model_type config; vision_model := vision_model |}.

End VisionConstruction.

(** *** The forward pass of the encoder *)

Section VisionForward.

(** Images, hidden states and the layers with the way one of them is
    applied ([l(x, mask=None)]); [cls_token] is [x[:, 0, :]]. *)
Variable Image Hidden Layer : Type.
Variable embeddings_call : Image -> Hidden.
Variable pre_layrnorm_call : Hidden -> Hidden.
Variable layer_call : Layer -> Hidden -> Hidden.
Variable post_layernorm_call : Hidden -> Hidden.
Variable cls_token : Hidden -> Hidden.

(** Truth value of [output_hidden_states], an optional bool. *)
Definition truthy_flag (b : option bool) : bool :=
  match b with Some true => true | _ => false end.

Definition ClipVisionModel_call (layers : list Layer) (x : Image)
    (output_hidden_states : option bool)
  : Hidden * Hidden * option (list Hidden) :=
  let x := embeddings_call x in
  let x := pre_layrnorm_call x in
  let encoder_states :=
    if truthy_flag output_hidden_states then Some [x] else None in
  let '(x, encoder_states) :=
    fold_left
      (fun st l =>
         let x := layer_call l (fst st) in
         (x, if truthy_flag output_hidden_states
             then option_map (fun states => (states ++ [x])%list) (snd st)
             else snd st))
      layers (x, encoder_states) in
  let pooler_output := post_layernorm_call (cls_token x) in
  (pooler_output, x, encoder_states).

Definition VisionModel_call (layers : list Layer) (x : Image)
    (output_hidden_states : option bool)
  : Hidden * Hidden * option (list Hidden) :=
  ClipVisionModel_call layers x output_hidden_states.

End VisionForward.

End LlavaNext.

(** ** The command line ([generate.py]) *)

Module Generate.

(** The parsed arguments, as [parse_arguments] returns them.
    [--resize-shape] takes one integer or more ([nargs="+"]): when given,
    [resize_shape] is the first integer and the rest.  The lists of the
    other options of that kind are never empty either; nothing below
    depends on it. *)
Record Args : Type := {
  model : string;
  adapter_path : option string;
  image : option (list string);
  audio : option (list string);
  resize_shape : option (Z * list Z);
  prompt : string;
  system : option string;
  max_tokens : Z;
  temperature : float;
  chat : bool;
  verbose : bool;
  eos_tokens : option (list string);
  skip_special_tokens : bool;
  force_download : bool
}.

(** The dict [kwargs]: a key that is not set is [None]. *)
Record Kwargs : Type := {
  kw_resize_shape : option (Z * Z);
  kw_eos_tokens : option (list string);
  kw_skip_special_tokens : option bool
}.

(** One message of the chat. *)
Record Message : Type := {
  role : string;
  content : string
}.

(** What [apply_chat_template] is given as the prompt: a text, or the chat. *)
Inductive prompt_arg : Type :=
| PromptText (text : string)
| PromptChat (messages : list Message).

(** The console: the lines [input] has still to read and what was written,
    piece by piece. *)
Record Console : Type := {
  stdin : list string;
  stdout : list string
}.

(** How a run ends: it returns, or raises; [input] raises [EOFError] at
    the end of the input. *)
Inductive outcome : Type :=
| Returns
| Raises (e : exn)
| RaisesEOFError.

Definition newline : string := String (Ascii.ascii_of_nat 10) EmptyString.

Section Main.

(** What [generate.py] imports from [utils] and [prompt_utils], and
    [codecs.decode(_, "unicode_escape")]. *)
Variable ModelPath Model Processor Config : Type.
Variable get_model_path : string -> result ModelPath.
Variable load_config : ModelPath -> bool -> result Config.
Variable load :
  ModelPath -> option string -> bool -> bool -> result (Model * Processor).
Variable decode_unicode_escape : string -> result string.
Variable apply_chat_template :
  Processor -> Config -> prompt_arg -> nat -> option nat -> result string.
(** [stream_generate] is a generator: the texts of the chunks it yields,
    and the exception that ends it, if any. *)
Variable stream_generate :
  Model -> Processor -> string -> option (list string) -> option (list string)
  -> Z -> float -> Kwargs -> list string * option exn.
Variable generate :
  Model -> Processor -> string -> option (list string) -> option (list string)
  -> float -> Z -> bool -> Kwargs -> result string.


(** [len(x)] of an optional list: [None] has no length. *)
Definition len_opt {X : Type} (x : option (list X)) : result nat :=
  match x with
  | Some l => Ok (length l)
  | None => Raise (TypeError "object of type 'NoneType' has no len()")
  end.

(** Lines 134-151: the keyword arguments of the generation. *)
Definition main_kwargs (args : Args) : result Kwargs :=
  resize <-
    match resize_shape args with
    | Some (a, rest) =>
        match rest with
        | [] => Ok (Some (a, a))
        | [b] => Ok (Some (a, b))
        | _ => Raise (ValueError "Resize shape must be 1 or 2 integers")
        end
    | None => Ok None
    end ;;
  eos <-
    match eos_tokens args with
    | Some tokens =>
        tokens <- list_comp decode_unicode_escape tokens ;; Ok (Some tokens)
    | None => Ok None
    end ;;
  Ok {| kw_resize_shape := resize;
        kw_eos_tokens := eos;
        kw_skip_special_tokens :=
          if skip_special_tokens args then Some true else None |}.


(** Lines 157-178, the loop [while user := input("User:")] over the lines
    of the input: [input] writes its prompt and reads a line; the loop
    ends on an empty line, and [input] raises at the end of the input.
    The chat and what was written are carried along. *)
Fixpoint chat_loop (args : Args) (model : Model) (processor : Processor)
    (config : Config) (kwargs : Kwargs) (lines : list string)
    (chat : list Message) (out : list string)
  : list Message * Console * outcome :=
  let out := (out ++ ["User:"])%list in
  match lines with
  | [] => (chat, {| stdin := []; stdout := out |}, RaisesEOFError)
  | user :: rest =>
      if String.eqb user ""
      then (chat, {| stdin := rest; stdout := out |}, Returns)
      else
        let chat := (chat ++ [{| role := "user"; content := user |}])%list in
        match len_opt (image args) with
        | Raise e => (chat, {| stdin := rest; stdout := out |}, Raises e)
        | Ok num_images =>
            match apply_chat_template processor config (PromptChat chat)
                    num_images None with
            | Raise e => (chat, {| stdin := rest; stdout := out |}, Raises e)
            | Ok prompt =>
                let out := (out ++ ["Assistant:"])%list in
                let '(chunks, ended) :=
                  stream_generate model processor prompt (image args)
                    (audio args) (max_tokens args) (temperature args)
                    kwargs in
                let response := fold_left String.append chunks "" in
                let out := (out ++ chunks)%list in
                match ended with
                | Some e =>
                    (chat, {| stdin := rest; stdout := out |}, Raises e)
                | None =>
                    let chat :=
                      (chat ++ [{| role := "assistant";
                                   content := response |}])%list in
                    let out := (out ++ [newline])%list in
                    chat_loop args model processor config kwargs rest chat out
                end
            end
        end
  end.


End Main.

End Generate.

(** ** Sample instances

    Concrete stand-ins for the operations the model leaves open; they are
    used where a statement is run on concrete data. *)

Module Samples.

Local Open Scope float_scope.

Definition float_of_Z (z : Z) : float :=
  if (z <? 0)%Z then - PrimFloat.of_uint63 (Uint63.of_Z (- z))
  else PrimFloat.of_uint63 (Uint63.of_Z z).

Fixpoint atanh_series (n : nat) (z z2 k : float) : float :=
  match n with
  | O => 0
  | S n' => z / k + atanh_series n' (z * z2) z2 (k + 2)
  end.

(** Natural logarithm of a positive float: range reduction to the mantissa
    and the series of [2 * atanh((m - 1) / (m + 1))]. *)
Definition log (x : float) : float :=
  let '(m, e) := PrimFloat.frshiftexp x in
  let z := (m - 1) / (m + 1) in
  2 * atanh_series 24 z (z * z) 1
  + float_of_Z (Uint63.to_Z e - FloatOps.shift) * 0x1.62e42fefa39efp-1.

(** [a ** b] as the attention constructors use it, with [b = -0.5]. *)
Definition pow (a b : float) : float := 1 / PrimFloat.sqrt a.

(** The rotation and the frequency table are not computed: the identity
    and a one-point table stand for them. *)
Definition fast_rope (args : DeepseekV2.rope_args float unit) : tensor float :=
  DeepseekV2.ra_x args.

Definition yarn_ops : DeepseekV2.YarnArrays unit :=
  {| DeepseekV2.ya_freq_extra := fun _ _ => Ok tt;
     DeepseekV2.ya_freq_inter := fun _ _ _ => Ok tt;
     DeepseekV2.ya_ramp := fun _ _ _ => Ok tt;
     DeepseekV2.ya_blend := fun _ _ _ => Ok tt |}.

(** deepseek-style YaRN settings: factor 40, mscale and mscale_all_dim 0.707. *)
Definition rope_scaling_yarn : Py.dict :=
  [("type", Py.Str "yarn"); ("factor", Py.Num 40);
   ("mscale", Py.Num 0x1.69fbe76c8b439p-1);
   ("mscale_all_dim", Py.Num 0x1.69fbe76c8b439p-1);
   ("original_max_position_embeddings", Py.Num 4096);
   ("beta_fast", Py.Num 32); ("beta_slow", Py.Num 1)].

Definition text_config (hidden heads : nat) (rs : option Py.dict)
  : DeepseekV2.TextConfig :=
  {| DeepseekV2.hidden_size := hidden;
     DeepseekV2.num_attention_heads := heads;
     DeepseekV2.num_key_value_heads := heads;
     DeepseekV2.max_position_embeddings := 2048;
     DeepseekV2.rope_theta := 10000;
     DeepseekV2.rope_traditional := true;
     DeepseekV2.rope_scaling := rs;
     DeepseekV2.q_lora_rank := None;
     DeepseekV2.qk_rope_head_dim := 64;
     DeepseekV2.kv_lora_rank := 512;
     DeepseekV2.v_head_dim := 128;
     DeepseekV2.qk_nope_head_dim := 128;
     DeepseekV2.attention_bias := false |}.


(** [x / (h ** 0.5)] on binary64 elements. *)
Definition div_sqrt (h : nat) (x : float) : float :=
  x / PrimFloat.sqrt (Py.float_of_nat h).

(** An embedding table of width 2: token [id] has the row [(id, id + 0.5)]. *)
Definition embed_tokens (ids : tensor Z) : tensor float :=
  mk_tensor (shape ids ++ [2%nat])
    (flat_map (fun id => [float_of_Z id; float_of_Z id + 0.5]) (data ids)).

(** The vision tower and the projector hand the image features through. *)
Definition vision_tower (pixel_values : tensor float) : tensor float :=
  pixel_values.

Definition multi_modal_projector (hidden_state : tensor float) : tensor float :=
  hidden_state.

Definition gemma_config : Gemma3.ModelConfig :=
  {| Gemma3.hidden_size := 4;
     Gemma3.pad_token_id := Some 0%Z;
     Gemma3.image_token_index := 7%Z |}.

(** Scores as rationals, with a rational squashing function into (0, 1)
    in the place of the logistic function and its normalised form in the
    place of the softmax. *)
Definition sigmoid (x : Q) : Q := ((1 + x / (1 + Qabs x)) / 2)%Q.

Definition softmax (row : list Q) : list Q :=
  let w := map sigmoid row in
  let total := fold_right Qplus 0%Q w in
  map (fun y => (y / total)%Q) w.

Definition gate_call :=
  @DeepseekV2.MoEGate_call Q 0%Q Qplus Qmult Qopp Qle_bool softmax sigmoid
    (DeepseekV2.partition_by_sort 0%Q Qle_bool).

Definition gate_select :=
  @DeepseekV2.MoEGate_select Q 0%Q Qplus Qmult Qopp Qle_bool
    (DeepseekV2.partition_by_sort 0%Q Qle_bool).

(** A gate over 4 experts in 2 groups of 2 that keeps 1 group and selects
    2 experts per token. *)
Definition gate (topk_method : string) (factor : Q) (bias : list Q)
  : DeepseekV2.MoEGate Q :=
  {| DeepseekV2.scoring_func := "sigmoid";
     DeepseekV2.top_k := 2;
     DeepseekV2.n_routed_experts := 4;
     DeepseekV2.routed_scaling_factor := factor;
     DeepseekV2.topk_method := topk_method;
     DeepseekV2.n_group := 2;
     DeepseekV2.topk_group := 1;
     DeepseekV2.e_score_correction_bias := mk_tensor [4%nat] bias;
     DeepseekV2.weight := mk_tensor [4%nat; 3%nat] (repeat 0%Q 12) |}.

(** A vision checkpoint with a position-id entry, a patch-embedding weight
    in the PyTorch layout (out, in, kH, kW) = (2, 3, 2, 2) and a linear
    weight. *)
Definition patch_weight : tensor float :=
  mk_tensor [2; 3; 2; 2]%nat
    (map (fun i => float_of_Z (Z.of_nat i)) (seq 0 24)).

Definition vision_weights : Py.dict_of (tensor float) :=
  [("vision_model.embeddings.position_ids",
    mk_tensor [1; 5]%nat [0; 1; 2; 3; 4]);
   ("vision_model.embeddings.patch_embedding.weight", patch_weight);
   ("vision_model.encoder.layers.0.mlp.fc1.weight",
    mk_tensor [2; 2]%nat [1; 2; 3; 4])].

(** Stand-ins for the constructors of the libraries: they record their
    arguments. *)
Definition Linear_init (input_dims output_dims : nat) (bias : bool)
  : result Linear :=
  Ok {| input_dims := input_dims; output_dims := output_dims;
        has_bias := bias |}.

Definition Embedding_init (num_embeddings dims : nat) : result (nat * nat) :=
  Ok (num_embeddings, dims).

Definition SwitchGLU_init (input_dims hidden_dims : nat)
    (num_experts : option nat) : result (nat * nat * option nat) :=
  Ok (input_dims, hidden_dims, num_experts).

Definition MoEGate_init (config : DeepseekV2.LayerConfig) : result unit :=
  Ok tt.

(** Four layers over 4 routed and 2 shared experts, dense below layer 1. *)
Definition layer_config (attn_type : string) (moe_layer_freq : Z)
  : DeepseekV2.LayerConfig :=
  {| DeepseekV2.attention_config := text_config 2048 16 None;
     DeepseekV2.model_type := "deepseek_v2";
     DeepseekV2.attn_type := attn_type;
     DeepseekV2.vocab_size := 100;
     DeepseekV2.intermediate_size := 64;
     DeepseekV2.moe_intermediate_size := 32;
     DeepseekV2.num_hidden_layers := 4;
     DeepseekV2.config_n_routed_experts := Some 4%nat;
     DeepseekV2.n_shared_experts := Some 2%nat;
     DeepseekV2.first_k_dense_replace := 1;
     DeepseekV2.moe_layer_freq := moe_layer_freq;
     DeepseekV2.rms_norm_eps := 0x1.0c6f7a0b5ed8dp-20 |}.

(** One layer with two routed experts, and a checkpoint that holds the
    gate projection of both next to the head. *)
Definition sanitize_config : DeepseekV2.LayerConfig :=
  {| DeepseekV2.attention_config := text_config 2048 16 None;
     DeepseekV2.model_type := "deepseek_v2";
     DeepseekV2.attn_type := "DeepseekV2Attention";
     DeepseekV2.vocab_size := 100;
     DeepseekV2.intermediate_size := 64;
     DeepseekV2.moe_intermediate_size := 32;
     DeepseekV2.num_hidden_layers := 1;
     DeepseekV2.config_n_routed_experts := Some 2%nat;
     DeepseekV2.n_shared_experts := None;
     DeepseekV2.first_k_dense_replace := 0;
     DeepseekV2.moe_layer_freq := 1;
     DeepseekV2.rms_norm_eps := 0x1.0c6f7a0b5ed8dp-20 |}.

Definition expert_weight (e : nat) : tensor float :=
  if (e =? 0)%nat then mk_tensor [2; 2]%nat [1; 2; 3; 4]
  else mk_tensor [2; 2]%nat [5; 6; 7; 8].

Definition expert_weights : DeepseekV2.weights float :=
  [("language_model.model.layers.0.mlp.experts.0.gate_proj.weight",
    expert_weight 0);
   ("language_model.lm_head.weight", mk_tensor [1; 2]%nat [9; 10]);
   ("language_model.model.layers.0.mlp.experts.1.gate_proj.weight",
    expert_weight 1)].

(** The same checkpoint without the second expert. *)
Definition expert_weights_short : DeepseekV2.weights float :=
  [("language_model.model.layers.0.mlp.experts.0.gate_proj.weight",
    expert_weight 0);
   ("language_model.lm_head.weight", mk_tensor [1; 2]%nat [9; 10])].

Definition Conv2d_init (in_channels out_channels kernel_size stride : nat)
    (bias : bool) : result (nat * nat * nat * nat) :=
  Ok (in_channels, out_channels, kernel_size, stride).

(** A CLIP-like tower: images of 336 pixels in patches of 14, two layers. *)
Definition vision_config (model_type : string) (heads : nat)
  : LlavaNext.VisionConfig :=
  {| LlavaNext.model_type := model_type;
     LlavaNext.num_hidden_layers := 2;
     LlavaNext.hidden_size := 1024;
     LlavaNext.intermediate_size := 4096;
     LlavaNext.num_attention_heads := heads;
     LlavaNext.image_size := 336;
     LlavaNext.patch_size := 14;
     LlavaNext.num_channels := 3;
     LlavaNext.layer_norm_eps := 0x1.4f8b588e368f1p-17 |}.




Definition decode_unicode_escape (s : string) : result string := Ok s.

Definition apply_chat_template (processor config : unit)
    (prompt : Generate.prompt_arg) (num_images : nat) (num_audios : option nat)
  : result string := Ok "<image> prompt".

Definition stream_generate (model processor : unit) (prompt : string)
    (image audio : option (list string)) (max_tokens : Z)
    (temperature : float) (kwargs : Generate.Kwargs)
  : list string * option exn := (["A"; " cat"; "."], None).


Definition no_kwargs : Generate.Kwargs :=
  {| Generate.kw_resize_shape := None;
     Generate.kw_eos_tokens := None;
     Generate.kw_skip_special_tokens := None |}.

(** The defaults of [parse_arguments] with a resize shape, images and the
    chat flag. *)
Definition generate_args (resize_shape : option (Z * list Z))
    (image : option (list string)) (chat : bool) : Generate.Args :=
  {| Generate.model := "mlx-community/nanoLLaVA-1.5-8bit";
     Generate.adapter_path := None;
     Generate.image := image;
     Generate.audio := None;
     Generate.resize_shape := resize_shape;
     Generate.prompt := "What are these?";
     Generate.system := None;
     Generate.max_tokens := 256;
     Generate.temperature := 0.5;
     Generate.chat := chat;
     Generate.verbose := true;
     Generate.eos_tokens := Some ["</s>"];
     Generate.skip_special_tokens := false;
     Generate.force_download := false |}.

End Samples.

(** ** Vocabulary of the statements about fusion *)

Module Spec.

(** Element-wise choice between two lists. *)
Definition sel {A : Type} (c : list bool) (x y : list A) : list A :=
  map2 (fun (b : bool) (xy : A * A) => if b then fst xy else snd xy)
    c (combine x y).

(** Row [p] of a flat array whose rows have [width] entries. *)
Definition row {A : Type} (width p : nat) (l : list A) : list A :=
  firstn width (skipn (p * width) l).

(** Number of occurrences of [img] among the first [p] ids. *)
Definition rank_of (img : Z) (ids : list Z) (p : nat) : nat :=
  count_occ Z.eq_dec (firstn p ids) img.

Definition count_image (img : Z) (ids : list Z) : nat :=
  count_occ Z.eq_dec ids img.

(** The fusion the specification describes, as a selection by category:
    the next feature row at an image token, a zero row at a pad token, the
    text embedding row elsewhere. *)
Fixpoint fuse {A : Type} (zero : A) (width : nat) (img pad : Z)
    (ids : list Z) (emb feats : list A) : list A :=
  match ids with
  | [] => []
  | id :: ids' =>
      if (id =? img)%Z
      then firstn width feats
             ++ fuse zero width img pad ids' (skipn width emb) (skipn width feats)
      else if (id =? pad)%Z
      then repeat zero width
             ++ fuse zero width img pad ids' (skipn width emb) feats
      else firstn width emb
             ++ fuse zero width img pad ids' (skipn width emb) feats
  end.

(** Sequential reading of a scatter through a mask: the positions where
    the mask holds take the values in order. *)
Fixpoint merge {A : Type} (mask : list bool) (d vals : list A) : list A :=
  match mask, d with
  | b :: mask', x :: d' =>
      if b then
        match vals with
        | v :: vals' => v :: merge mask' d' vals'
        | [] => x :: merge mask' d' []
        end
      else x :: merge mask' d' vals
  | _, _ => d
  end.

(** A mask over the ids, repeated along the embedding axis. *)
Definition expand_mask (width : nat) (f : Z -> bool) (ids : list Z) : list bool :=
  flat_map (fun x => repeat x width) (map f ids).

(** The pad id in force: the configured one, 0 when there is none. *)
Definition pad_or_zero (pad_token_id : option Z) : Z :=
  match pad_token_id with Some p => p | None => 0%Z end.

(** The embedding after the two [mx.where] steps: text rows are kept, all
    other rows are zero. *)
Fixpoint text_or_zero {A : Type} (zero : A) (width : nat) (img pad : Z) (ids : list Z) (emb : list A)
  : list A :=
  match ids with
  | [] => []
  | id :: ids' =>
      (if negb (id =? img)%Z && negb (id =? pad)%Z
       then firstn width emb else repeat zero width)
      ++ text_or_zero zero width img pad ids' (skipn width emb)
  end.

(** [dims] is a multiple of [heads] (and [heads] is not zero). *)
Definition divisible (dims heads : nat) : Prop :=
  heads <> 0 /\ dims mod heads = 0.

(** The outer product of every row of a [b] by [s] mask with itself:
    entry [(i, j)] of block [r] is [r[j] * r[i]]. *)
Definition outer_mask (b s : nat) (md : list Z) : list Z :=
  concat (map (fun r => flat_map (fun xi => map (fun xj => (xj * xi)%Z) r) r)
            (chunks b s md)).

(** The group of an expert and the number of groups a selection touches. *)
Definition group_of (experts_per_group e : nat) : nat := e / experts_per_group.

Definition groups_spanned (experts_per_group : nat) (inds : list nat) : nat :=
  length (nodup Nat.eq_dec (map (group_of experts_per_group) inds)).

(** The scores of one token with the experts of the dropped groups zeroed. *)
Definition zero_groups {E : Type} (zero : E) (experts_per_group : nat)
    (dropped : list nat) (scores : list E) : list E :=
  map (fun ie => if existsb (Nat.eqb (group_of experts_per_group (fst ie))) dropped
                 then zero else snd ie)
    (combine (seq 0 (length scores)) scores).

(** What is assumed of the partial selection: for a valid rank [kth] the
    result is a permutation of the positions of the row, the entries before
    position [kth] are no larger than the entry at [kth] and the entries
    after it no smaller. *)
Definition partition_ok {E : Type} (zero : E) (leb : E -> E -> bool)
    (partition_fn : list E -> nat -> list nat) : Prop :=
  forall (row : list E) (kth : nat),
    kth < length row ->
    let res := partition_fn row kth in
    let entry i := nth (nth i res 0) row zero in
    Permutation res (seq 0 (length row)) /\
    (forall i, i < kth -> leb (entry i) (entry kth) = true) /\
    (forall j, kth < j < length row -> leb (entry kth) (entry j) = true).

(** All the orders of a list, and those among the orders of the positions of
    a row that are partitioned around rank [kth]. *)
Fixpoint inserts (x : nat) (l : list nat) : list (list nat) :=
  match l with
  | [] => [[x]]
  | y :: l' => (x :: l) :: map (cons y) (inserts x l')
  end.

Fixpoint perms (l : list nat) : list (list nat) :=
  match l with
  | [] => [[]]
  | x :: l' => flat_map (inserts x) (perms l')
  end.

Definition partitioned {E : Type} (zero : E) (leb : E -> E -> bool)
    (row : list E) (kth : nat) (res : list nat) : bool :=
  let entry i := nth (nth i res 0) row zero in
  forallb (fun i => leb (entry i) (entry kth)) (seq 0 kth)
  && forallb (fun j => leb (entry kth) (entry j))
       (seq (S kth) (length row - S kth)).

Definition candidates {E : Type} (zero : E) (leb : E -> E -> bool)
    (row : list E) (kth : nat) : list (list nat) :=
  filter (partitioned zero leb row kth) (perms (seq 0 (length row))).

(** The extent two compatible extents broadcast to (equal, or one is 1). *)
Definition bdim (a b : nat) : nat := if a =? b then a else a * b.

(** What [VisionModel.sanitize] of llava_next makes of one entry: nothing
    for a position-id entry, the transposed array for a patch-embedding
    weight that fails [check_array_shape], the entry itself otherwise. *)
Definition sanitize_entry {A : Type} (dflt : A) (kv : string * tensor A)
  : result (list (string * tensor A)) :=
  if Py.contains "position_ids" (fst kv) then Ok []
  else if Py.contains "patch_embedding.weight" (fst kv)
  then
    if LlavaNext.check_array_shape (snd kv) then Ok [kv]
    else v' <- transpose dflt (snd kv) [0; 2; 3; 1] ;; Ok [(fst kv, v')]
  else Ok [kv].

(** Decimal digits, of which the printed layer and expert numbers consist. *)
Definition is_digit (c : Ascii.ascii) : bool :=
  (48 <=? Ascii.nat_of_ascii c) && (Ascii.nat_of_ascii c <=? 57).

Fixpoint all_digits (s : string) : bool :=
  match s with
  | EmptyString => true
  | String c s' => is_digit c && all_digits s'
  end.

(** The keys [LanguageModel.sanitize] of deepseek_vl_v2 reads and writes
    for layer [l], projection [m] and kind [k]. *)
Definition expert_weight_key (l e : nat) (m k : string) : string :=
  DeepseekV2.expert_key (DeepseekV2.layer_prefix l) e m k.

Definition switch_weight_key (l : nat) (m k : string) : string :=
  DeepseekV2.switch_key (DeepseekV2.layer_prefix l) m k.

(** The triples (layer, projection, kind) in the order of the loops. *)
Definition sanitize_triples (num_hidden_layers : nat)
  : list (nat * string * string) :=
  flat_map (fun l =>
     flat_map (fun nm => map (fun k => (l, snd nm, k)) DeepseekV2.kinds)
       DeepseekV2.projections)
    (seq 0 num_hidden_layers).

(** The body of the loops of [sanitize] at one triple. *)
Definition sanitize_step {A : Type} (n_routed_experts : option nat)
    (T : nat * string * string)
  : Py.stateful (DeepseekV2.weights A) unit :=
  DeepseekV2.join_experts n_routed_experts
    (DeepseekV2.layer_prefix (fst (fst T))) (snd (fst T)) (snd T).

Definition valid_triple (T : nat * string * string) : Prop :=
  In (snd (fst T)) (map snd DeepseekV2.projections) /\
  In (snd T) DeepseekV2.kinds.

(** The hidden states after each layer of an encoder, in order. *)
Fixpoint states_after {Hidden Layer : Type}
    (layer_call : Layer -> Hidden -> Hidden) (x : Hidden) (layers : list Layer)
  : list Hidden :=
  match layers with
  | [] => []
  | l :: layers' =>
      layer_call l x :: states_after layer_call (layer_call l x) layers'
  end.

(** Row [t] of [group_scores] in the greedy branch of [MoEGate.__call__]:
    for token [t] of [tokens], the maximum of every group of [p] entries
    of the scores [d]. *)
Definition greedy_group_scores {E : Type} (zero : E) (leb : E -> E -> bool)
    (tokens n_group p : nat) (d : list E) (t : nat) : list E :=
  nth t (chunks tokens n_group
           (map (fun row => match row with
                            | [] => zero
                            | x :: l => max_list leb x l
                            end) (chunks (tokens * n_group) p d))) [].

(** The groups the greedy branch masks for token [t]: the row of
    [group_scores] is partitioned around rank [n_group - topk_group - 1]
    (the last rank when that is [-1]) and the first
    [n_group - topk_group] positions are taken. *)
Definition greedy_dropped {E : Type} (zero : E) (leb : E -> E -> bool)
    (partition_fn : list E -> nat -> list nat)
    (tokens n_group p topk_group : nat) (d : list E) (t : nat) : list nat :=
  let kth := if n_group - topk_group =? 0
             then n_group - 1 else n_group - topk_group - 1 in
  firstn (n_group - topk_group)
    (partition_fn (greedy_group_scores zero leb tokens n_group p d t) kth).

End Spec.

(** * Theorems *)

Open Scope list_scope.

(** ** YaRN rotary embedding and the attention scale *)

(** A sequence of steps that returns: its first step returned. *)
Lemma bind_ok_inv {X Y : Type} (c : result X) (k : X -> result Y) (v : Y) :
  bind c k = Ok v -> exists a, c = Ok a /\ k a = Ok v.
Proof.
  destruct c as [a | e]; simpl; [ | discriminate ].
  intros H. now exists a.
Qed.

Section RotaryFacts.

Import DeepseekV2.

Variable log : float -> float.
Variable pow : float -> float -> float.
Variable A : Type.
Variable Freqs : Type.
Variable scal : float -> A -> A.
Variable fast_rope : rope_args A Freqs -> tensor A.
Variable yarn_ops : YarnArrays Freqs.

Lemma yarn_get_mscale_le_one (s : float) (m : Py.value) :
  PrimFloat.leb s 1 = true ->
  yarn_get_mscale log (Py.Num s) m = Ok 1%float.
Proof.
  intros Hs. unfold yarn_get_mscale. simpl. now rewrite Hs.
Qed.

Lemma yarn_get_mscale_gt_one (s m : float) :
  PrimFloat.leb s 1 = false ->
  yarn_get_mscale log (Py.Num s) (Py.Num m) = Ok (f0_1 * m * log s + 1)%float.
Proof.
  intros Hs. unfold yarn_get_mscale. simpl. now rewrite Hs.
Qed.

(** What [yarn_get_mscale] returns whenever it returns. *)
Lemma yarn_get_mscale_inv (scale mscale : Py.value) (r : float) :
  yarn_get_mscale log scale mscale = Ok r ->
  exists s, scale = Py.Num s /\
    ((PrimFloat.leb s 1 = true /\ r = 1%float) \/
     (PrimFloat.leb s 1 = false /\
      exists m, mscale = Py.Num m /\ r = (f0_1 * m * log s + 1)%float)).
Proof.
  unfold yarn_get_mscale. destruct scale as [s | str]; simpl; [ | discriminate ].
  intros H. exists s. split; [ reflexivity | ].
  destruct (PrimFloat.leb s 1) eqn:Hs.
  - left. now inversion H.
  - right. split; [ reflexivity | ].
    destruct mscale as [m | str]; simpl in H; [ | discriminate ].
    exists m. now inversion H.
Qed.

(** The embedding needs a rotation count that is not zero: with
    [beta_fast] 0 the quotient [max_position_embeddings / (0 * 2 * pi)] of
    the correction range raises, so the constructor raises whatever the
    logarithm and the array arithmetic are. *)
Lemma yarn_init_zero_rotations (args : YarnArgs) (s m : float) :
  ya_scaling_factor args = Py.Num s ->
  PrimFloat.leb s 1 = true ->
  ya_beta_fast args = Py.Num 0 ->
  ya_original_max_position_embeddings args = Py.Num m ->
  exists e, DeepseekV2YarnRotaryEmbedding_init log yarn_ops args = Raise e.
Proof.
  intros Hsf Hle Hbf Hom. unfold DeepseekV2YarnRotaryEmbedding_init.
  rewrite Hsf, Hbf, Hom.
  rewrite !yarn_get_mscale_le_one by assumption. cbn [bind].
  change (Py.float_div 1 1) with (Ok 1%float). cbn [bind].
  destruct (ya_freq_extra yarn_ops _ _) as [fe | e]; cbn [bind];
    [ | now exists e ].
  destruct (ya_freq_inter yarn_ops _ _ _) as [fi | e]; cbn [bind];
    [ | now exists e ].
  eexists. reflexivity.
Qed.


(** C8: the scale of latent attention is [q_head_dim ** -0.5] with
    [q_head_dim = qk_nope_head_dim + qk_rope_head_dim]; when [rope_scaling]
    is configured with a non-zero [mscale_all_dim] it is that value times
    [mscale * mscale], where [mscale] is [1] for a factor [<= 1] and
    [0.1 * mscale_all_dim * log(factor) + 1] otherwise. *)
Theorem latent_attention_scale (config : TextConfig) (att : DeepseekV2Attention Freqs) :
  DeepseekV2Attention_init log pow yarn_ops config = Ok att ->
  let base_scale :=
    pow (Py.float_of_nat (qk_nope_head_dim config + qk_rope_head_dim config))
      (-0.5)%float in
  dsa_q_head_dim att = qk_nope_head_dim config + qk_rope_head_dim config /\
  match rope_scaling config with
  | None => dsa_scale att = base_scale
  | Some rs =>
      let mscale_all_dim := Py.get rs "mscale_all_dim" (Py.Num 0) in
      if Py.truthy mscale_all_dim then
        exists s m,
          Py.get rs "factor" (Py.Num 1) = Py.Num s /\
          ((PrimFloat.leb s 1 = true /\ m = 1%float) \/
           (PrimFloat.leb s 1 = false /\
            exists d, mscale_all_dim = Py.Num d /\
                      m = (f0_1 * d * log s + 1)%float)) /\
          dsa_scale att = (base_scale * m * m)%float
      else dsa_scale att = base_scale
  end.
Proof.
  unfold DeepseekV2Attention_init, Py.int_pow_neg_half.
  destruct (qk_nope_head_dim config + qk_rope_head_dim config =? 0) eqn:Hq;
    simpl; [ discriminate | ].
  destruct (rope_scaling config) as [rs | ].
  - destruct (Py.truthy (Py.get rs "mscale_all_dim" (Py.Num 0))) eqn:Ht.
    + destruct (yarn_get_mscale log (Py.get rs "factor" (Py.Num 1))
                  (Py.get rs "mscale_all_dim" (Py.Num 0))) as [m | e] eqn:Hm;
        simpl; [ | discriminate ].
      destruct (DeepseekV2YarnRotaryEmbedding_init log yarn_ops _) as [emb | e];
        simpl; [ | discriminate ].
      intros H. inversion H; subst att; clear H. simpl.
      split; [ reflexivity | ].
      destruct (yarn_get_mscale_inv _ _ Hm) as (s & Hs & Hcases).
      exists s, m. split; [ exact Hs | ]. split; [ exact Hcases | reflexivity ].
    + intros H. inversion H; subst att; clear H. simpl. now split.
  - intros H. inversion H; subst att; clear H. simpl. now split.
Qed.

End RotaryFacts.



(** The latent attention of a model with factor 40 and mscale_all_dim
    0.707: the scale is [192 ** -0.5] times the square of
    [0.1 * 0.707 * log 40 + 1]. *)
Lemma latent_attention_scale_witness :
  exists att,
    DeepseekV2.DeepseekV2Attention_init Samples.log Samples.pow Samples.yarn_ops
      (Samples.text_config 1280 10 (Some Samples.rope_scaling_yarn)) = Ok att /\
    exists s m,
      Py.Num 40 = Py.Num s /\
      ((PrimFloat.leb s 1 = true /\ m = 1%float) \/
       (PrimFloat.leb s 1 = false /\
        exists d, Py.Num 0x1.69fbe76c8b439p-1 = Py.Num d /\
                  m = (DeepseekV2.f0_1 * d * Samples.log s + 1)%float)) /\
      DeepseekV2.dsa_scale att
      = (Samples.pow (Py.float_of_nat 192) (-0.5) * m * m)%float.
Proof.
  eexists. split; [ vm_compute; reflexivity | ].
  exact (proj2 (latent_attention_scale Samples.log Samples.pow Samples.yarn_ops
           (Samples.text_config 1280 10 (Some Samples.rope_scaling_yarn))
           eq_refl)).
Defined.

(** ** Divisibility of the hidden size by the head count *)

Section ConstructionFacts.

Variable pow : float -> float -> float.

Lemma vision_attention_rejects (dims heads : nat)
    (qi ki vi vd vo : option nat) (bias : bool) :
  ~ Spec.divisible dims heads ->
  exists e, LlavaNext.Attention_init pow dims heads qi ki vi vd vo bias = Raise e.
Proof.
  intros Hnd. unfold LlavaNext.Attention_init, Py.int_mod.
  destruct (heads =? 0) eqn:Hh; simpl.
  - eexists. reflexivity.
  - destruct (dims mod heads =? 0) eqn:Hm; simpl.
    + exfalso. apply Hnd. split.
      * now apply Nat.eqb_neq.
      * now apply Nat.eqb_eq.
    + eexists. reflexivity.
Qed.

Lemma llama_attention_accepts (config : DeepseekV2.TextConfig) :
  DeepseekV2.rope_scaling config = None ->
  DeepseekV2.num_attention_heads config <> 0 ->
  DeepseekV2.num_attention_heads config <= DeepseekV2.hidden_size config ->
  exists att,
    DeepseekV2.LlamaAttention_init pow config = Ok att /\
    DeepseekV2.la_head_dim att
    = DeepseekV2.hidden_size config / DeepseekV2.num_attention_heads config.
Proof.
  intros Hrs Hh Hle.
  unfold DeepseekV2.LlamaAttention_init, Py.int_floordiv, Py.int_pow_neg_half.
  rewrite Hrs.
  destruct (DeepseekV2.num_attention_heads config =? 0) eqn:E0.
  - apply Nat.eqb_eq in E0. contradiction.
  - simpl.
    destruct (DeepseekV2.hidden_size config / DeepseekV2.num_attention_heads config
              =? 0) eqn:E1.
    + apply Nat.eqb_eq in E1. apply Nat.div_small_iff in E1; [ lia | assumption ].
    + simpl. eexists. split; reflexivity.
Qed.

(** C9 (amended): the vision encoder's [Attention] refuses, when it is
    constructed, a feature size that is not a multiple of the head count;
    [LlamaAttention] makes no such check: without rope scaling its
    construction succeeds for every head count between 1 and the hidden
    size, with the head dimension rounded down. *)
Theorem attention_construction_checks (config : DeepseekV2.TextConfig)
    (qi ki vi vd vo : option nat) (bias : bool) :
  ~ Spec.divisible (DeepseekV2.hidden_size config)
      (DeepseekV2.num_attention_heads config) ->
  (exists e,
     LlavaNext.Attention_init pow (DeepseekV2.hidden_size config)
       (DeepseekV2.num_attention_heads config) qi ki vi vd vo bias = Raise e) /\
  (DeepseekV2.rope_scaling config = None ->
   DeepseekV2.num_attention_heads config <> 0 ->
   DeepseekV2.num_attention_heads config <= DeepseekV2.hidden_size config ->
   exists att,
     DeepseekV2.LlamaAttention_init pow config = Ok att /\
     DeepseekV2.la_head_dim att
     = DeepseekV2.hidden_size config / DeepseekV2.num_attention_heads config).
Proof.
  intros Hnd. split.
  - now apply vision_attention_rejects.
  - apply llama_attention_accepts.
Qed.

End ConstructionFacts.

(** Hidden size 10 with 3 heads: the vision attention raises, the
    grouped-query attention is built with head dimension 3. *)
Lemma attention_construction_checks_witness :
  ~ Spec.divisible 10 3 /\
  (exists e,
     LlavaNext.Attention_init Samples.pow 10 3 None None None None None true
     = Raise e) /\
  (exists att,
     DeepseekV2.LlamaAttention_init Samples.pow (Samples.text_config 10 3 None)
     = Ok att /\ DeepseekV2.la_head_dim att = 3).
Proof.
  assert (Hnd : ~ Spec.divisible 10 3) by (intros [_ H]; discriminate H).
  split; [ exact Hnd | ].
  destruct (attention_construction_checks Samples.pow
              (Samples.text_config 10 3 None) None None None None None true Hnd)
    as [Hv Hl].
  split; [ exact Hv | ].
  apply Hl; simpl; [ reflexivity | discriminate | lia ].
Defined.

(** C9 as stated fails for [LlamaAttention]: hidden size 10 is not a
    multiple of 3 heads, and the constructor returns a module. *)
Lemma llama_attention_no_divisibility_check :
  10 mod 3 <> 0 /\
  is_ok (DeepseekV2.LlamaAttention_init Samples.pow (Samples.text_config 10 3 None))
  = true.
Proof.
  split; [ discriminate | reflexivity ].
Qed.

(** ** Arrays: shapes and broadcasting *)

Section ArrayFacts.

Lemma shape_eqb_refl (s : list nat) : shape_eqb s s = true.
Proof. unfold shape_eqb. now destruct (list_eq_dec Nat.eq_dec s s). Qed.

Lemma shape_eqb_eq (s1 s2 : list nat) : shape_eqb s1 s2 = true -> s1 = s2.
Proof. unfold shape_eqb. now destruct (list_eq_dec Nat.eq_dec s1 s2). Qed.

Lemma shape_eqb_neq (s1 s2 : list nat) : s1 <> s2 -> shape_eqb s1 s2 = false.
Proof. unfold shape_eqb. now destruct (list_eq_dec Nat.eq_dec s1 s2). Qed.

Lemma broadcast_shapes_rev_same (r : list nat) : broadcast_shapes_rev r r = Ok r.
Proof.
  induction r as [ | a r IH ]; [ reflexivity | ].
  simpl. rewrite IH. simpl. now rewrite Nat.eqb_refl.
Qed.

Lemma broadcast_shapes_same (s : list nat) : broadcast_shapes s s = Ok s.
Proof.
  unfold broadcast_shapes. rewrite broadcast_shapes_rev_same. simpl.
  now rewrite rev_involutive.
Qed.

Lemma broadcast_to_same {A : Type} (t : tensor A) (s : list nat) :
  shape t = s -> broadcast_to t s = Ok t.
Proof.
  intros <-. unfold broadcast_to. now rewrite shape_eqb_refl.
Qed.

Lemma where_same_shape {A : Type} (s : list nat) (c : list bool) (x y : list A) :
  where_ (mk_tensor s c) (mk_tensor s x) (mk_tensor s y)
  = Ok (mk_tensor s (Spec.sel c x y)).
Proof.
  unfold where_. simpl. rewrite broadcast_shapes_same. simpl.
  rewrite broadcast_shapes_same. simpl.
  rewrite !broadcast_to_same by reflexivity. reflexivity.
Qed.

Lemma concat_chunks {A : Type} (k n : nat) (l : list A) :
  length l = k * n -> concat (chunks k n l) = l.
Proof.
  revert l. induction k as [ | k IH ]; intros l Hl; simpl in *.
  - now destruct l.
  - rewrite IH.
    + apply firstn_skipn.
    + rewrite length_skipn. lia.
Qed.

End ArrayFacts.

(** ** Fusion on flat lists *)

Section FusionLists.

Import Spec.

Variable A : Type.
Variable zero : A.

Lemma sel_app (c1 c2 : list bool) (x1 x2 y1 y2 : list A) :
  length x1 = length c1 -> length y1 = length c1 ->
  sel (c1 ++ c2) (x1 ++ x2) (y1 ++ y2) = sel c1 x1 y1 ++ sel c2 x2 y2.
Proof.
  revert x1 y1. induction c1 as [ | b c1 IH ]; intros x1 y1 Hx Hy.
  - destruct x1; [ | discriminate ]. destruct y1; [ | discriminate ]. reflexivity.
  - destruct x1 as [ | x x1 ]; [ discriminate | ].
    destruct y1 as [ | y y1 ]; [ discriminate | ].
    simpl in Hx, Hy. injection Hx as Hx. injection Hy as Hy.
    specialize (IH x1 y1 Hx Hy). unfold sel, map2 in *. simpl.
    now rewrite IH.
Qed.

Lemma sel_true (n : nat) (x y : list A) :
  length x = n -> length y = n -> sel (repeat true n) x y = x.
Proof.
  revert x y. induction n as [ | n IH ]; intros x y Hx Hy.
  - now destruct x.
  - destruct x as [ | a x ]; [ discriminate | ].
    destruct y as [ | b y ]; [ discriminate | ].
    simpl in Hx, Hy. injection Hx as Hx. injection Hy as Hy.
    specialize (IH x y Hx Hy). unfold sel, map2 in *. simpl. now rewrite IH.
Qed.

Lemma sel_false (n : nat) (x y : list A) :
  length x = n -> length y = n -> sel (repeat false n) x y = y.
Proof.
  revert x y. induction n as [ | n IH ]; intros x y Hx Hy.
  - destruct x; [ | discriminate ]. now destruct y.
  - destruct x as [ | a x ]; [ discriminate | ].
    destruct y as [ | b y ]; [ discriminate | ].
    simpl in Hx, Hy. injection Hx as Hx. injection Hy as Hy.
    specialize (IH x y Hx Hy). unfold sel, map2 in *. simpl. now rewrite IH.
Qed.

Lemma length_text_or_zero (width : nat) (img pad : Z) (ids : list Z) (emb : list A) :
  length emb = length ids * width ->
  length (text_or_zero zero width img pad ids emb) = length ids * width.
Proof.
  revert emb. induction ids as [ | id ids IH ]; intros emb Hl; [ reflexivity | ].
  simpl in *. rewrite length_app, IH.
  - destruct (negb (id =? img)%Z && negb (id =? pad)%Z).
    + rewrite length_firstn. lia.
    + now rewrite repeat_length.
  - rewrite length_skipn. lia.
Qed.

Lemma where_steps (width : nat) (img pad : Z) (ids : list Z) (emb : list A) :
  length emb = length ids * width ->
  let expand (f : Z -> bool) := flat_map (fun x => repeat x width) (map f ids) in
  let zeros := repeat zero (length ids * width) in
  sel (expand (fun id => (id =? pad)%Z)) zeros
    (sel (expand (fun id => negb (id =? img)%Z && negb (id =? pad)%Z)) emb zeros)
  = text_or_zero zero width img pad ids emb.
Proof.
  revert emb. induction ids as [ | id ids IH ]; intros emb Hl; [ reflexivity | ].
  simpl in *.
  assert (Hf : length (firstn width emb) = width) by (rewrite length_firstn; lia).
  assert (Hs : length (skipn width emb) = length ids * width)
    by (rewrite length_skipn; lia).
  rewrite <- (IH _ Hs). clear IH.
  set (e1 := firstn width emb) in *. set (e2 := skipn width emb) in *.
  assert (He : emb = e1 ++ e2) by (symmetry; apply firstn_skipn).
  rewrite He. clear He.
  rewrite repeat_app.
  set (z1 := repeat zero width).
  assert (Hz : length z1 = width) by apply repeat_length.
  set (t := negb (id =? img)%Z && negb (id =? pad)%Z).
  rewrite (sel_app (repeat t width) _ e1 e2 z1)
    by (now rewrite repeat_length).
  assert (Hin : length (sel (repeat t width) e1 z1) = width).
  { destruct t; [ rewrite sel_true | rewrite sel_false ]; assumption. }
  rewrite (sel_app (repeat (id =? pad)%Z width) _ z1 _
             (sel (repeat t width) e1 z1))
    by (now rewrite repeat_length).
  f_equal.
  subst t. destruct (id =? pad)%Z.
  - rewrite andb_false_r. rewrite sel_false by assumption.
    now rewrite sel_true by assumption.
  - rewrite andb_true_r. destruct (negb (id =? img)%Z).
    + rewrite (sel_true e1 z1) by assumption.
      now rewrite sel_false by assumption.
    + rewrite (sel_false e1 z1) by assumption.
      now rewrite sel_false by assumption.
Qed.

(** *** The scatter read sequentially *)

Lemma merge_nil (mask : list bool) (d : list A) : merge mask d [] = d.
Proof.
  revert d. induction mask as [ | b mask IH ]; intros d; [ now destruct d | ].
  destruct d as [ | x d ]; [ reflexivity | ].
  simpl. rewrite IH. now destruct b.
Qed.

Lemma replace_nth_app (pre : list A) (x v : A) (d : list A) :
  replace_nth (length pre) v (pre ++ x :: d) = pre ++ v :: d.
Proof.
  induction pre as [ | y pre IH ]; [ reflexivity | ].
  simpl. now rewrite IH.
Qed.

Lemma scatter_nil_vals (d : list A) (idx : list nat) : scatter d idx [] = d.
Proof. unfold scatter. now destruct idx. Qed.

Lemma scatter_merge (mask : list bool) :
  forall (pre d vals : list A),
    length d = length mask ->
    scatter (pre ++ d) (where_indices_from (length pre) mask) vals
    = pre ++ merge mask d vals.
Proof.
  induction mask as [ | b mask IH ]; intros pre d vals Hl.
  - destruct d; [ | discriminate ]. reflexivity.
  - destruct d as [ | x d ]; [ discriminate | ].
    simpl in Hl. injection Hl as Hl. simpl.
    destruct b.
    + destruct vals as [ | v vals ].
      * rewrite scatter_nil_vals. now rewrite merge_nil.
      * unfold scatter. simpl. rewrite replace_nth_app.
        change (pre ++ v :: d) with (pre ++ [v] ++ d). rewrite app_assoc.
        replace (S (length pre)) with (length (pre ++ [v]))
          by (rewrite length_app; simpl; lia).
        fold (scatter ((pre ++ [v]) ++ d)
                (where_indices_from (length (pre ++ [v])) mask) vals).
        rewrite IH by assumption. now rewrite <- app_assoc.
    + change (pre ++ x :: d) with (pre ++ [x] ++ d). rewrite app_assoc.
      replace (S (length pre)) with (length (pre ++ [x]))
        by (rewrite length_app; simpl; lia).
      rewrite IH by assumption. now rewrite <- app_assoc.
Qed.

Lemma merge_true_block (n : nat) (mask : list bool) (blk d vals : list A) :
  length blk = n -> n <= length vals ->
  merge (repeat true n ++ mask) (blk ++ d) vals
  = firstn n vals ++ merge mask d (skipn n vals).
Proof.
  revert blk vals. induction n as [ | n IH ]; intros blk vals Hb Hv.
  - destruct blk; [ | discriminate ]. reflexivity.
  - destruct blk as [ | x blk ]; [ discriminate | ].
    destruct vals as [ | v vals ]; [ simpl in Hv; lia | ].
    simpl in *. rewrite IH by lia. reflexivity.
Qed.

Lemma merge_false_block (n : nat) (mask : list bool) (blk d vals : list A) :
  length blk = n ->
  merge (repeat false n ++ mask) (blk ++ d) vals = blk ++ merge mask d vals.
Proof.
  revert blk. induction n as [ | n IH ]; intros blk Hb.
  - destruct blk; [ | discriminate ]. reflexivity.
  - destruct blk as [ | x blk ]; [ discriminate | ].
    simpl in *. rewrite IH by lia. reflexivity.
Qed.

Lemma length_where_indices_from (i : nat) (mask : list bool) :
  length (where_indices_from i mask) = count_occ bool_dec mask true.
Proof.
  revert i. induction mask as [ | b mask IH ]; intros i; [ reflexivity | ].
  simpl. destruct b; simpl.
  - now rewrite IH.
  - destruct (bool_dec false true); [ discriminate | ]. apply IH.
Qed.

Lemma count_expand_mask (width : nat) (img : Z) (ids : list Z) :
  count_occ bool_dec
    (flat_map (fun x => repeat x width) (map (fun id => (id =? img)%Z) ids)) true
  = count_image img ids * width.
Proof.
  unfold count_image.
  induction ids as [ | id ids IH ]; [ reflexivity | ].
  simpl. rewrite count_occ_app, IH.
  destruct (Z.eq_dec id img) as [ -> | Hne ].
  - rewrite Z.eqb_refl.
    rewrite (count_occ_repeat_eq bool_dec) by reflexivity. simpl. lia.
  - apply Z.eqb_neq in Hne. rewrite Hne.
    rewrite (count_occ_repeat_neq bool_dec) by discriminate. lia.
Qed.

(** The scatter of the feature rows into the image rows of the embedding
    produced by the [mx.where] steps is the fusion by category. *)
Lemma merge_fuse (width : nat) (img pad : Z) (ids : list Z) :
  forall (emb feats : list A),
    length emb = length ids * width ->
    count_image img ids * width <= length feats ->
    merge (flat_map (fun x => repeat x width) (map (fun id => (id =? img)%Z) ids))
      (text_or_zero zero width img pad ids emb) feats
    = fuse zero width img pad ids emb feats.
Proof.
  unfold count_image.
  induction ids as [ | id ids IH ]; intros emb feats He Hf; [ reflexivity | ].
  simpl in *.
  assert (Hs : length (skipn width emb) = length ids * width)
    by (rewrite length_skipn; lia).
  destruct (Z.eq_dec id img) as [ -> | Hne ].
  - rewrite Z.eqb_refl in *. simpl.
    rewrite merge_true_block; [ | now rewrite repeat_length | lia ].
    rewrite IH; [ reflexivity | assumption | rewrite length_skipn; lia ].
  - assert (Hb : (id =? img)%Z = false) by now apply Z.eqb_neq.
    rewrite Hb in *. simpl.
    rewrite merge_false_block.
    + rewrite IH by assumption. now destruct (id =? pad)%Z.
    + destruct (id =? pad)%Z; simpl.
      * now rewrite repeat_length.
      * rewrite length_firstn. lia.
Qed.

(** *** Rows of the fusion *)

Lemma length_fuse (width : nat) (img pad : Z) (ids : list Z) :
  forall (emb feats : list A),
    length emb = length ids * width ->
    count_image img ids * width <= length feats ->
    length (fuse zero width img pad ids emb feats) = length ids * width.
Proof.
  unfold count_image.
  induction ids as [ | id ids IH ]; intros emb feats He Hf; [ reflexivity | ].
  simpl in *.
  assert (Hs : length (skipn width emb) = length ids * width)
    by (rewrite length_skipn; lia).
  destruct (Z.eq_dec id img) as [ -> | Hne ].
  - rewrite Z.eqb_refl. rewrite length_app, length_firstn, IH;
      [ lia | assumption | rewrite length_skipn; lia ].
  - assert (Hb : (id =? img)%Z = false) by now apply Z.eqb_neq.
    rewrite Hb. destruct (id =? pad)%Z.
    + rewrite length_app, repeat_length, IH by assumption. lia.
    + rewrite length_app, length_firstn, IH by assumption. lia.
Qed.

Lemma row_0_app (width : nat) (blk rest : list A) :
  length blk = width -> row width 0 (blk ++ rest) = blk.
Proof.
  intros Hb. unfold row. simpl.
  rewrite firstn_app, Hb, Nat.sub_diag. simpl.
  rewrite app_nil_r. apply firstn_all2. lia.
Qed.

Lemma row_S_app (width p : nat) (blk rest : list A) :
  length blk = width -> row width (S p) (blk ++ rest) = row width p rest.
Proof.
  intros Hb. unfold row. simpl.
  rewrite Nat.add_comm, <- skipn_skipn.
  rewrite skipn_app, Hb, Nat.sub_diag. simpl.
  rewrite (@skipn_all2 _ width blk) by lia. reflexivity.
Qed.

Lemma row_skipn (width p : nat) (l : list A) :
  row width p (skipn width l) = row width (S p) l.
Proof.
  unfold row. rewrite skipn_skipn. do 2 f_equal. simpl. lia.
Qed.

Lemma fuse_row (width : nat) (img pad : Z) (ids : list Z) :
  forall (p : nat) (emb feats : list A),
    length emb = length ids * width ->
    count_image img ids * width <= length feats ->
    p < length ids ->
    row width p (fuse zero width img pad ids emb feats)
    = if (nth p ids 0%Z =? img)%Z
      then row width (rank_of img ids p) feats
      else if (nth p ids 0%Z =? pad)%Z then repeat zero width
      else row width p emb.
Proof.
  unfold count_image, rank_of.
  induction ids as [ | id ids IH ]; intros p emb feats He Hf Hp;
    [ simpl in Hp; lia | ].
  simpl in He, Hf, Hp.
  assert (Hs : length (skipn width emb) = length ids * width)
    by (rewrite length_skipn; lia).
  destruct p as [ | p ].
  - simpl. destruct (Z.eq_dec id img) as [ -> | Hne ].
    + rewrite Z.eqb_refl. rewrite row_0_app; [ reflexivity | ].
      rewrite length_firstn.
      destruct (Z.eq_dec img img); [ lia | contradiction ].
    + assert (Hb : (id =? img)%Z = false) by now apply Z.eqb_neq.
      rewrite Hb. destruct (id =? pad)%Z.
      * rewrite row_0_app; [ reflexivity | now rewrite repeat_length ].
      * rewrite row_0_app; [ reflexivity | rewrite length_firstn; lia ].
  - simpl. destruct (Z.eq_dec id img) as [ -> | Hne ].
    + rewrite Z.eqb_refl. rewrite row_S_app by (rewrite length_firstn; lia).
      rewrite IH; [ | assumption | rewrite length_skipn; lia | lia ].
      rewrite !row_skipn. reflexivity.
    + assert (Hb : (id =? img)%Z = false) by now apply Z.eqb_neq.
      rewrite Hb. destruct (id =? pad)%Z.
      * rewrite row_S_app by (now rewrite repeat_length).
        rewrite IH by (assumption || lia). now rewrite row_skipn.
      * rewrite row_S_app by (rewrite length_firstn; lia).
        rewrite IH by (assumption || lia). now rewrite row_skipn.
Qed.

End FusionLists.

(** ** Fusion on arrays *)

Section FusionArrays.

Import Spec.

Variable A : Type.
Variable zero : A.
Variable div_sqrt : nat -> A -> A.

Lemma expand_dims_last_2d {X : Type} (B S : nat) (d : list X) :
  expand_dims (mk_tensor [B; S] d) (-1) = Ok (mk_tensor [B; S; 1] d).
Proof. reflexivity. Qed.

Lemma repeat_last_3d {X : Type} (B S E : nat) (d : list X) :
  repeat_last (mk_tensor [B; S; 1] d) E
  = Ok (mk_tensor [B; S; E] (flat_map (fun x => repeat x E) d)).
Proof.
  unfold repeat_last, lead_shape, last_dim. simpl. now rewrite Nat.add_0_r.
Qed.

Lemma numel_3d (B S E : nat) : numel [B; S; E] = B * S * E.
Proof. unfold numel. simpl. lia. Qed.

Lemma prepare_unfold (h : nat) (pad_token_id : option Z) (img : Z)
    (bi t E B S : nat) (fd ed : list A) (ids : list Z)
    (attention_mask : option (tensor Z)) :
  length ids = B * S ->
  length ed = B * S * E ->
  Gemma3.prepare_inputs_for_multimodal zero div_sqrt h pad_token_id img
    (mk_tensor [bi; t; E] fd) (mk_tensor [B; S; E] ed) (mk_tensor [B; S] ids)
    attention_mask
  = (final_embedding <-
       Gemma3.masked_scatter
         (mk_tensor [B; S; E]
            (text_or_zero zero E img (pad_or_zero pad_token_id) ids ed))
         (mk_tensor [B; S; E] (expand_mask E (fun id => (id =? img)%Z) ids))
         (mk_tensor [bi; t; E] (map (div_sqrt h) fd)) ;;
     match attention_mask with
     | None => Raise (TypeError "expand_dims: incompatible function arguments (None)")
     | Some attention_mask =>
         attention_mask_expanded_1 <- expand_dims attention_mask 1 ;;
         attention_mask_expanded_2 <- expand_dims attention_mask 2 ;;
         final_attention_mask_4d <-
           binop Z.mul attention_mask_expanded_1 attention_mask_expanded_2 ;;
         final_attention_mask_4d <- expand_dims final_attention_mask_4d 1 ;;
         Ok (final_embedding, final_attention_mask_4d)
     end).
Proof.
  intros Hids Hed.
  unfold Gemma3.prepare_inputs_for_multimodal.
  unfold map_t. cbn [shape data].
  rewrite !expand_dims_last_2d. cbn [bind].
  rewrite !repeat_last_3d. cbn [bind].
  unfold zeros. rewrite numel_3d.
  rewrite where_same_shape. cbn [bind].
  unfold zeros_like, zeros. cbn [shape]. rewrite numel_3d.
  rewrite where_same_shape. cbn [bind].
  fold (pad_or_zero pad_token_id).
  replace (B * S) with (length ids) by assumption.
  rewrite (where_steps zero E img (pad_or_zero pad_token_id) ids ed)
    by (rewrite Hed, Hids; reflexivity).
  reflexivity.
Qed.

(** *** [reshape] back to a known shape *)

Lemma reshape_known_dims (s : list nat) :
  filter (fun d => negb (d =? -1)%Z) (map Z.of_nat s) = map Z.of_nat s
  /\ forallb (fun d => (0 <=? d)%Z) (map Z.of_nat s) = true
  /\ fold_right Z.mul 1%Z (map Z.of_nat s) = Z.of_nat (numel s)
  /\ map Z.to_nat (map Z.of_nat s) = s.
Proof.
  induction s as [ | a s (IH1 & IH2 & IH3 & IH4) ]; [ now repeat split | ].
  simpl. rewrite IH1, IH2, IH3, IH4, Nat2Z.id.
  replace (Z.of_nat a =? -1)%Z with false by (symmetry; apply Z.eqb_neq; lia).
  replace (0 <=? Z.of_nat a)%Z with true by (symmetry; apply Z.leb_le; lia).
  simpl. repeat split. lia.
Qed.

Lemma reshape_back {X : Type} (s : list nat) (d : list X) :
  reshape (mk_tensor [numel s] d) (map Z.of_nat s) = Ok (mk_tensor s d).
Proof.
  destruct (reshape_known_dims s) as (H1 & H2 & H3 & H4).
  unfold reshape. cbn [shape data]. rewrite H1, H2, H3, H4, Nat.sub_diag.
  simpl. rewrite Nat.mul_1_r, Z.eqb_refl. reflexivity.
Qed.

(** *** Assignment through an index array *)

Lemma concat_repeat_singleton {X : Type} (x : X) (n : nat) :
  concat (repeat [x] n) = repeat x n.
Proof. induction n as [ | n IH ]; [ reflexivity | ]. simpl. now rewrite IH. Qed.

Lemma setitem_1d_same {X : Type} (N K : nat) (d f : list X) (idx : list nat) :
  length f = K -> length idx = K ->
  setitem_1d (mk_tensor [N] d) idx (mk_tensor [K] f)
  = Ok (mk_tensor [N] (scatter d idx f)).
Proof.
  intros Hf Hi. unfold setitem_1d. cbn [shape data]. rewrite Hi.
  destruct K as [ | [ | K ] ].
  - reflexivity.
  - destruct f as [ | x [ | y f ] ]; try discriminate. reflexivity.
  - cbn [squeeze_leading]. rewrite broadcast_to_same by reflexivity. reflexivity.
Qed.

Lemma setitem_1d_broadcast {X : Type} (N : nat) (d : list X) (x : X)
    (idx : list nat) :
  length idx <> 1 ->
  setitem_1d (mk_tensor [N] d) idx (mk_tensor [1] [x])
  = Ok (mk_tensor [N] (scatter d idx (repeat x (length idx)))).
Proof.
  intros Hn. unfold setitem_1d. cbn [shape data squeeze_leading].
  unfold broadcast_to. cbn [shape data ndim length].
  rewrite shape_eqb_neq by discriminate.
  unfold broadcast_shapes. simpl. rewrite shape_eqb_refl. simpl.
  destruct (length idx) as [ | [ | n ] ] eqn:Hl; try contradiction.
  - reflexivity.
  - now rewrite concat_repeat_singleton.
Qed.

Lemma setitem_1d_mismatch {X : Type} (N K : nat) (d f : list X) (idx : list nat) :
  K <> length idx -> K <> 1 ->
  exists e, setitem_1d (mk_tensor [N] d) idx (mk_tensor [K] f) = Raise e.
Proof.
  intros Hne H1. unfold setitem_1d. cbn [shape data].
  assert (Hsq : squeeze_leading [K] = [K])
    by (destruct K as [ | [ | K ] ]; [ reflexivity | contradiction | reflexivity ]).
  rewrite Hsq. unfold broadcast_to. cbn [shape data].
  rewrite shape_eqb_neq by (intros H; injection H as H; contradiction).
  unfold broadcast_shapes. simpl.
  replace (K =? length idx) with false by (symmetry; now apply Nat.eqb_neq).
  replace (K =? 1) with false by (symmetry; now apply Nat.eqb_neq).
  simpl. destruct (length idx =? 1) eqn:Hl1; simpl.
  - apply Nat.eqb_eq in Hl1. rewrite Hl1, Nat.mul_1_r.
    rewrite shape_eqb_neq by (intros H; injection H as H; contradiction).
    eexists. reflexivity.
  - eexists. reflexivity.
Qed.

(** *** [masked_scatter] *)

Lemma masked_scatter_same (s fs : list nat) (d f : list A) (m : list bool) :
  length d = length m ->
  length f = numel fs ->
  numel fs = count_occ bool_dec m true ->
  Gemma3.masked_scatter (mk_tensor s d) (mk_tensor s m) (mk_tensor fs f)
  = Ok (mk_tensor s (merge m d f)).
Proof.
  intros Hd Hf Hc. unfold Gemma3.masked_scatter, flatten, where_indices.
  cbn [shape data].
  rewrite setitem_1d_same;
    [ | assumption | now rewrite length_where_indices_from ].
  cbn [bind].
  pose proof (scatter_merge m [] d f Hd) as Hsm. simpl in Hsm.
  rewrite Hsm. apply reshape_back.
Qed.

Lemma masked_scatter_mismatch (s fs : list nat) (d f : list A) (m : list bool) :
  numel fs <> count_occ bool_dec m true ->
  numel fs <> 1 ->
  exists e,
    Gemma3.masked_scatter (mk_tensor s d) (mk_tensor s m) (mk_tensor fs f)
    = Raise e.
Proof.
  intros Hne H1. unfold Gemma3.masked_scatter, flatten, where_indices.
  cbn [shape data].
  destruct (@setitem_1d_mismatch A (numel s) (numel fs) d f
              (where_indices_from 0 m)) as [e He];
    [ now rewrite length_where_indices_from | assumption | ].
  rewrite He. eexists. reflexivity.
Qed.

Lemma masked_scatter_broadcast (s fs : list nat) (d : list A) (x : A)
    (m : list bool) :
  length d = length m ->
  numel fs = 1 ->
  count_occ bool_dec m true <> 1 ->
  Gemma3.masked_scatter (mk_tensor s d) (mk_tensor s m) (mk_tensor fs [x])
  = Ok (mk_tensor s (merge m d (repeat x (count_occ bool_dec m true)))).
Proof.
  intros Hd Hf Hc. unfold Gemma3.masked_scatter, flatten, where_indices.
  cbn [shape data]. rewrite Hf.
  rewrite setitem_1d_broadcast by (now rewrite length_where_indices_from).
  cbn [bind]. rewrite length_where_indices_from.
  pose proof (scatter_merge m [] d (repeat x (count_occ bool_dec m true)) Hd)
    as Hsm.
  simpl in Hsm. rewrite Hsm. apply reshape_back.
Qed.

End FusionArrays.

(** ** Broadcast data and the attention mask *)

Section MaskFacts.

Lemma chunks_lengths {X : Type} (k n : nat) (l : list X) :
  length l = k * n -> Forall (fun r => length r = n) (chunks k n l).
Proof.
  revert l. induction k as [ | k IH ]; intros l Hl; simpl; constructor.
  - rewrite length_firstn. simpl in Hl. lia.
  - apply IH. rewrite length_skipn. simpl in Hl. lia.
Qed.

Lemma map_ext_Forall {X Y : Type} (P : X -> Prop) (f g : X -> Y) (l : list X) :
  Forall P l -> (forall x, P x -> f x = g x) -> map f l = map g l.
Proof.
  intros HF Hfg. induction HF as [ | x l Hx _ IH ]; [ reflexivity | ].
  simpl. now rewrite IH, (Hfg x Hx).
Qed.

Lemma bcast_data_same {X : Type} (s : list nat) :
  forall d : list X, length d = numel s -> bcast_data s s d = d.
Proof.
  induction s as [ | a s IH ]; intros d Hd; [ reflexivity | ].
  simpl in *. rewrite Nat.eqb_refl.
  rewrite (map_ext_Forall (bcast_data s s) (fun r => r)
             (chunks_lengths a (numel s) d Hd) IH).
  rewrite map_id. now apply concat_chunks.
Qed.

Lemma broadcast_to_data {X : Type} (t : tensor X) (tgt : list nat) :
  well_formed t ->
  broadcast_shapes (shape t) tgt = Ok tgt ->
  broadcast_to t tgt
  = Ok (mk_tensor tgt
          (bcast_data (repeat 1 (length tgt - ndim t) ++ shape t) tgt (data t))).
Proof.
  intros Hwf Hbs. unfold broadcast_to.
  destruct (shape_eqb (shape t) tgt) eqn:Heq.
  - apply shape_eqb_eq in Heq. destruct t as [s d]. simpl in *. subst tgt.
    unfold ndim. simpl. rewrite Nat.sub_diag. simpl.
    now rewrite bcast_data_same.
  - rewrite Hbs. simpl. now rewrite shape_eqb_refl.
Qed.

Lemma chunks_1 {X : Type} (l : list X) :
  chunks (length l) 1 l = map (fun x => [x]) l.
Proof.
  induction l as [ | x l IH ]; [ reflexivity | ]. simpl. now rewrite IH.
Qed.

(** The two views of a two-dimensional mask. *)
Lemma broadcast_shapes_outer (b s : nat) :
  broadcast_shapes [b; 1; s] [b; s; 1] = Ok [b; s; s]
  /\ broadcast_shapes [b; 1; s] [b; s; s] = Ok [b; s; s]
  /\ broadcast_shapes [b; s; 1] [b; s; s] = Ok [b; s; s].
Proof.
  unfold broadcast_shapes. simpl. rewrite !Nat.eqb_refl. simpl.
  destruct s as [ | [ | s ] ]; simpl; rewrite ?Nat.eqb_refl; simpl;
    rewrite ?Nat.mul_1_r, ?Nat.add_0_r; repeat split; reflexivity.
Qed.

Lemma bcast_rows_view (b s : nat) (md : list Z) :
  length md = b * s ->
  bcast_data [b; 1; s] [b; s; s] md
  = concat (map (fun r => concat (repeat r s)) (chunks b s md)).
Proof.
  intros Hl. simpl. rewrite Nat.eqb_refl.
  rewrite !Nat.mul_1_r, Nat.add_0_r.
  f_equal.
  apply (map_ext_Forall _ _ (chunks_lengths b s md Hl)).
  intros r Hr.
  assert (Hrow : concat (map (fun d => d) (chunks s 1 r)) = r).
  { rewrite map_id. apply concat_chunks. lia. }
  rewrite Nat.eqb_refl, Hrow.
  destruct s as [ | [ | s ] ].
  - reflexivity.
  - simpl. destruct r as [ | x [ | y r ] ]; try discriminate. reflexivity.
  - reflexivity.
Qed.

Lemma bcast_cols_view (b s : nat) (md : list Z) :
  length md = b * s ->
  bcast_data [b; s; 1] [b; s; s] md
  = concat (map (fun r => flat_map (fun x => repeat x s) r) (chunks b s md)).
Proof.
  intros Hl. simpl. rewrite !Nat.eqb_refl.
  rewrite !Nat.mul_1_r.
  f_equal.
  apply (map_ext_Forall _ _ (chunks_lengths b s md Hl)).
  intros r Hr. rewrite <- Hr at 1. rewrite chunks_1, map_map.
  rewrite flat_map_concat_map. f_equal. apply map_ext. intros x.
  destruct s as [ | [ | s ] ]; simpl.
  - reflexivity.
  - reflexivity.
  - now rewrite concat_repeat_singleton.
Qed.

Lemma map2_app {X Y W : Type} (f : X -> Y -> W) (a1 a2 : list X) (b1 b2 : list Y) :
  length a1 = length b1 ->
  map2 f (a1 ++ a2) (b1 ++ b2) = map2 f a1 b1 ++ map2 f a2 b2.
Proof.
  revert b1. induction a1 as [ | x a1 IH ]; intros b1 Hl.
  - destruct b1; [ reflexivity | discriminate ].
  - destruct b1 as [ | y b1 ]; [ discriminate | ].
    simpl in Hl. injection Hl as Hl. specialize (IH b1 Hl).
    unfold map2 in *. simpl. now rewrite IH.
Qed.

Lemma map2_concat {X Y W V : Type} (f : X -> Y -> W) (g1 : V -> list X)
    (g2 : V -> list Y) (cs : list V) :
  Forall (fun r => length (g1 r) = length (g2 r)) cs ->
  map2 f (concat (map g1 cs)) (concat (map g2 cs))
  = concat (map (fun r => map2 f (g1 r) (g2 r)) cs).
Proof.
  induction 1 as [ | r cs Hr _ IH ]; [ reflexivity | ].
  simpl. rewrite map2_app by assumption. now rewrite IH.
Qed.

Lemma map2_repeat_r (r : list Z) (x : Z) :
  map2 Z.mul r (repeat x (length r)) = map (fun xj => (xj * x)%Z) r.
Proof.
  induction r as [ | y r IH ]; [ reflexivity | ].
  unfold map2 in *. simpl. now rewrite IH.
Qed.

Lemma outer_row (r l : list Z) :
  map2 Z.mul (concat (repeat r (length l)))
    (flat_map (fun x => repeat x (length r)) l)
  = flat_map (fun xi => map (fun xj => (xj * xi)%Z) r) l.
Proof.
  induction l as [ | x l IH ]; [ reflexivity | ].
  simpl. rewrite map2_app by (now rewrite repeat_length).
  now rewrite IH, map2_repeat_r.
Qed.

Lemma length_concat_repeat {X : Type} (r : list X) (n : nat) :
  length (concat (repeat r n)) = n * length r.
Proof.
  induction n as [ | n IH ]; [ reflexivity | ].
  simpl. rewrite length_app, IH. reflexivity.
Qed.

Lemma length_flat_map_repeat {X : Type} (r : list X) (n : nat) :
  length (flat_map (fun x => repeat x n) r) = length r * n.
Proof.
  induction r as [ | x r IH ]; [ reflexivity | ].
  simpl. rewrite length_app, repeat_length, IH. reflexivity.
Qed.

(** The mask half of [prepare_inputs_for_multimodal] on a [b] by [s]
    validity mask. *)
Lemma attention_mask_4d {X : Type} (fe : X) (b s : nat) (md : list Z) :
  length md = b * s ->
  (attention_mask_expanded_1 <- expand_dims (mk_tensor [b; s] md) 1 ;;
   attention_mask_expanded_2 <- expand_dims (mk_tensor [b; s] md) 2 ;;
   final_attention_mask_4d <-
     binop Z.mul attention_mask_expanded_1 attention_mask_expanded_2 ;;
   final_attention_mask_4d <- expand_dims final_attention_mask_4d 1 ;;
   Ok (fe, final_attention_mask_4d))
  = Ok (fe, mk_tensor [b; 1; s; s] (Spec.outer_mask b s md)).
Proof.
  intros Hl.
  change (expand_dims (mk_tensor [b; s] md) 1) with (Ok (mk_tensor [b; 1; s] md)).
  change (expand_dims (mk_tensor [b; s] md) 2) with (Ok (mk_tensor [b; s; 1] md)).
  cbn [bind]. unfold binop. cbn [shape].
  destruct (broadcast_shapes_outer b s) as (H0 & H1 & H2).
  rewrite H0. cbn [bind].
  rewrite (broadcast_to_data (t := mk_tensor [b; 1; s] md));
    [ | unfold well_formed, numel; simpl; lia | exact H1 ].
  rewrite (broadcast_to_data (t := mk_tensor [b; s; 1] md));
    [ | unfold well_formed, numel; simpl; lia | exact H2 ].
  cbn [bind data shape ndim length Nat.sub repeat app].
  rewrite bcast_rows_view, bcast_cols_view by assumption.
  change (expand_dims (mk_tensor [b; s; s] ?d) 1)
    with (Ok (mk_tensor [b; 1; s; s] d)).
  cbn [bind]. do 3 f_equal.
  rewrite map2_concat.
  - unfold Spec.outer_mask. f_equal.
    apply (map_ext_Forall _ _ (chunks_lengths b s md Hl)).
    intros r Hr. rewrite <- Hr. apply outer_row.
  - eapply Forall_impl; [ | exact (chunks_lengths b s md Hl) ].
    intros r Hr. cbn beta.
    rewrite length_concat_repeat, length_flat_map_repeat. lia.
Qed.

End MaskFacts.

(** ** Multimodal fusion: the main statements *)

Section FusionTheorems.

Import Spec.

Variable A : Type.
Variable zero : A.
Variable div_sqrt : nat -> A -> A.

Lemma row_map {X Y : Type} (f : X -> Y) (width p : nat) (l : list X) :
  row width p (map f l) = map f (row width p l).
Proof. unfold row. now rewrite skipn_map, firstn_map. Qed.

Lemma length_expand_mask (E : nat) (f : Z -> bool) (ids : list Z) :
  length (expand_mask E f ids) = length ids * E.
Proof.
  unfold expand_mask. now rewrite length_flat_map_repeat, length_map.
Qed.

(** The fused embedding when the counts agree: the embedding half of
    [prepare_inputs_for_multimodal] is the fusion by category. *)
Lemma fusion_by_category (h : nat) (pad_token_id : option Z) (img : Z)
    (bi t E B S b' s' : nat) (fd ed : list A) (ids md : list Z) :
  length ids = B * S ->
  length ed = B * S * E ->
  length fd = bi * t * E ->
  count_image img ids = bi * t ->
  length md = b' * s' ->
  Gemma3.prepare_inputs_for_multimodal zero div_sqrt h pad_token_id img
    (mk_tensor [bi; t; E] fd) (mk_tensor [B; S; E] ed) (mk_tensor [B; S] ids)
    (Some (mk_tensor [b'; s'] md))
  = Ok (mk_tensor [B; S; E]
          (fuse zero E img (pad_or_zero pad_token_id) ids ed
             (map (div_sqrt h) fd)),
        mk_tensor [b'; 1; s'; s'] (outer_mask b' s' md)).
Proof.
  intros Hids Hed Hfd Hcount Hmd.
  rewrite prepare_unfold by assumption.
  rewrite masked_scatter_same.
  - cbn [bind]. rewrite attention_mask_4d by assumption.
    unfold expand_mask. rewrite merge_fuse; [ reflexivity | lia | ].
    rewrite length_map. rewrite Hcount, Hfd. lia.
  - rewrite length_text_or_zero by lia. now rewrite length_expand_mask.
  - rewrite length_map, numel_3d. assumption.
  - unfold expand_mask. rewrite count_expand_mask, numel_3d. now rewrite Hcount.
Qed.

(** Row-wise reading of the fused embedding. *)
Lemma fusion_rows (pad img : Z) (E B S : nat) (ed feats : list A) (ids : list Z)
    (b s : nat) :
  length ids = B * S ->
  length ed = B * S * E ->
  count_image img ids * E <= length feats ->
  b < B -> s < S ->
  row E (b * S + s) (fuse zero E img pad ids ed feats)
  = if (nth (b * S + s) ids 0%Z =? img)%Z
    then row E (rank_of img ids (b * S + s)) feats
    else if (nth (b * S + s) ids 0%Z =? pad)%Z then repeat zero E
    else row E (b * S + s) ed.
Proof.
  intros Hids Hed Hf Hb Hs.
  apply fuse_row; [ lia | assumption | nia ].
Qed.

(** C1: with [n] image-token positions and exactly [n] feature vectors the
    fusion returns an embedding of the shape of the text embedding whose
    row at position [(b, s)] is: the text embedding row when the id is
    neither the image token nor the pad token; the zero row when the id is
    the pad token; and, when the id is the image token, the scaled feature
    row whose number is the number of image tokens before [(b, s)] in
    row-major order, so that the features fill the image positions left to
    right in their flattened order. *)
Theorem fusion_exactness (h : nat) (pad_token_id : option Z) (img : Z)
    (bi t E B S b' s' : nat) (fd ed : list A) (ids md : list Z) :
  length ids = B * S ->
  length ed = B * S * E ->
  length fd = bi * t * E ->
  count_image img ids = bi * t ->
  length md = b' * s' ->
  exists fused mask4d,
    Gemma3.prepare_inputs_for_multimodal zero div_sqrt h pad_token_id img
      (mk_tensor [bi; t; E] fd) (mk_tensor [B; S; E] ed) (mk_tensor [B; S] ids)
      (Some (mk_tensor [b'; s'] md))
    = Ok (fused, mask4d) /\
    shape fused = [B; S; E] /\
    forall b s, b < B -> s < S ->
      let p := b * S + s in
      let id := nth p ids 0%Z in
      (id <> img -> id <> pad_or_zero pad_token_id ->
       row E p (data fused) = row E p ed) /\
      (id = pad_or_zero pad_token_id -> id <> img ->
       row E p (data fused) = repeat zero E) /\
      (id = img ->
       row E p (data fused)
       = map (div_sqrt h) (row E (rank_of img ids p) fd)).
Proof.
  intros Hids Hed Hfd Hcount Hmd.
  eexists. eexists. split; [ now apply fusion_by_category | ].
  split; [ reflexivity | ].
  intros b s Hb Hs p id. cbn [data].
  assert (Hrow := @fusion_rows (pad_or_zero pad_token_id) img E B S ed
                    (map (div_sqrt h) fd) ids b s Hids Hed).
  rewrite length_map, Hcount, Hfd in Hrow.
  specialize (Hrow (Nat.le_refl _) Hb Hs).
  fold p in Hrow. fold id in Hrow.
  repeat split.
  - intros Hni Hnp. rewrite Hrow.
    apply Z.eqb_neq in Hni, Hnp. now rewrite Hni, Hnp.
  - intros Hp Hni. rewrite Hrow.
    apply Z.eqb_neq in Hni. apply Z.eqb_eq in Hp. now rewrite Hni, Hp.
  - intros Hi. rewrite Hrow. apply Z.eqb_eq in Hi. rewrite Hi.
    apply row_map.
Qed.

(** C3 (amended): when the number of supplied feature scalars differs
    from the number of scalars at the image-token positions and is not
    exactly one, the fusion raises and returns nothing. *)
Theorem fusion_mismatch_raises (h : nat) (pad_token_id : option Z) (img : Z)
    (bi t E B S : nat) (fd ed : list A) (ids : list Z)
    (attention_mask : option (tensor Z)) :
  length ids = B * S ->
  length ed = B * S * E ->
  bi * t * E <> count_image img ids * E ->
  bi * t * E <> 1 ->
  exists e,
    Gemma3.prepare_inputs_for_multimodal zero div_sqrt h pad_token_id img
      (mk_tensor [bi; t; E] fd) (mk_tensor [B; S; E] ed) (mk_tensor [B; S] ids)
      attention_mask
    = Raise e.
Proof.
  intros Hids Hed Hne H1.
  rewrite prepare_unfold by assumption.
  destruct (masked_scatter_mismatch [B; S; E] [bi; t; E]
              (text_or_zero zero E img (pad_or_zero pad_token_id) ids ed)
              (map (div_sqrt h) fd)
              (expand_mask E (fun id => (id =? img)%Z) ids)) as [e He].
  - unfold expand_mask. rewrite count_expand_mask, numel_3d. assumption.
  - now rewrite numel_3d.
  - rewrite He. exists e. reflexivity.
Qed.

(** For an embedding width of at least two every mismatch of the counts
    raises. *)
Lemma fusion_raises_on_count_mismatch (h : nat) (pad_token_id : option Z)
    (img : Z) (bi t E B S : nat) (fd ed : list A) (ids : list Z)
    (attention_mask : option (tensor Z)) :
  length ids = B * S ->
  length ed = B * S * E ->
  2 <= E ->
  bi * t <> count_image img ids ->
  exists e,
    Gemma3.prepare_inputs_for_multimodal zero div_sqrt h pad_token_id img
      (mk_tensor [bi; t; E] fd) (mk_tensor [B; S; E] ed) (mk_tensor [B; S] ids)
      attention_mask
    = Raise e.
Proof.
  intros Hids Hed HE Hne.
  rewrite prepare_unfold by assumption.
  destruct (masked_scatter_mismatch [B; S; E] [bi; t; E]
              (text_or_zero zero E img (pad_or_zero pad_token_id) ids ed)
              (map (div_sqrt h) fd)
              (expand_mask E (fun id => (id =? img)%Z) ids)) as [e He].
  - unfold expand_mask. rewrite count_expand_mask, numel_3d.
    intros H. apply Nat.mul_cancel_r in H; [ contradiction | lia ].
  - rewrite numel_3d. intros H. apply Nat.mul_eq_1 in H. lia.
  - rewrite He. exists e. reflexivity.
Qed.

(** C10: an absent pad-token id behaves as the id 0: the fusion computed
    with [pad_token_id = None] is the fusion computed with the pad id 0,
    every position whose id is 0 falls into the pad mask, and (0 not being
    the image token) its row of the fused embedding is the zero row, not
    its text embedding. *)
Theorem absent_pad_token_is_zero (h : nat) (img : Z)
    (bi t E B S b' s' : nat) (fd ed : list A) (ids md : list Z) :
  length ids = B * S ->
  length ed = B * S * E ->
  length fd = bi * t * E ->
  count_image img ids = bi * t ->
  length md = b' * s' ->
  img <> 0%Z ->
  exists fused mask4d,
    Gemma3.prepare_inputs_for_multimodal zero div_sqrt h None img
      (mk_tensor [bi; t; E] fd) (mk_tensor [B; S; E] ed) (mk_tensor [B; S] ids)
      (Some (mk_tensor [b'; s'] md))
    = Ok (fused, mask4d) /\
    Gemma3.prepare_inputs_for_multimodal zero div_sqrt h (Some 0%Z) img
      (mk_tensor [bi; t; E] fd) (mk_tensor [B; S; E] ed) (mk_tensor [B; S] ids)
      (Some (mk_tensor [b'; s'] md))
    = Ok (fused, mask4d) /\
    forall b s, b < B -> s < S ->
      nth (b * S + s) ids 0%Z = 0%Z ->
      row E (b * S + s) (data fused) = repeat zero E.
Proof.
  intros Hids Hed Hfd Hcount Hmd Himg.
  eexists. eexists. split; [ now apply fusion_by_category | ].
  split; [ now apply (fusion_by_category h (Some 0%Z)) | ].
  intros b s Hb Hs Hid. cbn [data pad_or_zero].
  rewrite fusion_rows with (B := B) (S := S); try assumption.
  - rewrite Hid.
    replace (0 =? img)%Z with false
      by (symmetry; apply Z.eqb_neq; congruence).
    reflexivity.
  - rewrite length_map, Hcount, Hfd. lia.
Qed.

End FusionTheorems.

(** *** The fusion on concrete batches *)

(** One sequence [5, 7, 0, 7] with image token 7 and pad token 0, two
    feature rows [(10, 20)] and [(30, 40)], hidden size 4. *)
Lemma fusion_exactness_witness :
  exists fused mask4d,
    Gemma3.prepare_inputs_for_multimodal 0%float Samples.div_sqrt 4 (Some 0%Z) 7%Z
      (mk_tensor [1; 2; 2] [10; 20; 30; 40]%float)
      (Samples.embed_tokens (mk_tensor [1; 4] [5; 7; 0; 7]%Z))
      (mk_tensor [1; 4] [5; 7; 0; 7]%Z)
      (Some (mk_tensor [1; 4] [1; 1; 0; 1]%Z))
    = Ok (fused, mask4d) /\
    shape fused = [1; 4; 2] /\
    forall b s, b < 1 -> s < 4 ->
      let p := b * 4 + s in
      let id := nth p [5; 7; 0; 7]%Z 0%Z in
      (id <> 7%Z -> id <> 0%Z ->
       Spec.row 2 p (data fused)
       = Spec.row 2 p [5; 5.5; 7; 7.5; 0; 0.5; 7; 7.5]%float) /\
      (id = 0%Z -> id <> 7%Z ->
       Spec.row 2 p (data fused) = repeat 0%float 2) /\
      (id = 7%Z ->
       Spec.row 2 p (data fused)
       = map (Samples.div_sqrt 4)
           (Spec.row 2 (Spec.rank_of 7 [5; 7; 0; 7]%Z p)
              [10; 20; 30; 40]%float)).
Proof.
  exact (@fusion_exactness float 0%float Samples.div_sqrt 4 (Some 0%Z) 7%Z
           1 2 2 1 4 1 4 [10; 20; 30; 40]%float
           [5; 5.5; 7; 7.5; 0; 0.5; 7; 7.5]%float [5; 7; 0; 7]%Z [1; 1; 0; 1]%Z
           eq_refl eq_refl eq_refl eq_refl eq_refl).
Defined.

(** Two image tokens, one feature row of width 2. *)
Lemma fusion_mismatch_raises_witness :
  exists e,
    Gemma3.prepare_inputs_for_multimodal 0%float Samples.div_sqrt 4 (Some 0%Z) 7%Z
      (mk_tensor [1; 1; 2] [10; 20]%float)
      (mk_tensor [1; 2; 2] [7; 7.5; 7; 7.5]%float)
      (mk_tensor [1; 2] [7; 7]%Z)
      (Some (mk_tensor [1; 2] [1; 1]%Z))
    = Raise e.
Proof.
  apply (@fusion_mismatch_raises float 0%float Samples.div_sqrt 4 (Some 0%Z) 7%Z
           1 1 2 1 2 [10; 20]%float [7; 7.5; 7; 7.5]%float [7; 7]%Z).
  - reflexivity.
  - reflexivity.
  - vm_compute. discriminate.
  - vm_compute. discriminate.
Defined.

(** C3 as stated fails at embedding width 1: with two image tokens and a
    single feature vector the assignment broadcasts the one feature to both
    positions and the fusion returns. *)
Lemma fusion_broadcasts_single_feature :
  Spec.count_image 7 [7; 7]%Z = 2 /\
  Gemma3.prepare_inputs_for_multimodal 0%float Samples.div_sqrt 4 (Some 0%Z) 7%Z
    (mk_tensor [1; 1; 1] [8]%float)
    (mk_tensor [1; 2; 1] [1; 2]%float)
    (mk_tensor [1; 2] [7; 7]%Z)
    (Some (mk_tensor [1; 2] [1; 1]%Z))
  = Ok (mk_tensor [1; 2; 1] [4; 4]%float, mk_tensor [1; 1; 2; 2] [1; 1; 1; 1]%Z).
Proof.
  split; vm_compute; reflexivity.
Qed.

(** No pad token configured: the token 0 in [5, 7, 0, 7] gets the zero row. *)
Lemma absent_pad_token_is_zero_witness :
  exists fused mask4d,
    Gemma3.prepare_inputs_for_multimodal 0%float Samples.div_sqrt 4 None 7%Z
      (mk_tensor [1; 2; 2] [10; 20; 30; 40]%float)
      (Samples.embed_tokens (mk_tensor [1; 4] [5; 7; 0; 7]%Z))
      (mk_tensor [1; 4] [5; 7; 0; 7]%Z)
      (Some (mk_tensor [1; 4] [1; 1; 0; 1]%Z))
    = Ok (fused, mask4d) /\
    Gemma3.prepare_inputs_for_multimodal 0%float Samples.div_sqrt 4 (Some 0%Z) 7%Z
      (mk_tensor [1; 2; 2] [10; 20; 30; 40]%float)
      (Samples.embed_tokens (mk_tensor [1; 4] [5; 7; 0; 7]%Z))
      (mk_tensor [1; 4] [5; 7; 0; 7]%Z)
      (Some (mk_tensor [1; 4] [1; 1; 0; 1]%Z))
    = Ok (fused, mask4d) /\
    forall b s, b < 1 -> s < 4 ->
      nth (b * 4 + s) [5; 7; 0; 7]%Z 0%Z = 0%Z ->
      Spec.row 2 (b * 4 + s) (data fused) = repeat 0%float 2.
Proof.
  apply (@absent_pad_token_is_zero float 0%float Samples.div_sqrt 4 7%Z
           1 2 2 1 4 1 4 [10; 20; 30; 40]%float
           [5; 5.5; 7; 7.5; 0; 0.5; 7; 7.5]%float [5; 7; 0; 7]%Z [1; 1; 0; 1]%Z
           eq_refl eq_refl eq_refl eq_refl eq_refl).
  discriminate.
Defined.

(** ** The attention mask and the call of the language model *)

Section MaskForwarding.

Variable A : Type.
Variable zero : A.
Variable div_sqrt : nat -> A -> A.
Variable Pixels Cache : Type.
Variable embed_tokens : tensor Z -> tensor A.
Variable vision_tower : Pixels -> tensor A.
Variable multi_modal_projector : tensor A -> tensor A.

(** Whatever the inputs, the language model is called without a mask. *)
Lemma Model_call_passes_no_mask (config : Gemma3.ModelConfig)
    (input_ids : tensor Z) (pixel_values : option Pixels)
    (mask : option (tensor Z)) (cache : option Cache)
    (kw : Gemma3.lm_kwargs A Cache) :
  Gemma3.Model_call_kwargs zero div_sqrt embed_tokens vision_tower
    multi_modal_projector config input_ids pixel_values mask cache = Ok kw ->
  Gemma3.kw_mask kw = None.
Proof.
  unfold Gemma3.Model_call_kwargs.
  destruct (Gemma3.get_input_embeddings zero div_sqrt embed_tokens vision_tower
              multi_modal_projector config input_ids pixel_values mask)
    as [[emb m4] | e]; simpl; [ | discriminate ].
  intros H. inversion H. reflexivity.
Qed.

(** Whenever the fusion returns on a well-formed two-dimensional validity
    mask, the mask it returns is the outer product of each mask row with
    itself under an added head axis. *)
Lemma prepare_mask_outer_product (h : nat) (pad_token_id : option Z) (img : Z)
    (image_features inputs_embeds : tensor A) (input_ids : tensor Z)
    (b s : nat) (md : list Z) (fused : tensor A) (m4 : tensor Z) :
  length md = b * s ->
  Gemma3.prepare_inputs_for_multimodal zero div_sqrt h pad_token_id img
    image_features inputs_embeds input_ids (Some (mk_tensor [b; s] md))
  = Ok (fused, m4) ->
  m4 = mk_tensor [b; 1; s; s] (Spec.outer_mask b s md).
Proof.
  intros Hl. unfold Gemma3.prepare_inputs_for_multimodal.
  destruct (shape image_features) as [ | ? [ | ? [ | E [ | ] ] ] ];
    try discriminate.
  destruct (shape input_ids) as [ | B [ | S [ | ] ] ]; try discriminate.
  intros H.
  do 9 (apply bind_ok_inv in H; destruct H as (? & _ & H)).
  rewrite attention_mask_4d in H by assumption.
  now inversion H.
Qed.

Lemma get_input_embeddings_mask (config : Gemma3.ModelConfig)
    (input_ids : tensor Z) (pixel_values : Pixels) (b s : nat) (md : list Z)
    (emb : tensor A) (m4 : option (tensor Z)) :
  length md = b * s ->
  Gemma3.get_input_embeddings zero div_sqrt embed_tokens vision_tower
    multi_modal_projector config input_ids (Some pixel_values)
    (Some (mk_tensor [b; s] md)) = Ok (emb, m4) ->
  m4 = Some (mk_tensor [b; 1; s; s] (Spec.outer_mask b s md)).
Proof.
  intros Hl. unfold Gemma3.get_input_embeddings. intros H.
  apply bind_ok_inv in H. destruct H as ([fe m] & Hp & H).
  apply prepare_mask_outer_product in Hp; [ | assumption ].
  inversion H. now subst.
Qed.

End MaskForwarding.

(** C2 on one sequence [5, 7, 0, 7] with validity mask [1, 1, 0, 1]: the
    four-dimensional mask is built as the outer product of the validity
    mask with itself, and the language model is then called without any
    mask: the keyword [mask] is left to its default, so the mask that was
    built never reaches the decoder stack. *)
Theorem attention_mask_built_but_not_forwarded :
  let input_ids := mk_tensor [1; 4] [5; 7; 0; 7]%Z in
  let pixel_values := mk_tensor [1; 2; 2] [10; 20; 30; 40]%float in
  let mask := mk_tensor [1; 4] [1; 1; 0; 1]%Z in
  let fused := mk_tensor [1; 4; 2] [5; 5.5; 5; 10; 0; 0; 15; 20]%float in
  Gemma3.get_input_embeddings 0%float Samples.div_sqrt Samples.embed_tokens
    Samples.vision_tower Samples.multi_modal_projector Samples.gemma_config
    input_ids (Some pixel_values) (Some mask)
  = Ok (fused,
        Some (mk_tensor [1; 1; 4; 4]
                [1; 1; 0; 1;  1; 1; 0; 1;  0; 0; 0; 0;  1; 1; 0; 1]%Z))
  /\
  Gemma3.Model_call_kwargs 0%float Samples.div_sqrt Samples.embed_tokens
    Samples.vision_tower Samples.multi_modal_projector Samples.gemma_config
    input_ids (Some pixel_values) (Some mask) (@None unit)
  = Ok {| Gemma3.kw_inputs := input_ids;
          Gemma3.kw_cache := None;
          Gemma3.kw_inputs_embeds := Some fused;
          Gemma3.kw_mask := None |}.
Proof.
  split; vm_compute; reflexivity.
Qed.

(** ** The expert gate on concrete scores *)

(** A batch of two sequences of two tokens: under [noaux_tc] the index
    arrays of shapes (2,1,1), (1,2,1) and (4,1) cannot be broadcast
    together and the assignment that masks the dropped groups raises; under
    [greedy] the gate returns. *)
Lemma gate_noaux_tc_batch_of_two :
  let scores :=
    mk_tensor [2; 2; 4]
      [0.1; 0.9; 0.5; 0.6;  0.8; 0.7; 0.2; 0.3;
       0.4; 0.3; 0.2; 0.1;  0.2; 0.4; 0.6; 0.8]%Q in
  Samples.gate_select (Samples.gate "noaux_tc" 1 [0; 0; 0; 0]%Q) [2; 2; 3] scores
  = Raise (ValueError "Shapes cannot be broadcast.")
  /\
  is_ok (Samples.gate_select (Samples.gate "greedy" 1 [0; 0; 0; 0]%Q) [2; 2; 3]
           scores) = true.
Proof.
  split; vm_compute; reflexivity.
Qed.


(** ** The reference partial selection *)

Section SortPartition.

Variable E : Type.
Variable zero : E.
Variable leb : E -> E -> bool.
Hypothesis leb_total : forall a b, leb a b = false -> leb b a = true.
Hypothesis leb_trans :
  forall a b c, leb a b = true -> leb b c = true -> leb a c = true.

Section Insert.

Variable key : nat -> E.

Let R (i j : nat) : Prop := leb (key i) (key j) = true.

Lemma insert_by_perm (i : nat) (l : list nat) :
  Permutation (DeepseekV2.insert_by leb key i l) (i :: l).
Proof.
  induction l as [ | j l IH ]; simpl; [ apply Permutation_refl | ].
  destruct (leb (key i) (key j)); [ apply Permutation_refl | ].
  apply perm_trans with (j :: i :: l); [ now apply perm_skip | apply perm_swap ].
Qed.

Lemma insert_by_sorted (i : nat) (l : list nat) :
  StronglySorted R l -> StronglySorted R (DeepseekV2.insert_by leb key i l).
Proof.
  induction 1 as [ | j l Hs IH Hj ]; simpl.
  - constructor; constructor.
  - destruct (leb (key i) (key j)) eqn:Hij.
    + constructor; [ now constructor | ].
      constructor; [ exact Hij | ].
      eapply Forall_impl; [ | exact Hj ].
      intros x Hx. unfold R in *. eapply leb_trans; eassumption.
    + constructor; [ exact IH | ].
      apply (Permutation_Forall (Permutation_sym (insert_by_perm i l))).
      constructor; [ now apply leb_total | exact Hj ].
Qed.

Lemma fold_insert_by (l : list nat) :
  Permutation (fold_right (DeepseekV2.insert_by leb key) [] l) l /\
  StronglySorted R (fold_right (DeepseekV2.insert_by leb key) [] l).
Proof.
  induction l as [ | i l [IHp IHs] ]; simpl.
  - split; constructor.
  - split.
    + apply perm_trans with (i :: fold_right (DeepseekV2.insert_by leb key) [] l);
        [ apply insert_by_perm | now apply perm_skip ].
    + now apply insert_by_sorted.
Qed.

Lemma sorted_nth (l : list nat) (i j : nat) :
  StronglySorted R l -> i < j -> j < length l -> R (nth i l 0) (nth j l 0).
Proof.
  intros Hs. revert i j. induction Hs as [ | x l Hs IH Hx ]; intros i j Hij Hj.
  - simpl in Hj. lia.
  - destruct j as [ | j ]; [ lia | ]. simpl in Hj.
    destruct i as [ | i ]; simpl.
    + rewrite Forall_forall in Hx. apply Hx. apply nth_In. lia.
    + apply IH; lia.
Qed.

End Insert.

(** The stable sort of the positions is a partial selection for every rank. *)
Lemma partition_by_sort_ok :
  Spec.partition_ok zero leb (DeepseekV2.partition_by_sort zero leb).
Proof.
  intros row kth Hk res entry.
  unfold DeepseekV2.partition_by_sort, DeepseekV2.argsort in res.
  destruct (fold_insert_by (fun i => nth i row zero) (seq 0 (length row)))
    as [Hp Hs].
  fold res in Hp, Hs.
  assert (Hlen : length res = length row).
  { rewrite (Permutation_length Hp). apply length_seq. }
  split; [ exact Hp | ]. split.
  - intros i Hi. apply (sorted_nth _ Hs); lia.
  - intros j Hj. apply (sorted_nth _ Hs); lia.
Qed.

End SortPartition.

Lemma Qle_bool_total (a b : Q) : Qle_bool a b = false -> Qle_bool b a = true.
Proof.
  intros H. apply Qle_bool_iff.
  destruct (Qlt_le_dec b a) as [Hlt | Hle].
  - now apply Qlt_le_weak.
  - apply Qle_bool_iff in Hle. congruence.
Qed.

Lemma Qle_bool_trans (a b c : Q) :
  Qle_bool a b = true -> Qle_bool b c = true -> Qle_bool a c = true.
Proof.
  rewrite !Qle_bool_iff. apply Qle_trans.
Qed.

Lemma sample_partition_ok :
  Spec.partition_ok 0%Q Qle_bool (DeepseekV2.partition_by_sort 0%Q Qle_bool).
Proof.
  apply partition_by_sort_ok; [ exact Qle_bool_total | exact Qle_bool_trans ].
Qed.

(** ** The expert gate: shapes *)

Section GateShapes.

Variable E : Type.
Variable zero : E.
Variable add mul : E -> E -> E.
Variable neg : E -> E.
Variable leb : E -> E -> bool.
Variable partition_fn : list E -> nat -> list nat.

Lemma filter_length_eq {X : Type} (f : X -> bool) (l : list X) :
  length (filter f l) = length l -> filter f l = l /\ forallb f l = true.
Proof.
  induction l as [ | x l IH ]; [ now split | ].
  simpl. pose proof (filter_length_le f l) as Hle.
  destruct (f x); simpl; intros H.
  - injection H as H. destruct (IH H) as [H1 H2]. now rewrite H1, H2.
  - lia.
Qed.

(** A successful [reshape] with the last dimension inferred. *)
Lemma reshape_infer_last_inv {X : Type} (t t' : tensor X) (dims : list Z) :
  reshape t (dims ++ [(-1)%Z]) = Ok t' ->
  data t' = data t /\
  exists w, shape t' = map Z.to_nat dims ++ [w].
Proof.
  unfold reshape. rewrite filter_app. cbn [filter Z.eqb negb].
  rewrite app_nil_r, length_app. cbn [length].
  set (f := fun d : Z => negb (d =? -1)%Z).
  pose proof (filter_length_le f dims) as Hle.
  destruct (negb (forallb (fun d : Z => (0 <=? d)%Z) (filter f dims)));
    [ discriminate | ].
  destruct (length dims + 1 - length (filter f dims)) as [ | [ | k ] ] eqn:Hk;
    [ lia | | discriminate ].
  destruct (filter_length_eq f dims) as [Hf Hall]; [ lia | ].
  destruct (fold_right Z.mul 1%Z (filter f dims) =? 0)%Z; [ discriminate | ].
  destruct (_ mod _ =? 0)%Z; [ | discriminate ].
  intros H. inversion H; subst t'; clear H. cbn [data shape].
  split; [ reflexivity | ].
  rewrite map_app. cbn [map Z.eqb]. eexists. f_equal.
  apply map_ext_in. intros d Hd.
  rewrite forallb_forall in Hall. specialize (Hall d Hd). unfold f in Hall.
  now destruct (d =? -1)%Z.
Qed.

Lemma reshape_2_inv {X : Type} (t t' : tensor X) (a : Z) :
  reshape t [a; (-1)%Z] = Ok t' ->
  data t' = data t /\ exists w, shape t' = [Z.to_nat a; w].
Proof. exact (@reshape_infer_last_inv X t t' [a]). Qed.

Lemma reshape_3_inv {X : Type} (t t' : tensor X) (a b : Z) :
  reshape t [a; b; (-1)%Z] = Ok t' ->
  data t' = data t /\ exists w, shape t' = [Z.to_nat a; Z.to_nat b; w].
Proof. exact (@reshape_infer_last_inv X t t' [a; b]). Qed.

Lemma reshape_4_inv {X : Type} (t t' : tensor X) (a b c : Z) :
  reshape t [a; b; c; (-1)%Z] = Ok t' ->
  data t' = data t /\
  exists w, shape t' = [Z.to_nat a; Z.to_nat b; Z.to_nat c; w].
Proof. exact (@reshape_infer_last_inv X t t' [a; b; c]). Qed.

Lemma topk_last_shape (t t' : tensor E) (k : nat) :
  topk_last zero partition_fn t k = Ok t' -> k <> 0 ->
  shape t' = lead_shape t ++ [k].
Proof.
  unfold topk_last, lead_shape, last_dim.
  destruct (shape t) as [ | a s ] eqn:Hs; [ discriminate | ].
  destruct (_ <? k); [ discriminate | ].
  destruct (k =? last (a :: s) 0) eqn:Hn.
  - apply Nat.eqb_eq in Hn. intros H _. inversion H; subst t'.
    rewrite Hs, Hn. apply app_removelast_last. discriminate.
  - destruct (k =? 0) eqn:Hk; [ apply Nat.eqb_eq in Hk; contradiction | ].
    intros H _. now inversion H.
Qed.

Lemma sum_last_shape (t t' : tensor E) :
  sum_last add zero t = Ok t' -> shape t' = lead_shape t.
Proof.
  unfold sum_last. destruct (shape t); [ discriminate | ].
  intros H. now inversion H.
Qed.

Lemma max_last_shape (t t' : tensor E) :
  max_last leb zero t = Ok t' -> shape t' = lead_shape t.
Proof.
  unfold max_last. destruct (shape t); [ discriminate | ].
  destruct (last_dim t =? 0); [ discriminate | ].
  intros H. now inversion H.
Qed.

Lemma argpartition_shape (t : tensor E) (t' : tensor nat) (kth : Z) :
  argpartition partition_fn t kth = Ok t' -> shape t' = shape t.
Proof.
  unfold argpartition. destruct (shape t); [ discriminate | ].
  destruct (_ && _); [ | discriminate ].
  intros H. now inversion H.
Qed.

Lemma slice_last_shape {X : Type} (t t' : tensor X) (start stop : option Z) :
  slice_last t start stop = Ok t' ->
  exists w, shape t' = lead_shape t ++ [w].
Proof.
  unfold slice_last. destruct (shape t); [ discriminate | ].
  destruct (Py.slice_bounds _ _ _) as [lo hi].
  intros H. inversion H. eexists. reflexivity.
Qed.

Lemma lead_shape_app {X : Type} (t : tensor X) (pre : list nat) (w : nat) :
  shape t = pre ++ [w] -> lead_shape t = pre.
Proof.
  unfold lead_shape. intros ->. apply removelast_last.
Qed.

(** The index arrays of the [noaux_tc] branch cannot be broadcast when
    both the batch and the sequence have more than one entry. *)
Lemma setitem_idx3_flat_groups_raises (t : tensor E) (i0 i1 i2 : tensor nat)
    (bsz seq_len w : nat) (v : E) :
  shape i0 = [bsz; 1; 1] ->
  shape i1 = [1; seq_len; 1] ->
  shape i2 = [bsz * seq_len; w] ->
  2 <= bsz -> 2 <= seq_len ->
  exists e, setitem_idx3 t i0 i1 i2 v = Raise e.
Proof.
  intros H0 H1 H2 Hb Hs. unfold setitem_idx3.
  destruct (shape t) as [ | ? [ | ? [ | ? ? ] ] ]; try (eexists; reflexivity).
  rewrite H0, H1, H2. unfold broadcast_shapes.
  assert (Hf1 : (1 =? seq_len) = false) by (apply Nat.eqb_neq; lia).
  assert (Hf2 : (bsz =? 1) = false) by (apply Nat.eqb_neq; lia).
  assert (Hf3 : (seq_len =? bsz * seq_len) = false) by (apply Nat.eqb_neq; nia).
  assert (Hf4 : (seq_len =? 1) = false) by (apply Nat.eqb_neq; lia).
  assert (Hf5 : (bsz * seq_len =? 1) = false) by (apply Nat.eqb_neq; nia).
  repeat (cbn -[Nat.eqb Nat.mul];
          rewrite ?Nat.eqb_refl, ?Hf1, ?Hf2, ?Hf3, ?Hf4, ?Hf5,
            ?Nat.mul_1_l, ?Nat.mul_1_r).
  destruct (1 =? w); cbn -[Nat.eqb Nat.mul]; rewrite ?Hf3, ?Hf4, ?Hf5;
    cbn -[Nat.eqb Nat.mul]; eexists; reflexivity.
Qed.

Lemma expand_arange_batch (n : nat) :
  expand_dims2 (arange n) 1 2 = Ok (mk_tensor [n; 1; 1] (seq 0 n)).
Proof. reflexivity. Qed.

Lemma expand_arange_seq (n : nat) :
  expand_dims2 (arange n) 0 2 = Ok (mk_tensor [1; n; 1] (seq 0 n)).
Proof. reflexivity. Qed.

Ltac step :=
  match goal with
  | |- exists e, bind ?c _ = Raise e =>
      let H := fresh "Hstep" in
      destruct c as [? | ?] eqn:H; [ cbn [bind] | eexists; reflexivity ]
  end.

(** Under [noaux_tc] the gate raises on every batch of at least two
    sequences of at least two tokens, whatever the scores. *)
Lemma select_noaux_tc_raises (self : DeepseekV2.MoEGate E)
    (bsz seq_len : nat) (rest : list nat) (scores : tensor E) :
  DeepseekV2.topk_method self = "noaux_tc" ->
  2 <= bsz -> 2 <= seq_len ->
  exists e,
    DeepseekV2.MoEGate_select zero add mul neg leb partition_fn self
      (bsz :: seq_len :: rest) scores = Raise e.
Proof.
  intros Hm Hb Hs. unfold DeepseekV2.MoEGate_select. rewrite Hm.
  change (String.eqb "noaux_tc" "greedy") with false.
  change (String.eqb "noaux_tc" "noaux_tc") with true.
  cbn [DeepseekV2.unpack2 bind].
  match goal with
  | |- exists e, bind ?c _ = Raise e =>
      cut (exists e, c = Raise e);
      [ intros [e0 He0]; rewrite He0; eexists; reflexivity | ]
  end.
  cbn [bind].
  rewrite expand_arange_batch, expand_arange_seq.
  do 4 step.
  apply reshape_3_inv in Hstep2. destruct Hstep2 as (_ & w1 & Hsh1).
  step.
  match goal with
  | H : topk_last _ _ _ _ = Ok ?t |- _ =>
      apply topk_last_shape in H; [ | discriminate ];
      rewrite (@lead_shape_app _ _ [_; _] _ Hsh1) in H; rename H into Hsh2
  end.
  step.
  match goal with
  | H : sum_last _ _ _ = Ok ?t |- _ =>
      apply sum_last_shape in H;
      rewrite (@lead_shape_app _ _ [_; _] _ Hsh2) in H; rename H into Hsh3
  end.
  step.
  match goal with
  | H : argpartition _ _ _ = Ok ?t |- _ =>
      apply argpartition_shape in H; rewrite Hsh3 in H; rename H into Hsh4
  end.
  step.
  match goal with
  | H : slice_last _ _ _ = Ok ?t |- _ =>
      apply slice_last_shape in H; destruct H as (w & Hsh5);
      rewrite (@lead_shape_app _ _ [_] _ Hsh4) in Hsh5
  end.
  cbn [app] in Hsh5. rewrite Nat2Z.id in Hsh5.
  match goal with
  | |- exists e, bind (setitem_idx3 ?t ?i0 ?i1 ?i2 ?v) _ = Raise e =>
      destruct (@setitem_idx3_flat_groups_raises t i0 i1 i2 bsz seq_len w v)
        as [e He]; try assumption; try reflexivity
  end.
  rewrite He. exists e. reflexivity.
Qed.

Variable softmax : list E -> list E.
Variable sigmoid : E -> E.

(** C4 under [noaux_tc]: on every batch of at least two sequences of at
    least two tokens the gate raises and returns neither indices nor
    weights: the index arrays [batch_idx] of shape (bsz, 1, 1), [seq_idx] of
    shape (1, seq_len, 1) and [group_idx] of shape (bsz * seq_len, k) cannot
    be broadcast together. *)
Theorem gate_noaux_tc_raises_on_batches (self : DeepseekV2.MoEGate E)
    (x : tensor E) (bsz seq_len : nat) (rest : list nat) :
  DeepseekV2.topk_method self = "noaux_tc" ->
  shape x = bsz :: seq_len :: rest ->
  2 <= bsz -> 2 <= seq_len ->
  exists e,
    DeepseekV2.MoEGate_call zero add mul neg leb softmax sigmoid partition_fn
      self x = Raise e.
Proof.
  intros Hm Hx Hb Hs. unfold DeepseekV2.MoEGate_call.
  step. step. rewrite Hx. now apply select_noaux_tc_raises.
Qed.

End GateShapes.

(** Two sequences of two tokens with three features each. *)
Lemma gate_noaux_tc_raises_on_batches_witness :
  exists e,
    Samples.gate_call (Samples.gate "noaux_tc" 1 [0; 0; 0; 0]%Q)
      (mk_tensor [2; 2; 3]
         [1; 0; 2;  0; 1; 1;  3; 1; 0;  2; 2; 1]%Q)
    = Raise e.
Proof.
  apply (@gate_noaux_tc_raises_on_batches Q 0%Q Qplus Qmult Qopp Qle_bool
           (DeepseekV2.partition_by_sort 0%Q Qle_bool) Samples.softmax
           Samples.sigmoid (Samples.gate "noaux_tc" 1 [0; 0; 0; 0]%Q)
           (mk_tensor [2; 2; 3] [1; 0; 2;  0; 1; 1;  3; 1; 0;  2; 2; 1]%Q)
           2 2 [3]).
  - reflexivity.
  - reflexivity.
  - lia.
  - lia.
Defined.


(** ** The expert gate: evaluation of the array operations *)

Section GateEval.

Variable E : Type.
Variable zero : E.
Variable leb : E -> E -> bool.
Variable partition_fn : list E -> nat -> list nat.

Lemma shape_app_last {X : Type} (pre : list nat) (w : nat) (d : list X) :
  lead_shape (mk_tensor (pre ++ [w]) d) = pre /\
  last_dim (mk_tensor (pre ++ [w]) d) = w /\
  pre ++ [w] <> [].
Proof.
  unfold lead_shape, last_dim. cbn [shape].
  rewrite removelast_last, last_last. repeat split.
  now destruct pre.
Qed.

Lemma length_chunks {X : Type} (k n : nat) (l : list X) :
  length (chunks k n l) = k.
Proof.
  revert l. induction k as [ | k IH ]; intros l; [ reflexivity | ].
  simpl. now rewrite IH.
Qed.

Lemma chunks_concat {X : Type} (n : nat) (ls : list (list X)) :
  Forall (fun r => length r = n) ls ->
  chunks (length ls) n (concat ls) = ls.
Proof.
  induction 1 as [ | r ls Hr _ IH ]; [ reflexivity | ].
  simpl. rewrite firstn_app, skipn_app, Hr, Nat.sub_diag. simpl.
  rewrite firstn_all2, skipn_all2 by lia.
  rewrite app_nil_r. simpl. now rewrite IH.
Qed.

Lemma length_concat_const {X : Type} (n : nat) (ls : list (list X)) :
  Forall (fun r => length r = n) ls -> length (concat ls) = length ls * n.
Proof.
  induction 1 as [ | r ls Hr _ IH ]; [ reflexivity | ].
  simpl. rewrite length_app, IH, Hr. reflexivity.
Qed.

Lemma numel_app (s1 s2 : list nat) : numel (s1 ++ s2) = numel s1 * numel s2.
Proof.
  unfold numel. induction s1 as [ | a s1 IH ]; simpl; [ lia | ].
  rewrite IH. lia.
Qed.

Lemma reshape_infer_ok {X : Type} (t : tensor X) (pre : list nat) (w : nat) :
  numel (shape t) = numel pre * w ->
  numel pre <> 0 ->
  reshape t (map Z.of_nat pre ++ [(-1)%Z]) = Ok (mk_tensor (pre ++ [w]) (data t)).
Proof.
  intros Hn Hp.
  destruct (reshape_known_dims pre) as (H1 & H2 & H3 & H4).
  unfold reshape. rewrite filter_app. cbn [filter Z.eqb negb].
  rewrite app_nil_r, H1, H2, H3, length_app. cbn [length negb].
  replace (length (map Z.of_nat pre) + 1 - length (map Z.of_nat pre)) with 1
    by lia.
  replace (Z.of_nat (numel pre) =? 0)%Z with false
    by (symmetry; apply Z.eqb_neq; lia).
  rewrite Hn, Nat2Z.inj_mul.
  rewrite Z.mul_comm, Z.mod_mul by lia. cbn [Z.eqb].
  rewrite Z.div_mul by lia.
  rewrite map_app. cbn [map Z.eqb]. rewrite Nat2Z.id.
  do 3 f_equal.
  rewrite map_map. rewrite <- (map_id pre) at 2. apply map_ext. intros x.
  replace (Z.of_nat x =? -1)%Z with false by (symmetry; apply Z.eqb_neq; lia).
  apply Nat2Z.id.
Qed.

Lemma max_last_eval (pre : list nat) (p : nat) (d : list E) :
  p <> 0 ->
  max_last leb zero (mk_tensor (pre ++ [p]) d)
  = Ok (mk_tensor pre
          (map (fun row => match row with
                           | [] => zero
                           | x :: l => max_list leb x l
                           end) (chunks (numel pre) p d))).
Proof.
  intros Hp. unfold max_last, last_rows.
  destruct (shape_app_last pre p d) as (Hl & Hd & Hne).
  rewrite Hl, Hd. cbn [shape].
  destruct (pre ++ [p]) eqn:Hs; [ contradiction | ].
  replace (p =? 0) with false by (symmetry; now apply Nat.eqb_neq).
  reflexivity.
Qed.

Lemma argpartition_eval (pre : list nat) (n : nat) (d : list E) (kth : Z)
    (kth' : nat) :
  (if (kth <? 0)%Z then (kth + Z.of_nat n)%Z else kth) = Z.of_nat kth' ->
  kth' < n ->
  argpartition partition_fn (mk_tensor (pre ++ [n]) d) kth
  = Ok (mk_tensor (pre ++ [n])
          (concat (map (fun row => partition_fn row kth')
                     (chunks (numel pre) n d)))).
Proof.
  intros Hk Hlt. unfold argpartition, last_rows.
  destruct (shape_app_last pre n d) as (Hl & Hd & Hne).
  rewrite Hl, Hd. cbn [shape].
  destruct (pre ++ [n]) eqn:Hs; [ contradiction | ].
  rewrite Hk, Nat2Z.id.
  replace (0 <=? Z.of_nat kth')%Z with true by (symmetry; apply Z.leb_le; lia).
  replace (Z.of_nat kth' <? Z.of_nat n)%Z with true
    by (symmetry; apply Z.ltb_lt; lia).
  reflexivity.
Qed.

Lemma slice_last_eval {X : Type} (pre : list nat) (n : nat) (d : list X)
    (start stop : option Z) :
  slice_last (mk_tensor (pre ++ [n]) d) start stop
  = Ok (mk_tensor
          (pre ++ [snd (Py.slice_bounds n start stop)
                   - fst (Py.slice_bounds n start stop)])
          (concat (map (fun row => Py.slice row start stop)
                     (chunks (numel pre) n d)))).
Proof.
  unfold slice_last, last_rows.
  destruct (shape_app_last pre n d) as (Hl & Hd & Hne).
  rewrite Hl, Hd. cbn [shape].
  destruct (pre ++ [n]) eqn:Hs; [ contradiction | ].
  now destruct (Py.slice_bounds n start stop).
Qed.

Lemma take_along_last_eval (pre : list nat) (n k : nat) (d : list E)
    (di : list nat) :
  take_along_last zero (mk_tensor (pre ++ [n]) d) (mk_tensor (pre ++ [k]) di)
  = Ok (mk_tensor (pre ++ [k])
          (concat (map2 (fun row irow => map (fun i => nth i row zero) irow)
                     (chunks (numel pre) n d) (chunks (numel pre) k di)))).
Proof.
  unfold take_along_last, last_rows.
  destruct (shape_app_last pre n d) as (Hl & Hd & Hne).
  destruct (shape_app_last pre k di) as (Hl' & Hd' & Hne').
  rewrite Hl, Hd, Hl', Hd'. cbn [shape].
  destruct (pre ++ [n]) eqn:Hs; [ contradiction | ].
  destruct (pre ++ [k]) eqn:Hs'; [ contradiction | ].
  now rewrite shape_eqb_refl.
Qed.

(** Slices of a row. *)
Lemma slice_prefix {X : Type} (row : list X) (k : nat) :
  k <= length row ->
  Py.slice row None (Some (Z.of_nat k)) = firstn k row.
Proof.
  intros Hk. unfold Py.slice, Py.slice_bounds, Py.clamp_index.
  replace (Z.of_nat k <? 0)%Z with false by (symmetry; apply Z.ltb_ge; lia).
  rewrite Nat2Z.id, Nat.min_l by assumption.
  now rewrite Nat.sub_0_r.
Qed.

Lemma slice_bounds_prefix (n k : nat) :
  k <= n -> Py.slice_bounds n None (Some (Z.of_nat k)) = (0, k).
Proof.
  intros Hk. unfold Py.slice_bounds, Py.clamp_index.
  replace (Z.of_nat k <? 0)%Z with false by (symmetry; apply Z.ltb_ge; lia).
  now rewrite Nat2Z.id, Nat.min_l by assumption.
Qed.

(** What a prefix of a permutation of the positions looks like. *)
Lemma prefix_of_permutation (res : list nat) (n k : nat) :
  Permutation res (seq 0 n) -> k <= n ->
  length (firstn k res) = k /\
  NoDup (firstn k res) /\
  Forall (fun i => i < n) (firstn k res).
Proof.
  intros Hp Hk.
  assert (Hlen : length res = n)
    by (rewrite (Permutation_length Hp); apply length_seq).
  assert (Hnd : NoDup res)
    by (apply (Permutation_NoDup (Permutation_sym Hp)); apply seq_NoDup).
  split; [ rewrite length_firstn; lia | ]. split.
  - rewrite <- (firstn_skipn k res) in Hnd. now apply NoDup_app_remove_r in Hnd.
  - apply Forall_forall. intros i Hi.
    assert (Hin : In i res)
      by (rewrite <- (firstn_skipn k res); apply in_or_app; now left).
    apply (Permutation_in _ Hp) in Hin. apply in_seq in Hin. lia.
Qed.

End GateEval.

(** ** The expert gate: the greedy policy returns [top_k] experts *)

Section GreedyCardinality.

Variable E : Type.
Variable zero : E.
Variable add mul : E -> E -> E.
Variable neg : E -> E.
Variable leb : E -> E -> bool.
Variable partition_fn : list E -> nat -> list nat.

Import Spec.

Lemma bdim_same (a : nat) : bdim a a = a.
Proof. unfold bdim. now rewrite Nat.eqb_refl. Qed.

Lemma bdim_1_l (b : nat) : bdim 1 b = b.
Proof.
  unfold bdim. destruct (1 =? b) eqn:H1.
  - now apply Nat.eqb_eq in H1.
  - apply Nat.mul_1_l.
Qed.

Lemma bdim_1_r (a : nat) : bdim a 1 = a.
Proof.
  unfold bdim. destruct (a =? 1) eqn:H1; [ reflexivity | apply Nat.mul_1_r ].
Qed.

Lemma broadcast_shapes_3 (a1 a2 a3 b1 b2 b3 : nat) :
  (a1 = b1 \/ a1 = 1 \/ b1 = 1) ->
  (a2 = b2 \/ a2 = 1 \/ b2 = 1) ->
  (a3 = b3 \/ a3 = 1 \/ b3 = 1) ->
  broadcast_shapes [a1; a2; a3] [b1; b2; b3]
  = Ok [bdim a1 b1; bdim a2 b2; bdim a3 b3].
Proof.
  intros H1 H2 H3. unfold broadcast_shapes, bdim.
  cbn -[Nat.eqb Nat.mul].
  assert (Hc : forall a b, (a = b \/ a = 1 \/ b = 1) ->
               (a =? b) = false -> (a =? 1) || (b =? 1) = true).
  { intros a b [-> | [-> | ->]] Hab.
    - now rewrite Nat.eqb_refl in Hab.
    - reflexivity.
    - rewrite Nat.eqb_refl. apply orb_true_r. }
  destruct (a1 =? b1) eqn:E1; destruct (a2 =? b2) eqn:E2;
    destruct (a3 =? b3) eqn:E3;
    rewrite ?(Hc _ _ H1 E1), ?(Hc _ _ H2 E2), ?(Hc _ _ H3 E3);
    reflexivity.
Qed.

Lemma broadcast_to_total {X : Type} (t : tensor X) (tgt : list nat) :
  broadcast_shapes (shape t) tgt = Ok tgt ->
  exists d, broadcast_to t tgt = Ok (mk_tensor tgt d).
Proof.
  intros Hbs. unfold broadcast_to.
  destruct (shape_eqb (shape t) tgt) eqn:Heq.
  - apply shape_eqb_eq in Heq. destruct t as [s d]. simpl in Heq. subst s.
    now exists d.
  - rewrite Hbs. cbn [bind]. rewrite shape_eqb_refl. eexists. reflexivity.
Qed.

Lemma length_fill_range {X : Type} (start len : nat) (v : X) (l : list X) :
  length (fill_range start len v l) = length l.
Proof.
  unfold fill_range.
  rewrite !length_app, length_firstn, repeat_length, length_skipn. lia.
Qed.

Lemma length_fold_preserving {X Y : Type} (f : list X -> Y -> list X)
    (l : list Y) (d : list X) :
  (forall acc y, length (f acc y) = length acc) ->
  length (fold_left f l d) = length d.
Proof.
  intros Hf. revert d. induction l as [ | y l IH ]; intros d; [ reflexivity | ].
  simpl. now rewrite IH, Hf.
Qed.

(** The masking assignment of the greedy branch succeeds and keeps the
    shape and the size of the scores. *)
Lemma setitem_idx3_grouped (d0 d1 d2 : nat) (rest : list nat) (d : list E)
    (bsz seq_len w : nat) (a b c : list nat) (v : E) :
  exists d',
    setitem_idx3 (mk_tensor (d0 :: d1 :: d2 :: rest) d)
      (mk_tensor [bsz; 1; 1] a) (mk_tensor [1; seq_len; 1] b)
      (mk_tensor [bsz; seq_len; w] c) v
    = Ok (mk_tensor (d0 :: d1 :: d2 :: rest) d') /\
    length d' = length d.
Proof.
  unfold setitem_idx3. cbn [shape].
  rewrite broadcast_shapes_3 by auto.
  rewrite bdim_1_r, bdim_1_l, bdim_same. cbn [bind].
  rewrite broadcast_shapes_3 by auto.
  rewrite !bdim_same, bdim_1_l. cbn [bind].
  destruct (@broadcast_to_total nat (mk_tensor [bsz; 1; 1] a) [bsz; seq_len; w])
    as [xa Ha].
  { cbn [shape]. rewrite broadcast_shapes_3 by auto.
    now rewrite bdim_same, !bdim_1_l. }
  destruct (@broadcast_to_total nat (mk_tensor [1; seq_len; 1] b)
              [bsz; seq_len; w]) as [xb Hb].
  { cbn [shape]. rewrite broadcast_shapes_3 by auto.
    now rewrite bdim_same, !bdim_1_l. }
  rewrite Ha, Hb, broadcast_to_same by reflexivity. cbn [bind data].
  eexists. split; [ reflexivity | ].
  apply length_fold_preserving.
  intros acc [[x y] z]. apply length_fill_range.
Qed.

(** A token count, its experts in [g] groups of [p], the number of groups
    kept and the number of experts selected. *)
Variables bsz seq_len g p tg k : nat.

Hypothesis partition_perm :
  forall row kth, kth < length row ->
    Permutation (partition_fn row kth) (seq 0 (length row)).

Lemma numel_2d (a b : nat) : numel [a; b] = a * b.
Proof. unfold numel. simpl. lia. Qed.

Lemma greedy_kth_valid :
  1 <= tg <= g ->
  exists kth',
    (if (Z.of_nat g - Z.of_nat tg - 1 <? 0)%Z
     then (Z.of_nat g - Z.of_nat tg - 1 + Z.of_nat g)%Z
     else (Z.of_nat g - Z.of_nat tg - 1)%Z) = Z.of_nat kth'
    /\ kth' < g.
Proof.
  intros Htg.
  destruct (Z.ltb_spec (Z.of_nat g - Z.of_nat tg - 1) 0).
  - exists (g - 1). lia.
  - exists (g - tg - 1). lia.
Qed.

(** X6: under the greedy policy, for well-formed scores of
    [bsz * seq_len] tokens over [g * p] experts in [g] groups, of which
    [tg] are kept, the gate returns, for every token, exactly [k] pairwise
    distinct expert indices below [g * p], and [k] weights. *)
Lemma greedy_returns_top_k (self : DeepseekV2.MoEGate E) (rest : list nat)
    (scores : tensor E) :
  DeepseekV2.topk_method self = "greedy" ->
  DeepseekV2.n_group self = Z.of_nat g ->
  DeepseekV2.topk_group self = Z.of_nat tg ->
  DeepseekV2.top_k self = Z.of_nat k ->
  1 <= bsz -> 1 <= seq_len -> 1 <= p ->
  1 <= tg <= g ->
  1 <= k <= g * p ->
  numel (shape scores) = bsz * seq_len * (g * p) ->
  length (data scores) = bsz * seq_len * (g * p) ->
  exists inds weights,
    DeepseekV2.MoEGate_select zero add mul neg leb partition_fn self
      (bsz :: seq_len :: rest) scores = Ok (inds, weights) /\
    shape inds = [bsz; seq_len; k] /\
    shape weights = [bsz; seq_len; k] /\
    length (data weights) = bsz * seq_len * k /\
    length (last_rows inds) = bsz * seq_len /\
    Forall (fun row => length row = k /\ NoDup row /\
                       Forall (fun e => e < g * p) row)
      (last_rows inds).
Proof.
  intros Hm Hg Htg Hk Hb Hs Hp Htgr Hkr Hnum Hlen.
  unfold DeepseekV2.MoEGate_select. rewrite Hm, Hg, Htg, Hk.
  change (String.eqb "greedy" "greedy") with true.
  cbn [DeepseekV2.unpack2 bind].
  (* the scores regrouped *)
  change [Z.of_nat bsz; Z.of_nat seq_len; Z.of_nat g; (-1)%Z]
    with (map Z.of_nat [bsz; seq_len; g] ++ [(-1)%Z]).
  rewrite (@reshape_infer_ok E scores [bsz; seq_len; g] p);
    [ | rewrite Hnum, numel_3d; lia
      | rewrite numel_3d; repeat (apply Nat.neq_mul_0; split); lia ].
  cbn [bind].
  rewrite max_last_eval by lia. cbn [bind].
  (* the groups to drop *)
  destruct (greedy_kth_valid Htgr) as (kth' & Hkth & Hkthlt).
  change [bsz; seq_len; g] with ([bsz; seq_len] ++ [g]) at 2.
  rewrite (@argpartition_eval E partition_fn [bsz; seq_len] g _ _ kth' Hkth Hkthlt).
  cbn [bind].
  rewrite slice_last_eval. cbn [bind].
  rewrite expand_arange_batch, expand_arange_seq. cbn [bind app].
  match goal with
  | |- context [ setitem_idx3 (mk_tensor ?s ?d) (mk_tensor _ ?a) (mk_tensor _ ?b)
                   (mk_tensor [_; _; ?w] ?c) ?v ] =>
      destruct (@setitem_idx3_grouped bsz seq_len g [p] d bsz seq_len w a b c v)
        as (d' & Hset & Hlen')
  end.
  rewrite Hset. clear Hset. cbn [bind].
  cbn [data] in Hlen'. rewrite Hlen in Hlen'.
  (* back to one row per token *)
  change [Z.of_nat bsz; Z.of_nat seq_len; (-1)%Z]
    with (map Z.of_nat [bsz; seq_len] ++ [(-1)%Z]).
  rewrite (@reshape_infer_ok E (mk_tensor [bsz; seq_len; g; p] d')
             [bsz; seq_len] (g * p));
    [ | cbn [shape]; unfold numel; simpl; lia
      | rewrite numel_2d; apply Nat.neq_mul_0; split; lia ].
  cbn [bind data]. unfold map_t. cbn [shape data].
  rewrite (@argpartition_eval E partition_fn [bsz; seq_len] (g * p) _ _ (k - 1));
    [ | replace (Z.of_nat k - 1 <? 0)%Z with false
          by (symmetry; apply Z.ltb_ge; lia); lia
      | lia ].
  cbn [bind].
  rewrite slice_last_eval. cbn [bind].
  rewrite slice_bounds_prefix by lia. cbn [fst snd]. rewrite Nat.sub_0_r.
  rewrite take_along_last_eval. cbn [bind app].
  (* the rows of the selection *)
  set (R := numel [bsz; seq_len]) in *.
  assert (HR : R = bsz * seq_len) by apply numel_2d.
  set (rows := chunks R (g * p) (map neg d')).
  assert (Hrows : Forall (fun r => length r = g * p) rows).
  { apply chunks_lengths. rewrite length_map, Hlen', HR. reflexivity. }
  set (perms := map (fun row => partition_fn row (k - 1)) rows).
  assert (Hperms : Forall (fun r => Permutation r (seq 0 (g * p))) perms).
  { apply Forall_map. eapply Forall_impl; [ | exact Hrows ].
    intros r Hr. cbn beta in Hr |- *. rewrite <- Hr. apply partition_perm. lia. }
  assert (Hplen : Forall (fun r => length r = g * p) perms).
  { eapply Forall_impl; [ | exact Hperms ].
    intros r Hr. cbn beta in Hr |- *. rewrite (Permutation_length Hr). apply length_seq. }
  assert (HpR : length perms = R)
    by (unfold perms, rows; now rewrite length_map, length_chunks).
  assert (Hsel : concat (map (fun row => Py.slice row None (Some (Z.of_nat k)))
                           (chunks R (g * p) (concat perms)))
                 = concat (map (firstn k) perms)).
  { rewrite <- HpR, (chunks_concat Hplen). f_equal.
    apply (map_ext_Forall _ _ Hplen). intros r Hr. apply slice_prefix. lia. }
  rewrite Hsel.
  assert (Hklen : Forall (fun r => length r = k) (map (firstn k) perms)).
  { apply Forall_map. eapply Forall_impl; [ | exact Hplen ].
    intros r Hr. cbn beta in Hr |- *. rewrite length_firstn. lia. }
  assert (Hirows : chunks R k (concat (map (firstn k) perms))
                   = map (firstn k) perms).
  { rewrite <- HpR, <- (length_map (firstn k) perms). now apply chunks_concat. }
  eexists. eexists. split; [ reflexivity | ].
  cbn [shape data]. split; [ reflexivity | ]. split; [ reflexivity | ].
  split; [ | split ].
  - rewrite length_map.
    rewrite (@length_concat_const E k).
    + unfold map2. rewrite length_map, length_combine, !length_chunks. lia.
    + unfold map2. apply Forall_map. apply Forall_forall.
      intros [row irow] Hin. cbn [fst snd]. rewrite length_map.
      apply in_combine_r in Hin. rewrite Hirows in Hin.
      rewrite Forall_forall in Hklen. now apply Hklen.
  - unfold last_rows.
    destruct (shape_app_last [bsz; seq_len] k (concat (map (firstn k) perms)))
      as (Hl & Hd & _).
    cbn [app] in Hl, Hd. rewrite Hl. fold R. rewrite length_chunks. exact HR.
  - unfold last_rows.
    destruct (shape_app_last [bsz; seq_len] k (concat (map (firstn k) perms)))
      as (Hl & Hd & _).
    cbn [app] in Hl, Hd. rewrite Hl, Hd. cbn [data]. fold R. rewrite Hirows.
    apply Forall_map. eapply Forall_impl; [ | exact Hperms ].
    intros r Hr. cbn beta in Hr |- *. apply prefix_of_permutation; [ exact Hr | lia ].
Qed.

End GreedyCardinality.

(** The greedy gate on two sequences of two tokens over 4 experts. *)
Lemma greedy_returns_top_k_witness :
  exists inds weights,
    Samples.gate_select (Samples.gate "greedy" 1 [0; 0; 0; 0]%Q) [2; 2; 3]
      (mk_tensor [2; 2; 4]
         [0.1; 0.9; 0.5; 0.6;  0.8; 0.7; 0.2; 0.3;
          0.4; 0.3; 0.2; 0.1;  0.2; 0.4; 0.6; 0.8]%Q)
    = Ok (inds, weights) /\
    shape inds = [2; 2; 2] /\
    shape weights = [2; 2; 2] /\
    length (data weights) = 2 * 2 * 2 /\
    length (last_rows inds) = 2 * 2 /\
    Forall (fun row => length row = 2 /\ NoDup row /\
                       Forall (fun e => e < 2 * 2) row)
      (last_rows inds).
Proof.
  apply (@greedy_returns_top_k Q 0%Q Qplus Qmult Qopp Qle_bool
           (DeepseekV2.partition_by_sort 0%Q Qle_bool) 2 2 2 2 1 2);
    try reflexivity; try lia.
  intros row kth Hk. now apply sample_partition_ok.
Defined.

(** ** The expert gate: what the masking assignment writes *)

Section GroupMasking.

Lemma nth_concat_const {X : Type} (m : nat) (ls : list (list X)) (j : nat) (d : X) :
  Forall (fun r => length r = m) ls ->
  j < length ls * m ->
  nth j (concat ls) d = nth (j mod m) (nth (j / m) ls []) d.
Proof.
  intros HF. revert j. induction HF as [ | r ls Hr _ IH ]; intros j Hj.
  - simpl in Hj. lia.
  - assert (Hm : m <> 0) by (intros ->; simpl in Hj; lia).
    simpl in Hj. simpl concat.
    destruct (Nat.lt_ge_cases j m) as [Hlt | Hge].
    + rewrite app_nth1 by lia.
      rewrite Nat.div_small, Nat.mod_small by assumption. reflexivity.
    + rewrite app_nth2 by lia. rewrite Hr, IH by lia.
      assert (Hd : j / m = S ((j - m) / m)).
      { replace j with ((j - m) + 1 * m) at 1 by lia.
        rewrite Nat.div_add by assumption. lia. }
      assert (Hmo : j mod m = (j - m) mod m).
      { replace j with ((j - m) + 1 * m) at 1 by lia.
        apply Nat.Div0.mod_add. }
      rewrite Hd, Hmo. reflexivity.
Qed.

Lemma nth_fill_range {X : Type} (start len : nat) (v : X) (l : list X)
    (i : nat) (d : X) :
  i < length l ->
  nth i (fill_range start len v l) d
  = if (start <=? i) && (i <? start + len) then v else nth i l d.
Proof.
  intros Hi. unfold fill_range.
  destruct (Nat.leb_spec start i) as [Hle | Hgt]; cbn [andb].
  - rewrite app_nth2 by (rewrite length_firstn; lia).
    rewrite length_firstn, Nat.min_l by lia.
    destruct (Nat.ltb_spec i (start + len)) as [Hlt | Hge].
    + rewrite app_nth1 by (rewrite repeat_length; lia).
      apply nth_repeat_lt. lia.
    + rewrite app_nth2 by (rewrite repeat_length; lia).
      rewrite repeat_length, nth_skipn. f_equal. lia.
  - rewrite app_nth1 by (rewrite length_firstn; lia).
    rewrite nth_firstn.
    now replace (i <? start) with true by (symmetry; apply Nat.ltb_lt; lia).
Qed.

(** Filling blocks of [len] entries at a list of starts. *)
Lemma nth_fold_fill {X : Type} (len : nat) (v : X) (starts : list nat) :
  forall (l : list X) (i : nat) (d : X),
    i < length l ->
    nth i (fold_left (fun acc st => fill_range st len v acc) starts l) d
    = if existsb (fun st => (st <=? i) && (i <? st + len)) starts
      then v else nth i l d.
Proof.
  induction starts as [ | st starts IH ]; intros l i d Hi; [ reflexivity | ].
  simpl. rewrite IH by (now rewrite length_fill_range).
  rewrite nth_fill_range by assumption.
  destruct ((st <=? i) && (i <? st + len)); cbn [orb].
  - now destruct (existsb _ starts).
  - reflexivity.
Qed.

Lemma fold_left_map {X Y Z : Type} (f : X -> Z -> X) (g : Y -> Z) (l : list Y)
    (x : X) :
  fold_left (fun acc y => f acc (g y)) l x = fold_left f (map g l) x.
Proof.
  revert x. induction l as [ | y l IH ]; intros x; [ reflexivity | ].
  simpl. apply IH.
Qed.

(** The broadcast views of the batch and sequence index arrays. *)
Lemma bcast_data_cons {X : Type} (a b : nat) (src tgt : list nat) (d : list X) :
  bcast_data (a :: src) (b :: tgt) d
  = if a =? b
    then concat (map (bcast_data src tgt) (chunks a (numel src) d))
    else concat (repeat (bcast_data src tgt d) b).
Proof. reflexivity. Qed.

Lemma bcast_scalar_row (w b : nat) : bcast_data [1] [w] [b] = repeat b w.
Proof.
  rewrite bcast_data_cons. destruct w as [ | [ | w ] ]; simpl; try reflexivity.
  now rewrite concat_repeat_singleton.
Qed.

Lemma concat_repeat_repeat {X : Type} (x : X) (w n : nat) :
  concat (repeat (repeat x w) n) = repeat x (n * w).
Proof.
  induction n as [ | n IH ]; [ reflexivity | ].
  simpl. now rewrite IH, repeat_app.
Qed.

Lemma bcast_scalar_plane (s w b : nat) :
  bcast_data [1; 1] [s; w] [b] = repeat b (s * w).
Proof.
  rewrite bcast_data_cons. destruct (1 =? s) eqn:Hs.
  - apply Nat.eqb_eq in Hs. subst s.
    change (chunks 1 (numel [1]) [b]) with [[b]].
    cbn [map concat]. rewrite bcast_scalar_row, app_nil_r. f_equal. lia.
  - rewrite bcast_scalar_row. apply concat_repeat_repeat.
Qed.

Lemma batch_index_view (bsz s w : nat) :
  bcast_data [bsz; 1; 1] [bsz; s; w] (seq 0 bsz)
  = flat_map (fun b => repeat b (s * w)) (seq 0 bsz).
Proof.
  rewrite bcast_data_cons, Nat.eqb_refl.
  change (numel [1; 1]) with 1.
  rewrite <- (length_seq bsz 0) at 1. rewrite chunks_1, map_map.
  rewrite flat_map_concat_map. f_equal. apply map_ext. intros b.
  apply bcast_scalar_plane.
Qed.

Lemma seq_index_plane (s w : nat) (l : list nat) :
  length l = s ->
  bcast_data [s; 1] [s; w] l = flat_map (fun x => repeat x w) l.
Proof.
  intros Hl. rewrite bcast_data_cons, Nat.eqb_refl.
  change (numel [1]) with 1.
  rewrite <- Hl. rewrite chunks_1, map_map.
  rewrite flat_map_concat_map. f_equal. apply map_ext. intros x.
  apply bcast_scalar_row.
Qed.

Lemma seq_index_view (bsz s w : nat) :
  bcast_data [1; s; 1] [bsz; s; w] (seq 0 s)
  = concat (repeat (flat_map (fun x => repeat x w) (seq 0 s)) bsz).
Proof.
  rewrite bcast_data_cons. destruct (1 =? bsz) eqn:Hb.
  - apply Nat.eqb_eq in Hb. subst bsz.
    replace (numel [s; 1]) with s by (unfold numel; simpl; lia).
    cbn [chunks map concat repeat].
    rewrite firstn_all2 by (rewrite length_seq; lia).
    now rewrite seq_index_plane by apply length_seq.
  - now rewrite seq_index_plane by apply length_seq.
Qed.

Lemma nth_flat_map_repeat (m n j : nat) :
  j < n * m ->
  nth j (flat_map (fun b => repeat b m) (seq 0 n)) 0 = j / m.
Proof.
  intros Hj. assert (Hm : m <> 0) by (intros ->; lia).
  rewrite flat_map_concat_map.
  rewrite (@nth_concat_const nat m).
  - assert (Hq : j / m < n) by (apply Nat.Div0.div_lt_upper_bound; lia).
    rewrite (nth_indep _ [] (repeat 0 m)) by (now rewrite length_map, length_seq).
    rewrite (map_nth (fun b => repeat b m) (seq 0 n) 0 (j / m)).
    rewrite seq_nth by assumption. simpl.
    apply nth_repeat_lt. now apply Nat.mod_upper_bound.
  - apply Forall_map. apply Forall_forall. intros b _. apply repeat_length.
  - now rewrite length_map, length_seq.
Qed.

Lemma nth_concat_repeat_block (blk : list nat) (m n j : nat) :
  length blk = m -> j < n * m ->
  nth j (concat (repeat blk n)) 0 = nth (j mod m) blk 0.
Proof.
  intros Hb Hj. assert (Hm : m <> 0) by (intros ->; lia).
  rewrite (@nth_concat_const nat m).
  - assert (Hq : j / m < n) by (apply Nat.Div0.div_lt_upper_bound; lia).
    now rewrite nth_repeat_lt by assumption.
  - apply Forall_forall. intros r Hr. apply repeat_spec in Hr. now subst r.
  - now rewrite repeat_length.
Qed.

Lemma fold_left_ext {X Y : Type} (f g : X -> Y -> X) (l : list Y) (x : X) :
  (forall acc y, f acc y = g acc y) -> fold_left f l x = fold_left g l x.
Proof.
  intros Hfg. revert x. induction l as [ | y l IH ]; intros x; [ reflexivity | ].
  simpl. now rewrite Hfg, IH.
Qed.

(** Position [j] of the broadcast index arrays addresses token [j / w]. *)
Lemma token_of_index (s w j : nat) :
  w <> 0 ->
  j / (s * w) * s + j mod (s * w) / w = j / w.
Proof.
  intros Hw.
  rewrite (Nat.mul_comm s w), Nat.Div0.mod_mul_r.
  rewrite (Nat.mul_comm w (_ mod s)), Nat.div_add by assumption.
  rewrite (Nat.div_small (j mod w)) by (now apply Nat.mod_upper_bound).
  rewrite <- Nat.Div0.div_div. cbn [Nat.add].
  rewrite (Nat.div_mod_eq (j / w) s) at 3. lia.
Qed.

(** A block of [p] entries is hit by a start [m * p] exactly when it is
    block [m]. *)
Lemma block_hit (p m m' r : nat) :
  r < p ->
  ((m * p <=? m' * p + r) && (m' * p + r <? m * p + p)) = (m =? m').
Proof.
  intros Hr.
  destruct (Nat.eqb_spec m m') as [-> | Hne].
  - apply andb_true_iff. split; [ apply Nat.leb_le | apply Nat.ltb_lt ]; lia.
  - apply andb_false_iff.
    destruct (Nat.lt_ge_cases m m') as [Hlt | Hge].
    + right. apply Nat.ltb_ge. nia.
    + left. apply Nat.leb_gt. nia.
Qed.

(** Two group positions coincide exactly when token and group do. *)
Lemma group_position_eq (g t t' G G' : nat) :
  G < g -> G' < g ->
  (t * g + G =? t' * g + G') = (t =? t') && (G =? G').
Proof.
  intros HG HG'.
  destruct (Nat.eqb_spec t t') as [-> | Hne]; cbn [andb].
  - destruct (Nat.eqb_spec G G') as [-> | Hne].
    + apply Nat.eqb_refl.
    + apply Nat.eqb_neq. lia.
  - apply Nat.eqb_neq. nia.
Qed.

End GroupMasking.

(** ** The expert gate under any conforming partial selection *)

Section AnySelection.

Import Spec.

Lemma In_inserts (x : nat) (l1 l2 : list nat) :
  In (l1 ++ x :: l2) (inserts x (l1 ++ l2)).
Proof.
  induction l1 as [ | y l1 IH ]; simpl.
  - destruct l2; simpl; auto.
  - right. apply in_map. exact IH.
Qed.

(** Every permutation of a list is among the enumerated ones. *)
Lemma In_perms (l' l : list nat) : Permutation l l' -> In l (perms l').
Proof.
  revert l. induction l' as [ | x l' IH ]; intros l Hp.
  - apply Permutation_sym, Permutation_nil in Hp. subst. now left.
  - assert (Hin : In x l).
    { apply (Permutation_in x (Permutation_sym Hp)). now left. }
    apply in_split in Hin. destruct Hin as [l1 [l2 ->]].
    simpl. apply in_flat_map. exists (l1 ++ l2). split.
    + apply IH. apply Permutation_sym in Hp.
      apply Permutation_cons_app_inv in Hp. now apply Permutation_sym.
    + apply In_inserts.
Qed.

Lemma forallb_seq (f : nat -> bool) (start len : nat) :
  (forall i, start <= i < start + len -> f i = true) ->
  forallb f (seq start len) = true.
Proof.
  intros H. apply forallb_forall. intros i Hi. apply in_seq in Hi. now apply H.
Qed.

(** The result of a conforming partial selection is one of the candidates
    that can be listed for the row. *)
Lemma partition_candidates (partition_fn : list Q -> nat -> list nat)
    (row : list Q) (kth : nat) :
  partition_ok 0%Q Qle_bool partition_fn ->
  kth < length row ->
  In (partition_fn row kth) (candidates 0%Q Qle_bool row kth).
Proof.
  intros Hp Hk. destruct (Hp row kth Hk) as [Hperm [Hlo Hhi]].
  unfold candidates. apply filter_In. split.
  - now apply In_perms.
  - unfold partitioned. apply andb_true_iff. split.
    + apply forallb_seq. intros i Hi. apply Hlo. lia.
    + apply forallb_seq. intros j Hj. apply Hhi. lia.
Qed.

Variable partition_fn : list Q -> nat -> list nat.
Hypothesis partition_fn_ok : partition_ok 0%Q Qle_bool partition_fn.

(** Replaces a selection on a known row by each of its candidates. *)
Ltac resolve_selection :=
  match goal with
  | |- context [partition_fn ?r ?k] =>
      let H := fresh "Hsel" in
      assert (H : In (partition_fn r k) (candidates 0%Q Qle_bool r k))
        by (apply partition_candidates; [ exact partition_fn_ok | cbv; lia ]);
      vm_compute in H;
      repeat (destruct H as [H | H]; [ rewrite <- H; clear H | ]);
      [ .. | contradiction ]
  end.

(** C5 under [noaux_tc] for one token with scores (0.1, 0.9, 0.5, 0.6),
    two groups of two experts, one group kept, whatever order the partial
    selection leaves within the two sides of a partition: group 0 has the
    lower group score (0.1 + 0.9 against 0.5 + 0.6), the assignment zeroes
    expert 0 instead of the experts of group 0, and the gate selects
    experts 3 and 1, which lie in two groups. *)
Theorem gate_noaux_tc_spans_two_groups :
  let self := Samples.gate "noaux_tc" 1 [0; 0; 0; 0]%Q in
  exists inds weights,
    DeepseekV2.MoEGate_select 0%Q Qplus Qmult Qopp Qle_bool partition_fn
      self [1; 1; 3] (mk_tensor [1; 1; 4] [0.1; 0.9; 0.5; 0.6]%Q)
    = Ok (inds, weights) /\
    data inds = [3; 1] /\
    groups_spanned 2 (data inds) = 2 /\
    DeepseekV2.topk_group self = 1%Z.
Proof.
  unfold DeepseekV2.MoEGate_select. cbv.
  resolve_selection; cbv.
  all: resolve_selection; cbv.
  all: eexists; eexists; repeat split.
Qed.

(** The same token under [greedy]: the scores are regrouped before the
    assignment, group 1 (maxima 0.9 against 0.6) is zeroed as a whole and
    the two selected experts, 1 and 0, lie in the one kept group. *)
Lemma gate_greedy_keeps_one_group :
  exists inds weights,
    DeepseekV2.MoEGate_select 0%Q Qplus Qmult Qopp Qle_bool partition_fn
      (Samples.gate "greedy" 1 [0; 0; 0; 0]%Q) [1; 1; 3]
      (mk_tensor [1; 1; 4] [0.1; 0.9; 0.5; 0.6]%Q)
    = Ok (inds, weights) /\
    data inds = [1; 0] /\
    groups_spanned 2 (data inds) = 1.
Proof.
  unfold DeepseekV2.MoEGate_select. cbv.
  resolve_selection; cbv.
  all: resolve_selection; cbv.
  all: eexists; eexists; repeat split.
Qed.

(** C6 for one token with scores (0.1, 0.9, 0.5, 0.6), bias
    (0.3, 0, 0.05, 0.05) and scaling factor 2, whatever order the partial
    selection leaves within the two sides of a partition: the corrected
    group scores are 1.3 and 1.2, so group 1 is dropped; the assignment
    zeroes expert 1 instead of the experts 2 and 3 of group 1; the gate
    selects experts 2 and 3 with weights 2 * 0.5 and 2 * 0.6, their
    uncorrected scores, where the scores with the dropped group zeroed are
    0 at both. *)
Theorem gate_noaux_tc_weights_of_dropped_group :
  let scores := [0.1; 0.9; 0.5; 0.6]%Q in
  exists inds weights,
    DeepseekV2.MoEGate_select 0%Q Qplus Qmult Qopp Qle_bool partition_fn
      (Samples.gate "noaux_tc" 2 [0.3; 0; 0.05; 0.05]%Q)
      [1; 1; 3] (mk_tensor [1; 1; 4] scores)
    = Ok (inds, weights) /\
    data inds = [2; 3] /\
    data weights = [(0.5 * 2)%Q; (0.6 * 2)%Q] /\
    map (fun e => nth e (zero_groups 0%Q 2 [1] scores) 0%Q) (data inds)
    = [0%Q; 0%Q].
Proof.
  unfold DeepseekV2.MoEGate_select. cbv.
  resolve_selection; cbv.
  all: resolve_selection; cbv.
  all: eexists; eexists; repeat split.
Qed.

End AnySelection.

(** With the stable sort as the partial selection. *)
Lemma gate_noaux_tc_spans_two_groups_witness :
  Spec.partition_ok 0%Q Qle_bool (DeepseekV2.partition_by_sort 0%Q Qle_bool)
  /\
  exists inds weights,
    Samples.gate_select (Samples.gate "noaux_tc" 1 [0; 0; 0; 0]%Q) [1; 1; 3]
      (mk_tensor [1; 1; 4] [0.1; 0.9; 0.5; 0.6]%Q)
    = Ok (inds, weights) /\
    data inds = [3; 1] /\
    Spec.groups_spanned 2 (data inds) = 2 /\
    DeepseekV2.topk_group (Samples.gate "noaux_tc" 1 [0; 0; 0; 0]%Q) = 1%Z.
Proof.
  split.
  - exact sample_partition_ok.
  - exact (gate_noaux_tc_spans_two_groups sample_partition_ok).
Defined.

Lemma gate_noaux_tc_weights_of_dropped_group_witness :
  Spec.partition_ok 0%Q Qle_bool (DeepseekV2.partition_by_sort 0%Q Qle_bool)
  /\
  exists inds weights,
    Samples.gate_select (Samples.gate "noaux_tc" 2 [0.3; 0; 0.05; 0.05]%Q)
      [1; 1; 3] (mk_tensor [1; 1; 4] [0.1; 0.9; 0.5; 0.6]%Q)
    = Ok (inds, weights) /\
    data inds = [2; 3] /\
    data weights = [(0.5 * 2)%Q; (0.6 * 2)%Q] /\
    map (fun e => nth e (Spec.zero_groups 0%Q 2 [1]
                           [0.1; 0.9; 0.5; 0.6]%Q) 0%Q) (data inds)
    = [0%Q; 0%Q].
Proof.
  split.
  - exact sample_partition_ok.
  - exact (gate_noaux_tc_weights_of_dropped_group sample_partition_ok).
Defined.

(** ** Further properties of the fusion code (gemma3) *)

Section FusionCalls.

Variable A : Type.
Variable zero : A.
Variable div_sqrt : nat -> A -> A.
Variable Pixels Cache Logits : Type.
Variable embed_tokens : tensor Z -> tensor A.
Variable vision_tower : Pixels -> tensor A.
Variable multi_modal_projector : tensor A -> tensor A.
Variable language_model : Gemma3.lm_kwargs A Cache -> Logits.

Ltac raise_or_step :=
  match goal with
  | |- exists e, bind ?c _ = Raise e =>
      destruct c; cbn [bind]; [ | eexists; reflexivity ]
  end.

Lemma prepare_without_mask_raises (h : nat) (pad_token_id : option Z) (img : Z)
    (image_features inputs_embeds : tensor A) (input_ids : tensor Z) :
  exists e,
    Gemma3.prepare_inputs_for_multimodal zero div_sqrt h pad_token_id img
      image_features inputs_embeds input_ids None = Raise e.
Proof.
  unfold Gemma3.prepare_inputs_for_multimodal.
  destruct (shape image_features) as [ | ? [ | ? [ | E [ | ] ] ] ];
    try (eexists; reflexivity).
  destruct (shape input_ids) as [ | B [ | S [ | ] ] ];
    try (eexists; reflexivity).
  repeat raise_or_step.
  eexists; reflexivity.
Qed.

(** X1: a call of the gemma3 model with pixel values and without a validity
    mask (the default [mask=None]) never returns: the fusion hands [None]
    to [mx.expand_dims], so the call raises whatever the ids, the pixel
    values and the cache are. *)
Theorem gemma3_call_with_pixels_needs_mask (config : Gemma3.ModelConfig)
    (input_ids : tensor Z) (pixel_values : Pixels) (cache : option Cache) :
  exists e,
    Gemma3.Model_call zero div_sqrt embed_tokens vision_tower
      multi_modal_projector language_model config input_ids
      (Some pixel_values) None cache = Raise e.
Proof.
  unfold Gemma3.Model_call, Gemma3.Model_call_kwargs,
    Gemma3.get_input_embeddings.
  destruct (prepare_without_mask_raises (Gemma3.hidden_size config)
              (Gemma3.pad_token_id config) (Gemma3.image_token_index config)
              (multi_modal_projector (vision_tower pixel_values))
              (embed_tokens input_ids) input_ids) as [e He].
  rewrite He. exists e. reflexivity.
Qed.

(** X2: whenever the fusion returns on a validity mask of [b] rows of [s]
    entries, the mask it returns has the shape (b, 1, s, s) and holds, for
    every row [r] of the validity mask, the products [r[j] * r[i]]. *)
Theorem fusion_mask_is_outer_product (h : nat) (pad_token_id : option Z)
    (img : Z) (image_features inputs_embeds : tensor A) (input_ids : tensor Z)
    (b s : nat) (md : list Z) (fused : tensor A) (m4 : tensor Z) :
  length md = b * s ->
  Gemma3.prepare_inputs_for_multimodal zero div_sqrt h pad_token_id img
    image_features inputs_embeds input_ids (Some (mk_tensor [b; s] md))
  = Ok (fused, m4) ->
  shape m4 = [b; 1; s; s] /\
  data m4 = concat (map (fun r => flat_map (fun xi => map (fun xj => (xj * xi)%Z) r) r)
                      (chunks b s md)).
Proof.
  intros Hl H.
  apply prepare_mask_outer_product in H; [ | assumption ].
  subst m4. split; reflexivity.
Qed.

End FusionCalls.

Lemma fusion_mask_is_outer_product_witness :
  let ids := mk_tensor [1; 4] [5; 7; 0; 7]%Z in
  let feats := mk_tensor [1; 2; 2] [10; 20; 30; 40]%float in
  exists fused m4,
    Gemma3.prepare_inputs_for_multimodal 0%float Samples.div_sqrt 4 (Some 0%Z)
      7%Z feats (Samples.embed_tokens ids) ids
      (Some (mk_tensor [1; 4] [1; 1; 0; 1]%Z)) = Ok (fused, m4) /\
    shape m4 = [1; 1; 4; 4] /\
    data m4 = [1; 1; 0; 1;  1; 1; 0; 1;  0; 0; 0; 0;  1; 1; 0; 1]%Z.
Proof.
  intros ids feats.
  assert (H : exists fused m4,
             Gemma3.prepare_inputs_for_multimodal 0%float Samples.div_sqrt 4
               (Some 0%Z) 7%Z feats (Samples.embed_tokens ids) ids
               (Some (mk_tensor [1; 4] [1; 1; 0; 1]%Z)) = Ok (fused, m4)).
  { eexists. eexists. vm_compute. reflexivity. }
  destruct H as (fused & m4 & H). exists fused, m4.
  split; [ exact H | ].
  exact (@fusion_mask_is_outer_product float 0%float Samples.div_sqrt 4
           (Some 0%Z) 7%Z feats (Samples.embed_tokens ids) ids 1 4
           [1; 1; 0; 1]%Z fused m4 eq_refl H).
Defined.

(** ** Further properties of the attention constructors (deepseek_vl_v2) *)

Section RopeScaling.

Import DeepseekV2.

Variable log : float -> float.
Variable pow : float -> float -> float.
Variable Freqs : Type.
Variable yarn_ops : YarnArrays Freqs.

(** X3: latent attention built from a [rope_scaling] dict
    whose [mscale_all_dim] is missing or zero gets no rotary module at all
    (the attribute [rope] is never assigned) and keeps the plain scale
    [q_head_dim ** -0.5]. *)
Theorem latent_attention_without_mscale_all_dim (config : TextConfig)
    (rs : Py.dict) (att : DeepseekV2Attention Freqs) :
  rope_scaling config = Some rs ->
  Py.truthy (Py.get rs "mscale_all_dim" (Py.Num 0)) = false ->
  DeepseekV2Attention_init log pow yarn_ops config = Ok att ->
  dsa_rope att = None /\
  dsa_scale att
  = pow (Py.float_of_nat (qk_nope_head_dim config + qk_rope_head_dim config))
      (-0.5)%float.
Proof.
  intros Hrs Hm. unfold DeepseekV2Attention_init, Py.int_pow_neg_half.
  rewrite Hrs, Hm.
  destruct (qk_nope_head_dim config + qk_rope_head_dim config =? 0);
    cbn [bind]; [ discriminate | ].
  intros H. inversion H. split; reflexivity.
Qed.

Lemma match_linear {X : Type} (s : string) (a b : X) :
  match s with "linear" => a | _ => b end
  = if String.eqb s "linear" then a else b.
Proof.
  do 6 (destruct s as [ | [[] [] [] [] [] [] [] []] s ]; try reflexivity).
  destruct s; reflexivity.
Qed.

(** X4: [LlamaAttention] reads only linear rope scaling:
    a [rope_scaling] dict of type "linear" with factor [f] gives the rotary
    scale [1 / f]; a dict of any other type (YaRN included) leaves the
    scale at 1. *)
Theorem llama_attention_rope_scale (config : TextConfig) (rs : Py.dict)
    (ty : Py.value) (att : LlamaAttention) :
  rope_scaling config = Some rs ->
  Py.lookup rs "type" = Some ty ->
  LlamaAttention_init pow config = Ok att ->
  (ty <> Py.Str "linear" -> r_scale (la_rope att) = 1%float) /\
  (ty = Py.Str "linear" ->
   exists f, Py.lookup rs "factor" = Some (Py.Num f) /\
             r_scale (la_rope att) = (1 / f)%float).
Proof.
  intros Hrs Hty. unfold LlamaAttention_init. rewrite Hrs.
  unfold Py.getitem. rewrite Hty.
  intros H.
  apply bind_ok_inv in H. destruct H as (hd & _ & H).
  apply bind_ok_inv in H. destruct H as (sc & _ & H).
  cbn [bind] in H.
  apply bind_ok_inv in H. destruct H as (rsc & Hrsc & H).
  inversion H. cbn [la_rope r_scale]. clear H.
  split.
  - intros Hne.
    destruct ty as [f | s]; [ now inversion Hrsc | ].
    rewrite match_linear in Hrsc.
    destruct (String.eqb_spec s "linear") as [-> | Hs]; [ congruence | ].
    now inversion Hrsc.
  - intros ->. cbv beta iota in Hrsc.
    destruct (Py.lookup rs "factor") as [v | ]; cbn [bind] in Hrsc;
      [ | discriminate ].
    destruct v as [f | s]; cbn [Py.as_float bind] in Hrsc; [ | discriminate ].
    exists f. split; [ reflexivity | ].
    unfold Py.float_div in Hrsc.
    destruct (PrimFloat.eqb f 0); now inversion Hrsc.
Qed.

(** X5: a [rope_scaling] dict without the key "type" makes
    the construction of [LlamaAttention] raise [KeyError], and a linear one
    with the factor 0 makes it raise [ZeroDivisionError]. *)
Theorem llama_attention_rope_scaling_errors (config : TextConfig)
    (rs : Py.dict) :
  rope_scaling config = Some rs ->
  num_attention_heads config <> 0 ->
  num_attention_heads config <= hidden_size config ->
  (Py.lookup rs "type" = None ->
   LlamaAttention_init pow config = Raise (KeyError "type")) /\
  (Py.lookup rs "type" = Some (Py.Str "linear") ->
   Py.lookup rs "factor" = Some (Py.Num 0) ->
   LlamaAttention_init pow config
   = Raise (ZeroDivisionError "float division by zero")).
Proof.
  intros Hrs Hh Hle. unfold LlamaAttention_init, Py.int_floordiv,
    Py.int_pow_neg_half, Py.getitem.
  rewrite Hrs.
  destruct (num_attention_heads config =? 0) eqn:E0;
    [ apply Nat.eqb_eq in E0; contradiction | ].
  cbn [bind].
  destruct (hidden_size config / num_attention_heads config =? 0) eqn:E1.
  { apply Nat.eqb_eq in E1. apply Nat.div_small_iff in E1; [ lia | assumption ]. }
  cbn [bind]. split.
  - intros ->. reflexivity.
  - intros -> ->. reflexivity.
Qed.

End RopeScaling.

(** A linear rope scaling, as latent attention is not prepared for. *)
Lemma latent_attention_without_mscale_all_dim_witness :
  let rs := [("type", Py.Str "linear"); ("factor", Py.Num 2)] in
  let config := Samples.text_config 2048 16 (Some rs) in
  exists att,
    DeepseekV2.DeepseekV2Attention_init Samples.log Samples.pow
      Samples.yarn_ops config = Ok att /\
    DeepseekV2.dsa_rope att = None /\
    DeepseekV2.dsa_scale att = Samples.pow (Py.float_of_nat (128 + 64)) (-0.5)%float.
Proof.
  intros rs config.
  assert (H : exists att,
             DeepseekV2.DeepseekV2Attention_init Samples.log Samples.pow
               Samples.yarn_ops config = Ok att).
  { eexists. vm_compute. reflexivity. }
  destruct H as (att & H). exists att. split; [ exact H | ].
  exact (@latent_attention_without_mscale_all_dim Samples.log Samples.pow unit
           Samples.yarn_ops config rs att eq_refl eq_refl H).
Defined.

Lemma llama_attention_rope_scale_witness :
  let rs := [("type", Py.Str "linear"); ("factor", Py.Num 4)] in
  let config := Samples.text_config 2048 16 (Some rs) in
  exists att,
    DeepseekV2.LlamaAttention_init Samples.pow config = Ok att /\
    (Py.Str "linear" <> Py.Str "linear" ->
     DeepseekV2.r_scale (DeepseekV2.la_rope att) = 1%float) /\
    (Py.Str "linear" = Py.Str "linear" ->
     exists f, Py.lookup rs "factor" = Some (Py.Num f) /\
               DeepseekV2.r_scale (DeepseekV2.la_rope att) = (1 / f)%float).
Proof.
  intros rs config.
  assert (H : exists att,
             DeepseekV2.LlamaAttention_init Samples.pow config = Ok att).
  { eexists. vm_compute. reflexivity. }
  destruct H as (att & H). exists att. split; [ exact H | ].
  exact (@llama_attention_rope_scale Samples.pow config rs (Py.Str "linear")
           att eq_refl eq_refl H).
Defined.

Lemma llama_attention_rope_scaling_errors_witness :
  let rs := [("factor", Py.Num 2)] in
  let config := Samples.text_config 2048 16 (Some rs) in
  (Py.lookup rs "type" = None ->
   DeepseekV2.LlamaAttention_init Samples.pow config = Raise (KeyError "type")) /\
  (Py.lookup rs "type" = Some (Py.Str "linear") ->
   Py.lookup rs "factor" = Some (Py.Num 0) ->
   DeepseekV2.LlamaAttention_init Samples.pow config
   = Raise (ZeroDivisionError "float division by zero")).
Proof.
  intros rs config.
  apply (@llama_attention_rope_scaling_errors Samples.pow config rs eq_refl).
  - vm_compute. discriminate.
  - vm_compute. lia.
Defined.

(** ** Further properties of the expert gate *)

Section GateErrors.

Variable E : Type.
Variable zero : E.
Variable add mul : E -> E -> E.
Variable neg : E -> E.
Variable leb : E -> E -> bool.
Variable softmax : list E -> list E.
Variable sigmoid : E -> E.
Variable partition_fn : list E -> nat -> list nat.

(** X7: the gate never returns for a scoring function other
    than "softmax" and "sigmoid", nor for a top-k method other than
    "greedy" and "noaux_tc": when the product with the gate weights is
    defined, the call raises [ValueError]. *)
Theorem gate_unknown_method_raises (self : DeepseekV2.MoEGate E) (x : tensor E)
    (gates : tensor E) :
  DeepseekV2.matmul_T zero add mul x (DeepseekV2.weight self) = Ok gates ->
  (DeepseekV2.scoring_func self <> "softmax" /\
   DeepseekV2.scoring_func self <> "sigmoid") \/
  (DeepseekV2.topk_method self <> "greedy" /\
   DeepseekV2.topk_method self <> "noaux_tc") ->
  exists msg,
    DeepseekV2.MoEGate_call zero add mul neg leb softmax sigmoid partition_fn
      self x = Raise (ValueError msg).
Proof.
  intros Hg Hu. unfold DeepseekV2.MoEGate_call. rewrite Hg. cbn [bind].
  destruct Hu as [[H1 H2] | [H1 H2]].
  - apply String.eqb_neq in H1, H2. rewrite H1, H2. cbn [bind].
    eexists. reflexivity.
  - assert (Hsel : forall s sc, exists msg,
               DeepseekV2.MoEGate_select zero add mul neg leb partition_fn
                 self s sc = Raise (ValueError msg)).
    { intros s sc. unfold DeepseekV2.MoEGate_select.
      apply String.eqb_neq in H1, H2. rewrite H1, H2. cbn [bind].
      eexists. reflexivity. }
    destruct (String.eqb (DeepseekV2.scoring_func self) "softmax").
    + cbn [bind]. apply Hsel.
    + destruct (String.eqb (DeepseekV2.scoring_func self) "sigmoid").
      * cbn [bind]. apply Hsel.
      * cbn [bind]. eexists. reflexivity.
Qed.

End GateErrors.

Lemma gate_unknown_method_raises_witness :
  exists msg,
    Samples.gate_call (Samples.gate "group_limited_greedy" 1 [0; 0; 0; 0]%Q)
      (mk_tensor [1; 1; 3] [1; 0; 2]%Q) = Raise (ValueError msg).
Proof.
  apply (@gate_unknown_method_raises Q 0%Q Qplus Qmult Qopp Qle_bool
           Samples.softmax Samples.sigmoid
           (DeepseekV2.partition_by_sort 0%Q Qle_bool)
           (Samples.gate "group_limited_greedy" 1 [0; 0; 0; 0]%Q)
           (mk_tensor [1; 1; 3] [1; 0; 2]%Q)
           (mk_tensor [1; 1; 4] [0; 0; 0; 0]%Q)).
  - vm_compute. reflexivity.
  - right. split; discriminate.
Defined.

(** ** Transposition *)

Section TransposeFacts.

Lemma length_indices (s : list nat) : length (indices s) = numel s.
Proof.
  induction s as [ | n s IH ]; [ reflexivity | ].
  cbn [indices]. rewrite flat_map_concat_map.
  rewrite (@length_concat_const _ (numel s)).
  - rewrite length_map, length_seq. reflexivity.
  - apply Forall_map, Forall_forall. intros i _.
    now rewrite length_map.
Qed.

Lemma ravel_cons (i n : nat) (idx s : list nat) :
  ravel (strides (n :: s)) (i :: idx) = i * numel s + ravel (strides s) idx.
Proof. reflexivity. Qed.

Lemma ravel_lt (s idx : list nat) :
  Forall2 lt idx s -> ravel (strides s) idx < numel s.
Proof.
  induction 1 as [ | i n idx s Hi _ IH ].
  - cbn. lia.
  - rewrite ravel_cons. change (numel (n :: s)) with (n * numel s). nia.
Qed.

(** The multi-index at the flat position of a multi-index is that
    multi-index. *)
Lemma nth_indices (s idx : list nat) :
  Forall2 lt idx s -> nth (ravel (strides s) idx) (indices s) [] = idx.
Proof.
  induction 1 as [ | i n idx s Hi Hf IH ]; [ reflexivity | ].
  rewrite ravel_cons. cbn [indices]. rewrite flat_map_concat_map.
  pose proof (ravel_lt Hf) as Hr.
  assert (Hm : numel s <> 0) by lia.
  rewrite (@nth_concat_const _ (numel s)).
  - rewrite Nat.div_add_l, Nat.div_small, Nat.add_0_r by assumption.
    rewrite (Nat.add_comm (i * numel s)), Nat.Div0.mod_add.
    rewrite Nat.mod_small by assumption.
    rewrite (nth_indep _ [] ((fun j => map (cons j) (indices s)) 0))
      by (rewrite length_map, length_seq; exact Hi).
    rewrite (map_nth (fun j => map (cons j) (indices s))).
    rewrite seq_nth by exact Hi. cbn [Nat.add].
    rewrite (nth_indep _ [] (cons i []))
      by (rewrite length_map, length_indices; exact Hr).
    rewrite (map_nth (cons i)). now rewrite IH.
  - apply Forall_map, Forall_forall. intros j _.
    now rewrite length_map, length_indices.
  - rewrite length_map, length_seq. nia.
Qed.

Variable A : Type.
Variable dflt : A.

(** The transposition [(0, 2, 3, 1)] of a four-dimensional array: the
    element [(o, h, w, c)] of the result is the element [(o, c, h, w)] of
    the array. *)
Lemma transpose_channels_last (t : tensor A) (O C H W : nat) :
  shape t = [O; C; H; W] ->
  exists t',
    transpose dflt t [0; 2; 3; 1] = Ok t' /\
    shape t' = [O; H; W; C] /\
    length (data t') = O * (H * (W * C)) /\
    forall o h w c, o < O -> h < H -> w < W -> c < C ->
      item dflt t' [o; h; w; c] = item dflt t [o; c; h; w].
Proof.
  intros Hs. unfold transpose, ndim. rewrite Hs.
  change (negb (length [0; 2; 3; 1] =? length [O; C; H; W])) with false.
  change (negb (is_axes_permutation [0; 2; 3; 1] (length [O; C; H; W])))
    with false.
  cbv iota. eexists. split; [ reflexivity | ].
  change (map (fun a => nth a [O; C; H; W] 0) [0; 2; 3; 1]) with [O; H; W; C].
  split; [ reflexivity | ]. split.
  - cbn [data]. rewrite length_map, length_indices. unfold numel. simpl. lia.
  - intros o h w c Ho Hh Hw Hc. unfold item. cbn [shape data]. rewrite Hs.
    assert (Hidx : Forall2 lt [o; h; w; c] [O; H; W; C])
      by (repeat constructor; assumption).
    rewrite (nth_indep _ dflt
               ((fun idx => nth (ravel (map (fun a => nth a (strides [O; C; H; W]) 0)
                                          [0; 2; 3; 1]) idx) (data t) dflt) []))
      by (rewrite length_map, length_indices; apply ravel_lt; exact Hidx).
    rewrite (map_nth (fun idx => nth (ravel (map (fun a => nth a (strides [O; C; H; W]) 0)
                                               [0; 2; 3; 1]) idx) (data t) dflt)).
    rewrite (nth_indices Hidx).
    f_equal. unfold ravel, map2, strides, numel. simpl. lia.
Qed.

(** Any other number of dimensions is refused. *)
Lemma transpose_not_4d (t : tensor A) :
  length (shape t) <> 4 ->
  exists e, transpose dflt t [0; 2; 3; 1] = Raise e.
Proof.
  intros Hn. unfold transpose, ndim.
  destruct (length [0; 2; 3; 1] =? length (shape t)) eqn:E.
  - apply Nat.eqb_eq in E. simpl in E. congruence.
  - eexists. reflexivity.
Qed.

End TransposeFacts.

(** ** Comprehensions and dicts *)

Section Comprehensions.

Lemma bind_raise_inv {X Y : Type} (c : result X) (k : X -> result Y) (e : exn) :
  bind c k = Raise e -> c = Raise e \/ exists a, c = Ok a /\ k a = Raise e.
Proof.
  destruct c as [a | e']; simpl.
  - intros H. right. now exists a.
  - intros H. left. now inversion H.
Qed.

Lemma list_comp_ok {X Y : Type} (f : X -> result Y) (l : list X) (ys : list Y) :
  list_comp f l = Ok ys <-> Forall2 (fun x y => f x = Ok y) l ys.
Proof.
  revert ys. induction l as [ | x l IH ]; intros ys; simpl.
  - split.
    + intros H. inversion H. constructor.
    + intros H. inversion H. reflexivity.
  - split.
    + intros H. apply bind_ok_inv in H. destruct H as (y & Hy & H).
      apply bind_ok_inv in H. destruct H as (ys' & Hys & H).
      inversion H. subst. constructor; [ exact Hy | now apply IH ].
    + intros H. inversion H as [ | ? y ? ys' Hy Hys ]. subst.
      rewrite Hy. simpl. apply IH in Hys. rewrite Hys. reflexivity.
Qed.

Lemma list_comp_raise {X Y : Type} (f : X -> result Y) (l : list X) (x : X) :
  In x l -> (exists e, f x = Raise e) -> exists e, list_comp f l = Raise e.
Proof.
  intros Hin [e He]. induction l as [ | x' l IH ]; [ contradiction | ].
  simpl. destruct Hin as [-> | Hin].
  - rewrite He. exists e. reflexivity.
  - destruct (f x') as [y | e']; simpl; [ | eexists; reflexivity ].
    destruct (IH Hin) as [e'' ->]. exists e''. reflexivity.
Qed.

Lemma list_comp_length {X Y : Type} (f : X -> result Y) (l : list X)
    (ys : list Y) :
  list_comp f l = Ok ys -> length ys = length l.
Proof.
  intros H. apply list_comp_ok in H. symmetry. exact (Forall2_length H).
Qed.

Lemma list_comp_total {X Y : Type} (f : X -> result Y) (l : list X) :
  (forall x, In x l -> exists y, f x = Ok y) ->
  exists ys, list_comp f l = Ok ys.
Proof.
  induction l as [ | x l IH ]; intros H.
  - exists []. reflexivity.
  - destruct (H x (or_introl eq_refl)) as [y Hy].
    destruct IH as [ys Hys]; [ intros x' Hx'; apply H; now right | ].
    exists (y :: ys). simpl. now rewrite Hy, Hys.
Qed.

Lemma Forall2_In_l {X Y : Type} (R : X -> Y -> Prop) (l : list X)
    (ys : list Y) (x : X) :
  Forall2 R l ys -> In x l -> exists y, In y ys /\ R x y.
Proof.
  induction 1 as [ | x' y l ys Hxy _ IH ]; intros Hin; [ contradiction | ].
  destruct Hin as [-> | Hin].
  - exists y. split; [ now left | exact Hxy ].
  - destruct (IH Hin) as (y' & Hy' & HR). exists y'. split; [ now right | exact HR ].
Qed.

Lemma Forall2_In_r {X Y : Type} (R : X -> Y -> Prop) (l : list X)
    (ys : list Y) (y : Y) :
  Forall2 R l ys -> In y ys -> exists x, In x l /\ R x y.
Proof.
  induction 1 as [ | x y' l ys Hxy _ IH ]; intros Hin; [ contradiction | ].
  destruct Hin as [-> | Hin].
  - exists x. split; [ now left | exact Hxy ].
  - destruct (IH Hin) as (x' & Hx' & HR). exists x'. split; [ now right | exact HR ].
Qed.

Variable V : Type.

Lemma dict_set_fresh (d : Py.dict_of V) (k : string) (v : V) :
  ~ In k (map fst d) -> Py.dict_set d k v = d ++ [(k, v)].
Proof.
  induction d as [ | [k' v'] d IH ]; intros Hk; [ reflexivity | ].
  simpl in *. destruct (String.eqb_spec k k') as [-> | Hne].
  - exfalso. apply Hk. now left.
  - rewrite IH; [ reflexivity | tauto ].
Qed.

End Comprehensions.

(** ** The weights of the vision tower (llava_next) *)

Section VisionWeightsFacts.

Import Spec.

Variable A : Type.
Variable dflt : A.


Lemma sanitize_entry_keys (kv : string * tensor A) (es : list (string * tensor A)) :
  sanitize_entry dflt kv = Ok es ->
  map fst es = if Py.contains "position_ids" (fst kv) then [] else [fst kv].
Proof.
  unfold sanitize_entry.
  destruct (Py.contains "position_ids" (fst kv)); [ now inversion 1 | ].
  destruct (Py.contains "patch_embedding.weight" (fst kv)).
  - destruct (LlavaNext.check_array_shape (snd kv)); [ now inversion 1 | ].
    destruct (transpose dflt (snd kv) [0; 2; 3; 1]); simpl; now inversion 1.
  - now inversion 1.
Qed.

(** On a dict (distinct keys) the loop of [sanitize] is the concatenation
    of what it makes of the entries. *)
Lemma sanitize_fold (l : list (string * tensor A)) :
  forall acc : list (string * tensor A),
    NoDup (map fst l) ->
    (forall k, In k (map fst l) -> ~ In k (map fst acc)) ->
    fold_left
      (fun acc kv =>
         sanitized_weights <- acc ;;
         let k := fst kv in
         let v := snd kv in
         if Py.contains "position_ids" k
         then Ok sanitized_weights
         else if Py.contains "patch_embedding.weight" k
         then
           if LlavaNext.check_array_shape v
           then Ok (Py.dict_set sanitized_weights k v)
           else v' <- transpose dflt v [0; 2; 3; 1] ;;
                Ok (Py.dict_set sanitized_weights k v')
         else Ok (Py.dict_set sanitized_weights k v))
      l (Ok acc)
    = (es <- list_comp (sanitize_entry dflt) l ;; Ok (acc ++ concat es)).
Proof.
  induction l as [ | [k v] l IH ]; intros acc Hnd Hfresh.
  - simpl. now rewrite app_nil_r.
  - cbn [fold_left list_comp bind fst snd map] in *.
    inversion Hnd as [ | ? ? Hk Hnd' ]. subst.
    assert (Hkacc : ~ In k (map fst acc)) by (apply Hfresh; now left).
    unfold sanitize_entry at 1. cbn [fst snd].
    assert (Hraise : forall (e : exn) (l' : list (string * tensor A)),
               fold_left
                 (fun acc kv =>
                    sanitized_weights <- acc ;;
                    let k := fst kv in
                    let v := snd kv in
                    if Py.contains "position_ids" k
                    then Ok sanitized_weights
                    else if Py.contains "patch_embedding.weight" k
                    then
                      if LlavaNext.check_array_shape v
                      then Ok (Py.dict_set sanitized_weights k v)
                      else v' <- transpose dflt v [0; 2; 3; 1] ;;
                           Ok (Py.dict_set sanitized_weights k v')
                    else Ok (Py.dict_set sanitized_weights k v))
                 l' (Raise e) = Raise e).
    { intros e l'. induction l' as [ | kv l' IHl ]; [ reflexivity | ].
      simpl. exact IHl. }
    assert (Hstep : forall v0 : tensor A,
               (forall k', In k' (map fst l) ->
                           ~ In k' (map fst (acc ++ [(k, v0)])))).
    { intros v0 k' Hk'. rewrite map_app, in_app_iff. simpl.
      intros [Hin | [<- | []]].
      - apply (Hfresh k'); [ now right | exact Hin ].
      - contradiction. }
    destruct (Py.contains "position_ids" k).
    + rewrite IH; [ | assumption | intros k' Hk'; apply Hfresh; now right ].
      cbn [bind]. destruct (list_comp (sanitize_entry dflt) l); reflexivity.
    + destruct (Py.contains "patch_embedding.weight" k).
      * destruct (LlavaNext.check_array_shape v).
        -- rewrite dict_set_fresh by assumption.
           rewrite IH by (try assumption; apply Hstep).
           cbn [bind]. destruct (list_comp (sanitize_entry dflt) l);
             cbn [bind concat app]; [ | reflexivity ].
           now rewrite <- app_assoc.
        -- destruct (transpose dflt v [0; 2; 3; 1]) as [v' | e]; cbn [bind].
           ++ rewrite dict_set_fresh by assumption.
              rewrite IH by (try assumption; apply Hstep).
              destruct (list_comp (sanitize_entry dflt) l);
                cbn [bind concat app]; [ | reflexivity ].
              now rewrite <- app_assoc.
           ++ apply Hraise.
      * rewrite dict_set_fresh by assumption.
        rewrite IH by (try assumption; apply Hstep).
        cbn [bind]. destruct (list_comp (sanitize_entry dflt) l);
          cbn [bind concat app]; [ | reflexivity ].
        now rewrite <- app_assoc.
Qed.

Lemma sanitize_as_comprehension (weights : list (string * tensor A)) :
  NoDup (map fst weights) ->
  LlavaNext.VisionModel_sanitize dflt weights
  = (es <- list_comp (sanitize_entry dflt) weights ;; Ok (concat es)).
Proof.
  intros Hnd. unfold LlavaNext.VisionModel_sanitize.
  rewrite sanitize_fold; [ reflexivity | assumption | ].
  intros k _ [].
Qed.

Lemma sanitize_keys_filter (l : list (string * tensor A)) (es : list (list (string * tensor A))) :
  Forall2 (fun kv e => sanitize_entry dflt kv = Ok e) l es ->
  map fst (concat es)
  = filter (fun k => negb (Py.contains "position_ids" k)) (map fst l).
Proof.
  induction 1 as [ | kv e l es He _ IH ]; [ reflexivity | ].
  cbn [concat map filter]. rewrite map_app, IH.
  rewrite (sanitize_entry_keys _ He).
  destruct (Py.contains "position_ids" (fst kv)); reflexivity.
Qed.

Lemma NoDup_filter_keys (f : string -> bool) (l : list string) :
  NoDup l -> NoDup (filter f l).
Proof.
  induction 1 as [ | x l Hx _ IH ]; [ constructor | ].
  simpl. destruct (f x); [ | exact IH ].
  constructor; [ | exact IH ].
  intros Hin. apply filter_In in Hin. tauto.
Qed.

(** X8: [VisionModel.sanitize] of llava_next drops
    exactly the entries whose key contains "position_ids" and keeps the
    other keys in their order; an entry whose key mentions neither
    "position_ids" nor "patch_embedding.weight" is carried over
    unchanged. *)
Theorem vision_sanitize_keys (weights sanitized : list (string * tensor A)) :
  NoDup (map fst weights) ->
  LlavaNext.VisionModel_sanitize dflt weights = Ok sanitized ->
  map fst sanitized
  = filter (fun k => negb (Py.contains "position_ids" k)) (map fst weights)
  /\
  (forall k v,
     In (k, v) weights ->
     Py.contains "position_ids" k = false ->
     Py.contains "patch_embedding.weight" k = false ->
     In (k, v) sanitized).
Proof.
  intros Hnd H. rewrite sanitize_as_comprehension in H by assumption.
  apply bind_ok_inv in H. destruct H as (es & Hes & H). inversion H. subst.
  apply list_comp_ok in Hes. split.
  - now apply sanitize_keys_filter.
  - intros k v Hin Hpos Hpatch.
    destruct (Forall2_In_l (k, v) Hes Hin) as (e & He & Hconv).
    unfold sanitize_entry in Hconv. cbn [fst snd] in Hconv.
    rewrite Hpos, Hpatch in Hconv. inversion Hconv. subst e.
    apply in_concat. exists [(k, v)]. split; [ exact He | now left ].
Qed.

(** X9: a patch-embedding weight in the PyTorch
    layout (out, in, kH, kW) that fails [check_array_shape] comes out in
    the layout (out, kH, kW, in), its element [(o, h, w, c)] being the
    element [(o, c, h, w)] of the input; one that passes the check is
    kept as it is. *)
Theorem vision_sanitize_layout (weights sanitized : list (string * tensor A)) (k : string)
    (v : tensor A) (O C H W : nat) :
  NoDup (map fst weights) ->
  LlavaNext.VisionModel_sanitize dflt weights = Ok sanitized ->
  In (k, v) weights ->
  Py.contains "position_ids" k = false ->
  Py.contains "patch_embedding.weight" k = true ->
  shape v = [O; C; H; W] ->
  if LlavaNext.check_array_shape v
  then In (k, v) sanitized
  else exists v',
      In (k, v') sanitized /\
      shape v' = [O; H; W; C] /\
      forall o h w c, o < O -> h < H -> w < W -> c < C ->
        item dflt v' [o; h; w; c] = item dflt v [o; c; h; w].
Proof.
  intros Hnd Hsan Hin Hpos Hpatch Hs.
  rewrite sanitize_as_comprehension in Hsan by assumption.
  apply bind_ok_inv in Hsan. destruct Hsan as (es & Hes & Hsan).
  inversion Hsan. subst.
  apply list_comp_ok in Hes.
  destruct (Forall2_In_l (k, v) Hes Hin) as (e & He & Hconv).
  unfold sanitize_entry in Hconv. cbn [fst snd] in Hconv.
  rewrite Hpos, Hpatch in Hconv.
  destruct (LlavaNext.check_array_shape v).
  - inversion Hconv. subst e.
    apply in_concat. exists [(k, v)]. split; [ exact He | now left ].
  - destruct (transpose_channels_last dflt v Hs) as (t' & Ht & Hs' & _ & Hel).
    rewrite Ht in Hconv. cbn [bind] in Hconv. inversion Hconv. subst e.
    exists t'. split; [ | split; assumption ].
    apply in_concat. exists [(k, t')]. split; [ exact He | now left ].
Qed.

(** X10: a patch-embedding weight that is not
    four-dimensional makes [sanitize] raise: [check_array_shape] answers
    [False] and the transposition refuses the array. *)
Theorem vision_sanitize_rejects_rank (weights : list (string * tensor A)) (k : string)
    (v : tensor A) :
  NoDup (map fst weights) ->
  In (k, v) weights ->
  Py.contains "position_ids" k = false ->
  Py.contains "patch_embedding.weight" k = true ->
  length (shape v) <> 4 ->
  exists e, LlavaNext.VisionModel_sanitize dflt weights = Raise e.
Proof.
  intros Hnd Hin Hpos Hpatch Hrank.
  rewrite sanitize_as_comprehension by assumption.
  destruct (@list_comp_raise _ _ (sanitize_entry dflt) weights (k, v) Hin)
    as [e He].
  - unfold sanitize_entry. cbn [fst snd]. rewrite Hpos, Hpatch.
    assert (Hc : LlavaNext.check_array_shape v = false).
    { unfold LlavaNext.check_array_shape.
      destruct (shape v) as [ | ? [ | ? [ | ? [ | ? [ | ] ] ] ] ];
        try reflexivity.
      simpl in Hrank. congruence. }
    rewrite Hc. destruct (transpose_not_4d dflt v Hrank) as [e ->].
    exists e. reflexivity.
  - rewrite He. exists e. reflexivity.
Qed.

(** An entry of the result is left alone by a second pass when it is not a
    patch weight or passes the check. *)
Lemma sanitize_entry_stable (k : string) (v : tensor A) :
  Py.contains "position_ids" k = false ->
  (Py.contains "patch_embedding.weight" k = true ->
   LlavaNext.check_array_shape v = true) ->
  sanitize_entry dflt (k, v) = Ok [(k, v)].
Proof.
  intros Hpos Hc. unfold sanitize_entry. cbn [fst snd]. rewrite Hpos.
  destruct (Py.contains "patch_embedding.weight" k); [ | reflexivity ].
  now rewrite Hc.
Qed.

Lemma list_comp_singletons (l : list (string * tensor A)) :
  (forall kv, In kv l -> sanitize_entry dflt kv = Ok [kv]) ->
  list_comp (sanitize_entry dflt) l = Ok (map (fun kv => [kv]) l).
Proof.
  induction l as [ | kv l IH ]; intros H; [ reflexivity | ].
  simpl. rewrite (H kv (or_introl eq_refl)). cbn [bind].
  rewrite IH by (intros kv' Hkv'; apply H; now right). reflexivity.
Qed.

Lemma concat_singletons {X : Type} (l : list X) :
  concat (map (fun x => [x]) l) = l.
Proof.
  induction l as [ | x l IH ]; [ reflexivity | ]. simpl. now rewrite IH.
Qed.

(** X11: on a dict whose patch-embedding weights
    either pass [check_array_shape] or are in the PyTorch layout
    (out, in, k, k) with a square kernel no larger than the number of
    output channels, [sanitize] returns, and applying it to its own result
    changes nothing. *)
Theorem vision_sanitize_idempotent (weights : list (string * tensor A)) :
  NoDup (map fst weights) ->
  (forall k v,
     In (k, v) weights ->
     Py.contains "position_ids" k = false ->
     Py.contains "patch_embedding.weight" k = true ->
     LlavaNext.check_array_shape v = true \/
     exists O C K, shape v = [O; C; K; K] /\ K <= O) ->
  exists sanitized,
    LlavaNext.VisionModel_sanitize dflt weights = Ok sanitized /\
    LlavaNext.VisionModel_sanitize dflt sanitized = Ok sanitized.
Proof.
  intros Hnd Hpatch.
  destruct (@list_comp_total _ _ (sanitize_entry dflt) weights) as [es Hes].
  { intros [k v] Hin. unfold sanitize_entry. cbn [fst snd].
    destruct (Py.contains "position_ids" k) eqn:Hpos; [ eexists; reflexivity | ].
    destruct (Py.contains "patch_embedding.weight" k) eqn:Hp;
      [ | eexists; reflexivity ].
    destruct (LlavaNext.check_array_shape v) eqn:Hc; [ eexists; reflexivity | ].
    destruct (Hpatch k v Hin Hpos Hp) as [Hc' | (O & C & K & Hs & _)];
      [ congruence | ].
    destruct (transpose_channels_last dflt v Hs) as (t' & -> & _).
    eexists. reflexivity. }
  exists (concat es). split.
  { rewrite sanitize_as_comprehension by assumption. now rewrite Hes. }
  pose proof Hes as HF. apply list_comp_ok in HF.
  assert (Hnd' : NoDup (map fst (concat es))).
  { rewrite (sanitize_keys_filter HF). now apply NoDup_filter_keys. }
  rewrite sanitize_as_comprehension by assumption.
  rewrite list_comp_singletons; [ cbn [bind]; now rewrite concat_singletons | ].
  intros [k v'] Hin. apply in_concat in Hin. destruct Hin as (e & He & Hin).
  destruct (Forall2_In_r e HF He) as ([k0 v] & Hin0 & Hconv).
  unfold sanitize_entry in Hconv. cbn [fst snd] in Hconv.
  destruct (Py.contains "position_ids" k0) eqn:Hpos.
  { inversion Hconv. subst e. contradiction. }
  destruct (Py.contains "patch_embedding.weight" k0) eqn:Hp.
  - destruct (LlavaNext.check_array_shape v) eqn:Hc.
    + inversion Hconv. subst e. destruct Hin as [Heq | []].
      inversion Heq. subst. apply sanitize_entry_stable; [ assumption | ].
      intros _. exact Hc.
    + destruct (Hpatch k0 v Hin0 Hpos Hp) as [Hc' | (O & C & K & Hs & HK)];
        [ congruence | ].
      destruct (transpose_channels_last dflt v Hs) as (t' & Ht & Hs' & _).
      rewrite Ht in Hconv. cbn [bind] in Hconv. inversion Hconv. subst e.
      destruct Hin as [Heq | []]. inversion Heq. subst.
      apply sanitize_entry_stable; [ assumption | ].
      intros _. unfold LlavaNext.check_array_shape. rewrite Hs'.
      apply Nat.leb_le in HK. now rewrite HK, Nat.eqb_refl.
  - inversion Hconv. subst e. destruct Hin as [Heq | []].
    inversion Heq. subst. apply sanitize_entry_stable; [ assumption | ].
    intros Hp'. congruence.
Qed.

End VisionWeightsFacts.

Lemma sample_vision_weights_keys : NoDup (map fst Samples.vision_weights).
Proof.
  repeat constructor; simpl; intuition discriminate.
Qed.

Lemma vision_sanitize_keys_witness :
  exists sanitized,
    LlavaNext.VisionModel_sanitize 0%float Samples.vision_weights = Ok sanitized /\
    map fst sanitized
    = filter (fun k => negb (Py.contains "position_ids" k))
        (map fst Samples.vision_weights) /\
    (forall k v,
       In (k, v) Samples.vision_weights ->
       Py.contains "position_ids" k = false ->
       Py.contains "patch_embedding.weight" k = false ->
       In (k, v) sanitized).
Proof.
  assert (H : exists sanitized,
             LlavaNext.VisionModel_sanitize 0%float Samples.vision_weights
             = Ok sanitized).
  { eexists. vm_compute. reflexivity. }
  destruct H as (sanitized & H). exists sanitized. split; [ exact H | ].
  exact (@vision_sanitize_keys float 0%float Samples.vision_weights sanitized
           sample_vision_weights_keys H).
Defined.

Lemma vision_sanitize_layout_witness :
  exists sanitized,
    LlavaNext.VisionModel_sanitize 0%float Samples.vision_weights = Ok sanitized /\
    exists v',
      In ("vision_model.embeddings.patch_embedding.weight", v') sanitized /\
      shape v' = [2; 2; 2; 3] /\
      forall o h w c, o < 2 -> h < 2 -> w < 2 -> c < 3 ->
        item 0%float v' [o; h; w; c] = item 0%float Samples.patch_weight [o; c; h; w].
Proof.
  assert (H : exists sanitized,
             LlavaNext.VisionModel_sanitize 0%float Samples.vision_weights
             = Ok sanitized).
  { eexists. vm_compute. reflexivity. }
  destruct H as (sanitized & H). exists sanitized. split; [ exact H | ].
  exact (@vision_sanitize_layout float 0%float Samples.vision_weights sanitized
           "vision_model.embeddings.patch_embedding.weight" Samples.patch_weight
           2 3 2 2 sample_vision_weights_keys H
           (or_intror (or_introl eq_refl)) eq_refl eq_refl eq_refl).
Defined.

Lemma vision_sanitize_rejects_rank_witness :
  exists e,
    LlavaNext.VisionModel_sanitize 0%float
      [("vision_model.embeddings.patch_embedding.weight",
        mk_tensor [2; 3] [1; 2; 3; 4; 5; 6]%float)] = Raise e.
Proof.
  apply (@vision_sanitize_rejects_rank float 0%float
           [("vision_model.embeddings.patch_embedding.weight",
             mk_tensor [2; 3] [1; 2; 3; 4; 5; 6]%float)]
           "vision_model.embeddings.patch_embedding.weight"
           (mk_tensor [2; 3] [1; 2; 3; 4; 5; 6]%float)).
  - repeat constructor; simpl; intuition discriminate.
  - now left.
  - reflexivity.
  - reflexivity.
  - simpl. lia.
Defined.

Lemma vision_sanitize_idempotent_witness :
  exists sanitized,
    LlavaNext.VisionModel_sanitize 0%float Samples.vision_weights = Ok sanitized /\
    LlavaNext.VisionModel_sanitize 0%float sanitized = Ok sanitized.
Proof.
  apply (@vision_sanitize_idempotent float 0%float Samples.vision_weights).
  - exact sample_vision_weights_keys.
  - intros k v Hin Hpos Hpatch. right. exists 2, 3, 2.
    destruct Hin as [Heq | [Heq | [Heq | []]]]; inversion Heq; subst.
    + discriminate Hpos.
    + split; [ reflexivity | lia ].
    + discriminate Hpatch.
Defined.

(** ** Decoder layers and the decoder stack (deepseek_vl_v2) *)

Section LayerFacts.

Import DeepseekV2.

Variable log : float -> float.
Variable pow : float -> float -> float.
Variable Freqs : Type.
Variable yarn_ops : YarnArrays Freqs.
Variable Linear_init : nat -> nat -> bool -> result Linear.
Variable Embedding : Type.
Variable Embedding_init : nat -> nat -> result Embedding.
Variable SwitchGLU : Type.
Variable SwitchGLU_init : nat -> nat -> option nat -> result SwitchGLU.
Variable Gate : Type.
Variable MoEGate_init : LayerConfig -> result Gate.

Lemma list_comp_seq_nth {Y : Type} (f : nat -> result Y) (n : nat) :
  forall (a : nat) (ys : list Y) (d : Y) (i : nat),
    list_comp f (seq a n) = Ok ys ->
    i < n ->
    f (a + i) = Ok (nth i ys d).
Proof.
  induction n as [ | n IH ]; intros a ys d i H Hi; [ lia | ].
  simpl in H. apply bind_ok_inv in H. destruct H as (y & Hy & H).
  apply bind_ok_inv in H. destruct H as (ys' & Hys & H).
  inversion H. subst ys. destruct i as [ | i ].
  - now rewrite Nat.add_0_r.
  - simpl. rewrite <- Nat.add_succ_comm. apply IH; [ exact Hys | lia ].
Qed.

Lemma layer_is_sparse_true (config : LayerConfig) (idx : nat) :
  layer_is_sparse config idx = Ok true <->
  config_n_routed_experts config <> None /\
  (first_k_dense_replace config <= Z.of_nat idx)%Z /\
  moe_layer_freq config <> 0%Z /\
  (Z.of_nat idx mod moe_layer_freq config = 0)%Z.
Proof.
  unfold layer_is_sparse.
  destruct (config_n_routed_experts config) as [n | ].
  - destruct (Z.leb_spec (first_k_dense_replace config) (Z.of_nat idx)).
    + destruct (Z.eqb_spec (moe_layer_freq config) 0).
      * split; [ discriminate | tauto ].
      * destruct (Z.eqb_spec (Z.of_nat idx mod moe_layer_freq config) 0).
        -- split; [ intros _ | reflexivity ].
           repeat split; try assumption. discriminate.
        -- split; [ discriminate | tauto ].
    + split; [ discriminate | intros (_ & H1 & _); lia ].
  - split; [ discriminate | intros (H1 & _); congruence ].
Qed.

Lemma decoder_layer_mlp (config : LayerConfig) (idx : nat)
    (layer : DeepseekV2DecoderLayer Freqs SwitchGLU Gate) :
  DeepseekV2DecoderLayer_init log pow yarn_ops Linear_init SwitchGLU_init
    MoEGate_init config idx = Ok layer ->
  exists sparse,
    layer_is_sparse config idx = Ok sparse /\
    match mlp layer with
    | SparseMLP _ => sparse = true
    | DenseMLP _ => sparse = false
    end.
Proof.
  unfold DeepseekV2DecoderLayer_init. intros H.
  apply bind_ok_inv in H. destruct H as (att & _ & H).
  apply bind_ok_inv in H. destruct H as (m & Hm & H).
  inversion H. cbn [mlp]. clear H.
  apply bind_ok_inv in Hm. destruct Hm as (sparse & Hsp & Hm).
  exists sparse. split; [ exact Hsp | ].
  destruct sparse.
  - apply bind_ok_inv in Hm. destruct Hm as (? & _ & Hm). now inversion Hm.
  - apply bind_ok_inv in Hm. destruct Hm as (? & _ & Hm). now inversion Hm.
Qed.

(** X12: when the decoder stack can be built it has
    [num_hidden_layers] layers, and layer [idx] has the mixture of experts
    exactly when experts are configured, [idx] is at least
    [first_k_dense_replace] and [idx] is a multiple of [moe_layer_freq];
    every other layer, so each of the first [first_k_dense_replace] ones,
    has the dense MLP. *)
Theorem decoder_stack_layer_kinds (config : LayerConfig)
    (model : DeepseekV2Model Freqs Embedding SwitchGLU Gate) :
  DeepseekV2Model_init log pow yarn_ops Linear_init Embedding_init
    SwitchGLU_init MoEGate_init config = Ok model ->
  length (model_layers model) = num_hidden_layers config /\
  forall d idx, idx < num_hidden_layers config ->
    match mlp (nth idx (model_layers model) d) with
    | SparseMLP _ =>
        config_n_routed_experts config <> None /\
        (first_k_dense_replace config <= Z.of_nat idx)%Z /\
        moe_layer_freq config <> 0%Z /\
        (Z.of_nat idx mod moe_layer_freq config = 0)%Z
    | DenseMLP _ =>
        config_n_routed_experts config = None \/
        (Z.of_nat idx < first_k_dense_replace config)%Z \/
        (Z.of_nat idx mod moe_layer_freq config <> 0)%Z
    end.
Proof.
  unfold DeepseekV2Model_init. intros H.
  apply bind_ok_inv in H. destruct H as (emb & _ & H).
  apply bind_ok_inv in H. destruct H as (layers & Hl & H).
  inversion H. cbn [model_layers]. clear H. split.
  - rewrite (list_comp_length _ _ Hl). apply length_seq.
  - intros d idx Hidx.
    pose proof (list_comp_seq_nth _ _ d Hl Hidx) as Hi. cbn [Nat.add] in Hi.
    destruct (decoder_layer_mlp _ _ Hi) as (sparse & Hsp & Hk).
    destruct (mlp (nth idx layers d)).
    + subst sparse. now apply layer_is_sparse_true.
    + subst sparse. unfold layer_is_sparse in Hsp.
      destruct (config_n_routed_experts config); [ | now left ].
      destruct (Z.leb_spec (first_k_dense_replace config) (Z.of_nat idx));
        [ | right; now left ].
      destruct (Z.eqb_spec (moe_layer_freq config) 0); [ discriminate | ].
      destruct (Z.eqb_spec (Z.of_nat idx mod moe_layer_freq config) 0);
        [ discriminate | ].
      right. now right.
Qed.

(** X13: with experts configured and [moe_layer_freq] 0,
    a stack with a layer [idx] at or beyond [first_k_dense_replace] cannot
    be built: the test [layer_idx % moe_layer_freq] divides by zero. *)
Theorem decoder_stack_zero_frequency (config : LayerConfig) (idx : nat) :
  config_n_routed_experts config <> None ->
  moe_layer_freq config = 0%Z ->
  idx < num_hidden_layers config ->
  (first_k_dense_replace config <= Z.of_nat idx)%Z ->
  exists e,
    DeepseekV2Model_init log pow yarn_ops Linear_init Embedding_init
      SwitchGLU_init MoEGate_init config = Raise e.
Proof.
  intros Hn Hf Hidx Hk. unfold DeepseekV2Model_init.
  destruct (Embedding_init _ _) as [emb | e]; cbn [bind];
    [ | eexists; reflexivity ].
  destruct (@list_comp_raise _ _
              (DeepseekV2DecoderLayer_init log pow yarn_ops Linear_init
                 SwitchGLU_init MoEGate_init config)
              (seq 0 (num_hidden_layers config)) idx) as [e He].
  - apply in_seq. lia.
  - unfold DeepseekV2DecoderLayer_init.
    match goal with
    | |- exists e, bind ?c _ = Raise e =>
        destruct c; cbn [bind]; [ | eexists; reflexivity ]
    end.
    unfold layer_is_sparse.
    destruct (config_n_routed_experts config); [ | congruence ].
    destruct (Z.leb_spec (first_k_dense_replace config) (Z.of_nat idx));
      [ | lia ].
    rewrite Hf. cbn [Z.eqb bind]. eexists. reflexivity.
  - rewrite He. cbn [bind]. exists e. reflexivity.
Qed.

(** X14: the property [head_dim] of the language model against
    the attention modules its layers hold: for latent attention it is the
    pair of the module's query head dimension and [v_head_dim]; otherwise
    it is [hidden_size // num_key_value_heads], whereas [LlamaAttention]
    works with [hidden_size // num_attention_heads]: the two agree when
    the two head counts do. *)
Theorem head_dim_against_attention (config : LayerConfig) (idx : nat)
    (layer : DeepseekV2DecoderLayer Freqs SwitchGLU Gate) :
  DeepseekV2DecoderLayer_init log pow yarn_ops Linear_init SwitchGLU_init
    MoEGate_init config idx = Ok layer ->
  match self_attn layer with
  | LatentAttention a =>
      LanguageModel_head_dim config
      = Ok (HeadDimPair (dsa_q_head_dim a)
              (v_head_dim (attention_config config)))
  | GroupedAttention a =>
      la_head_dim a
      = hidden_size (attention_config config)
        / num_attention_heads (attention_config config) /\
      (num_key_value_heads (attention_config config)
       = num_attention_heads (attention_config config) ->
       LanguageModel_head_dim config = Ok (HeadDim (la_head_dim a)))
  end.
Proof.
  unfold DeepseekV2DecoderLayer_init, LanguageModel_head_dim. intros H.
  apply bind_ok_inv in H. destruct H as (att & Hatt & H).
  apply bind_ok_inv in H. destruct H as (m & _ & H).
  inversion H. cbn [self_attn]. clear H.
  destruct (String.eqb (attn_type config) "DeepseekV2Attention").
  - apply bind_ok_inv in Hatt. destruct Hatt as (a & Ha & Hatt).
    inversion Hatt. subst att. f_equal. f_equal.
    unfold DeepseekV2Attention_init in Ha.
    apply bind_ok_inv in Ha. destruct Ha as (sc & _ & Ha).
    destruct (rope_scaling (attention_config config)) as [rs | ].
    + destruct (Py.truthy (Py.get rs "mscale_all_dim" (Py.Num 0))).
      * apply bind_ok_inv in Ha. destruct Ha as (ms & _ & Ha).
        apply bind_ok_inv in Ha. destruct Ha as (emb & _ & Ha).
        now inversion Ha.
      * now inversion Ha.
    + now inversion Ha.
  - apply bind_ok_inv in Hatt. destruct Hatt as (a & Ha & Hatt).
    inversion Hatt. subst att.
    unfold LlamaAttention_init in Ha.
    apply bind_ok_inv in Ha. destruct Ha as (hd & Hhd & Ha).
    apply bind_ok_inv in Ha. destruct Ha as (sc & _ & Ha).
    cbn [bind] in Ha.
    apply bind_ok_inv in Ha. destruct Ha as (rsc & _ & Ha).
    inversion Ha. cbn [la_head_dim]. clear Ha.
    unfold Py.int_floordiv in Hhd |- *.
    destruct (num_attention_heads (attention_config config) =? 0) eqn:E0;
      [ discriminate | ].
    inversion Hhd. split; [ reflexivity | ].
    intros ->. rewrite E0. reflexivity.
Qed.

End LayerFacts.

Section ForwardFacts.

Import DeepseekV2.

Variable Tokens Hidden Mask CacheEntry Layer : Type.
Variable embed_tokens : Tokens -> Hidden.
Variable create_attention_mask : Hidden -> list (option CacheEntry) -> Mask.
Variable layer_call :
  Layer -> Hidden -> Mask -> option CacheEntry -> result Hidden.
Variable norm : Hidden -> Hidden.

Lemma combine_firstn_length {X Y : Type} (l : list X) (l' : list Y) :
  combine (firstn (length l') l) l' = combine l l'.
Proof.
  revert l'. induction l as [ | x l IH ]; intros [ | y l' ]; try reflexivity.
  simpl. now rewrite IH.
Qed.

(** X15: the decoder stack pairs its layers with the entries of
    the cache list and stops at the shorter of the two: with a cache list
    shorter than the layer list only the first [len(cache)] layers are
    applied, the rest are skipped without an error, and with an empty
    cache list the embeddings go straight to the final norm. *)
Theorem decoder_stack_stops_at_cache (layers : list Layer) (x : Tokens)
    (mask : option Mask) (inputs_embeds : option Hidden)
    (cache : list (option CacheEntry)) :
  DeepseekV2Model_call embed_tokens create_attention_mask layer_call norm
    layers x mask inputs_embeds (Some cache)
  = DeepseekV2Model_call embed_tokens create_attention_mask layer_call norm
      (firstn (length cache) layers) x mask inputs_embeds (Some cache)
  /\
  DeepseekV2Model_call embed_tokens create_attention_mask layer_call norm
    layers x mask inputs_embeds (Some [])
  = Ok (norm (match inputs_embeds with
              | None => embed_tokens x
              | Some e => e
              end)).
Proof.
  unfold DeepseekV2Model_call. split.
  - now rewrite combine_firstn_length.
  - rewrite combine_nil. reflexivity.
Qed.

End ForwardFacts.

Lemma decoder_stack_layer_kinds_witness :
  let config := Samples.layer_config "DeepseekV2Attention" 2 in
  exists model,
    DeepseekV2.DeepseekV2Model_init Samples.log Samples.pow Samples.yarn_ops
      Samples.Linear_init Samples.Embedding_init Samples.SwitchGLU_init
      Samples.MoEGate_init config = Ok model /\
    length (DeepseekV2.model_layers model) = 4 /\
    forall d idx, idx < 4 ->
      match DeepseekV2.mlp (nth idx (DeepseekV2.model_layers model) d) with
      | DeepseekV2.SparseMLP _ =>
          DeepseekV2.config_n_routed_experts config <> None /\
          (1 <= Z.of_nat idx)%Z /\ 2%Z <> 0%Z /\ (Z.of_nat idx mod 2 = 0)%Z
      | DeepseekV2.DenseMLP _ =>
          DeepseekV2.config_n_routed_experts config = None \/
          (Z.of_nat idx < 1)%Z \/ (Z.of_nat idx mod 2 <> 0)%Z
      end.
Proof.
  intros config.
  assert (H : exists model,
             DeepseekV2.DeepseekV2Model_init Samples.log Samples.pow
               Samples.yarn_ops Samples.Linear_init Samples.Embedding_init
               Samples.SwitchGLU_init Samples.MoEGate_init config = Ok model).
  { eexists. vm_compute. reflexivity. }
  destruct H as (model & H). exists model. split; [ exact H | ].
  exact (decoder_stack_layer_kinds _ _ _ _ _ _ _ _ H).
Defined.

Lemma decoder_stack_zero_frequency_witness :
  exists e,
    DeepseekV2.DeepseekV2Model_init Samples.log Samples.pow Samples.yarn_ops
      Samples.Linear_init Samples.Embedding_init Samples.SwitchGLU_init
      Samples.MoEGate_init (Samples.layer_config "DeepseekV2Attention" 0)
    = Raise e.
Proof.
  apply (@decoder_stack_zero_frequency Samples.log Samples.pow unit
           Samples.yarn_ops Samples.Linear_init _ Samples.Embedding_init
           _ Samples.SwitchGLU_init _ Samples.MoEGate_init
           (Samples.layer_config "DeepseekV2Attention" 0) 1).
  - discriminate.
  - reflexivity.
  - vm_compute. lia.
  - vm_compute. discriminate.
Defined.

Lemma head_dim_against_attention_witness :
  let config := Samples.layer_config "LlamaAttention" 1 in
  exists layer,
    DeepseekV2.DeepseekV2DecoderLayer_init Samples.log Samples.pow
      Samples.yarn_ops Samples.Linear_init Samples.SwitchGLU_init
      Samples.MoEGate_init config 0 = Ok layer /\
    match DeepseekV2.self_attn layer with
    | DeepseekV2.LatentAttention a =>
        DeepseekV2.LanguageModel_head_dim config
        = Ok (DeepseekV2.HeadDimPair (DeepseekV2.dsa_q_head_dim a) 128)
    | DeepseekV2.GroupedAttention a =>
        DeepseekV2.la_head_dim a = 2048 / 16 /\
        (16 = 16 ->
         DeepseekV2.LanguageModel_head_dim config
         = Ok (DeepseekV2.HeadDim (DeepseekV2.la_head_dim a)))
    end.
Proof.
  intros config.
  assert (H : exists layer,
             DeepseekV2.DeepseekV2DecoderLayer_init Samples.log Samples.pow
               Samples.yarn_ops Samples.Linear_init Samples.SwitchGLU_init
               Samples.MoEGate_init config 0 = Ok layer).
  { eexists. vm_compute. reflexivity. }
  destruct H as (layer & H). exists layer. split; [ exact H | ].
  exact (head_dim_against_attention _ _ _ _ _ _ _ _ H).
Defined.

(** ** Keys of the expert weights *)

Section KeyFacts.

Import Spec.

Lemma append_assoc (a b c : string) :
  ((a ++ b) ++ c)%string = (a ++ (b ++ c))%string.
Proof.
  induction a as [ | x a IH ]; [ reflexivity | ]. simpl. now rewrite IH.
Qed.

Lemma append_inj_l (s a b : string) :
  (s ++ a)%string = (s ++ b)%string -> a = b.
Proof.
  induction s as [ | x s IH ]; simpl; [ trivial | ].
  intros H. inversion H. now apply IH.
Qed.

Lemma string_of_uint_digits (u : Decimal.uint) :
  all_digits (NilEmpty.string_of_uint u) = true.
Proof.
  induction u; simpl; try reflexivity; exact IHu.
Qed.

Lemma str_of_nat_digits (n : nat) : all_digits (Py.str_of_nat n) = true.
Proof. apply string_of_uint_digits. Qed.

Lemma str_of_nat_inj (n m : nat) : Py.str_of_nat n = Py.str_of_nat m -> n = m.
Proof.
  unfold Py.str_of_nat. intros H.
  apply Unsigned.to_uint_inj.
  pose proof (NilEmpty.usu (Nat.to_uint n)) as Hn.
  pose proof (NilEmpty.usu (Nat.to_uint m)) as Hm.
  rewrite H in Hn. rewrite Hn in Hm. now inversion Hm.
Qed.

(** Two digit strings followed by a dot and a rest are equal only part
    by part. *)
Lemma digits_dot (d d' r r' : string) :
  all_digits d = true -> all_digits d' = true ->
  (d ++ String "."%char r)%string = (d' ++ String "."%char r')%string ->
  d = d' /\ r = r'.
Proof.
  revert d'. induction d as [ | c d IH ]; intros [ | c' d' ] Hd Hd' H;
    simpl in *.
  - inversion H. split; reflexivity.
  - inversion H. subst c'. discriminate Hd'.
  - inversion H. subst c. discriminate Hd.
  - inversion H. subst c'.
    apply andb_true_iff in Hd, Hd'.
    destruct (IH d' (proj2 Hd) (proj2 Hd') H2) as [-> ->].
    split; reflexivity.
Qed.

Lemma suffix_inj (m k m' k' : string) :
  In m (map snd DeepseekV2.projections) -> In k DeepseekV2.kinds ->
  In m' (map snd DeepseekV2.projections) -> In k' DeepseekV2.kinds ->
  (m ++ "." ++ k)%string = (m' ++ "." ++ k')%string ->
  m = m' /\ k = k'.
Proof.
  simpl. intros Hm Hk Hm' Hk' H.
  repeat match goal with
         | H : _ \/ _ |- _ => destruct H
         | H : False |- _ => contradiction
         end; subst; simpl in H;
    first [ split; reflexivity | discriminate H ].
Qed.

Lemma expert_weight_key_inj (l e l' e' : nat) (m k m' k' : string) :
  In m (map snd DeepseekV2.projections) -> In k DeepseekV2.kinds ->
  In m' (map snd DeepseekV2.projections) -> In k' DeepseekV2.kinds ->
  expert_weight_key l e m k = expert_weight_key l' e' m' k' ->
  l = l' /\ e = e' /\ m = m' /\ k = k'.
Proof.
  intros Hm Hk Hm' Hk'.
  unfold expert_weight_key, DeepseekV2.expert_key, DeepseekV2.layer_prefix.
  rewrite !append_assoc. intros H. apply append_inj_l in H.
  change (".mlp.experts." ++ ?x)%string
    with (String "."%char ("mlp.experts." ++ x))%string in H.
  apply digits_dot in H; try apply str_of_nat_digits.
  destruct H as [Hl H]. apply str_of_nat_inj in Hl.
  apply append_inj_l in H.
  change ("." ++ ?x)%string with (String "."%char x) in H.
  apply digits_dot in H; try apply str_of_nat_digits.
  destruct H as [He H]. apply str_of_nat_inj in He.
  destruct (suffix_inj Hm Hk Hm' Hk' H) as [-> ->].
  repeat split; assumption.
Qed.

Lemma switch_weight_key_inj (l l' : nat) (m k m' k' : string) :
  In m (map snd DeepseekV2.projections) -> In k DeepseekV2.kinds ->
  In m' (map snd DeepseekV2.projections) -> In k' DeepseekV2.kinds ->
  switch_weight_key l m k = switch_weight_key l' m' k' ->
  l = l' /\ m = m' /\ k = k'.
Proof.
  intros Hm Hk Hm' Hk'.
  unfold switch_weight_key, DeepseekV2.switch_key, DeepseekV2.layer_prefix.
  rewrite !append_assoc. intros H. apply append_inj_l in H.
  change (".mlp.switch_mlp." ++ ?x)%string
    with (String "."%char ("mlp.switch_mlp." ++ x))%string in H.
  apply digits_dot in H; try apply str_of_nat_digits.
  destruct H as [Hl H]. apply str_of_nat_inj in Hl.
  apply append_inj_l in H.
  destruct (suffix_inj Hm Hk Hm' Hk' H) as [-> ->].
  repeat split; assumption.
Qed.

Lemma expert_switch_neq (l e l' : nat) (m k m' k' : string) :
  expert_weight_key l e m k <> switch_weight_key l' m' k'.
Proof.
  unfold expert_weight_key, switch_weight_key, DeepseekV2.expert_key,
    DeepseekV2.switch_key, DeepseekV2.layer_prefix.
  rewrite !append_assoc. intros H. apply append_inj_l in H.
  change (".mlp.experts." ++ ?x)%string
    with (String "."%char ("mlp.experts." ++ x))%string in H.
  change (".mlp.switch_mlp." ++ ?x)%string
    with (String "."%char ("mlp.switch_mlp." ++ x))%string in H.
  apply digits_dot in H; try apply str_of_nat_digits.
  destruct H as [_ H]. simpl in H. discriminate H.
Qed.

End KeyFacts.

(** ** Dicts and loops over a store *)

Section DictFacts.

Variable V : Type.

Lemma lookup_none_iff (d : Py.dict_of V) (k : string) :
  Py.dict_lookup d k = None <-> ~ In k (map fst d).
Proof.
  induction d as [ | [k' v] d IH ]; simpl.
  - tauto.
  - destruct (String.eqb_spec k k') as [-> | Hne].
    + split; [ discriminate | intros H; exfalso; apply H; now left ].
    + rewrite IH. split; intros H; [ intros [Heq | Hin] | ]; try tauto.
      congruence.
Qed.

Lemma lookup_remove_other (d : Py.dict_of V) (k k' : string) :
  k <> k' ->
  Py.dict_lookup (Py.dict_remove d k') k = Py.dict_lookup d k.
Proof.
  intros Hne. induction d as [ | [k0 v] d IH ]; [ reflexivity | ].
  simpl. destruct (String.eqb_spec k' k0) as [-> | Hne'].
  - destruct (String.eqb_spec k k0); [ contradiction | reflexivity ].
  - simpl. now rewrite IH.
Qed.

Lemma keys_remove_incl (d : Py.dict_of V) (k x : string) :
  In x (map fst (Py.dict_remove d k)) -> In x (map fst d).
Proof.
  induction d as [ | [k0 v] d IH ]; [ trivial | ].
  simpl. destruct (String.eqb k k0); simpl; tauto.
Qed.

Lemma NoDup_remove (d : Py.dict_of V) (k : string) :
  NoDup (map fst d) -> NoDup (map fst (Py.dict_remove d k)).
Proof.
  induction d as [ | [k0 v] d IH ]; [ trivial | ].
  simpl. intros Hnd. inversion Hnd as [ | ? ? Hk Hnd' ]. subst.
  destruct (String.eqb k k0); [ assumption | ].
  simpl. constructor; [ | now apply IH ].
  intros Hin. apply Hk. eapply keys_remove_incl. exact Hin.
Qed.

Lemma lookup_remove_same (d : Py.dict_of V) (k : string) :
  NoDup (map fst d) -> Py.dict_lookup (Py.dict_remove d k) k = None.
Proof.
  induction d as [ | [k0 v] d IH ]; [ reflexivity | ].
  simpl. intros Hnd. inversion Hnd as [ | ? ? Hk Hnd' ]. subst.
  destruct (String.eqb_spec k k0) as [-> | Hne].
  - now apply lookup_none_iff.
  - simpl. destruct (String.eqb_spec k k0); [ contradiction | now apply IH ].
Qed.

Lemma lookup_set_same (d : Py.dict_of V) (k : string) (v : V) :
  Py.dict_lookup (Py.dict_set d k v) k = Some v.
Proof.
  induction d as [ | [k0 v0] d IH ]; simpl.
  - now rewrite String.eqb_refl.
  - destruct (String.eqb_spec k k0) as [-> | Hne]; simpl.
    + now rewrite String.eqb_refl.
    + destruct (String.eqb_spec k k0); [ contradiction | exact IH ].
Qed.

Lemma lookup_set_other (d : Py.dict_of V) (k k' : string) (v : V) :
  k <> k' ->
  Py.dict_lookup (Py.dict_set d k' v) k = Py.dict_lookup d k.
Proof.
  intros Hne. induction d as [ | [k0 v0] d IH ]; simpl.
  - destruct (String.eqb_spec k k'); [ contradiction | reflexivity ].
  - destruct (String.eqb_spec k' k0) as [-> | Hne']; simpl.
    + destruct (String.eqb_spec k k0); [ contradiction | reflexivity ].
    + now rewrite IH.
Qed.

Lemma keys_set (d : Py.dict_of V) (k x : string) (v : V) :
  In x (map fst (Py.dict_set d k v)) -> x = k \/ In x (map fst d).
Proof.
  induction d as [ | [k0 v0] d IH ]; simpl.
  - intros [<- | []]. now left.
  - destruct (String.eqb_spec k k0) as [-> | Hne]; simpl.
    + intros [<- | Hin]; [ now left | right; now right ].
    + intros [<- | Hin]; [ right; now left | ].
      destruct (IH Hin) as [-> | Hin']; [ now left | right; now right ].
Qed.

Lemma NoDup_set (d : Py.dict_of V) (k : string) (v : V) :
  NoDup (map fst d) -> NoDup (map fst (Py.dict_set d k v)).
Proof.
  induction d as [ | [k0 v0] d IH ]; simpl.
  - intros _. constructor; [ intros [] | constructor ].
  - intros Hnd. inversion Hnd as [ | ? ? Hk Hnd' ]. subst.
    destruct (String.eqb_spec k k0) as [-> | Hne]; simpl.
    + constructor; assumption.
    + constructor; [ | now apply IH ].
      intros Hin. apply keys_set in Hin. destruct Hin as [-> | Hin];
        [ congruence | contradiction ].
Qed.

End DictFacts.

Section LoopFacts.

Variable S X : Type.

Lemma st_for_app (l1 l2 : list X) (body : X -> Py.stateful S unit) (s : S) :
  Py.st_for (l1 ++ l2) body s
  = match Py.st_for l1 body s with
    | (s1, Ok _) => Py.st_for l2 body s1
    | (s1, Raise e) => (s1, Raise e)
    end.
Proof.
  revert s. induction l1 as [ | x l1 IH ]; intros s; [ reflexivity | ].
  simpl. unfold Py.st_bind. destruct (body x s) as [s' [[] | e]].
  - apply IH.
  - reflexivity.
Qed.

Lemma st_for_ext (l : list X) (body body' : X -> Py.stateful S unit) (s : S) :
  (forall x s', body x s' = body' x s') ->
  Py.st_for l body s = Py.st_for l body' s.
Proof.
  intros H. revert s. induction l as [ | x l IH ]; intros s; [ reflexivity | ].
  simpl. unfold Py.st_bind. rewrite H.
  destruct (body' x s) as [s' [[] | e]]; [ apply IH | reflexivity ].
Qed.

Lemma st_for_preserves (P : S -> Prop) (l : list X)
    (body : X -> Py.stateful S unit) :
  (forall x s, In x l -> P s -> P (fst (body x s))) ->
  forall s, P s -> P (fst (Py.st_for l body s)).
Proof.
  induction l as [ | x l IH ]; intros Hb s Hs; [ exact Hs | ].
  simpl. unfold Py.st_bind.
  pose proof (Hb x s (or_introl eq_refl) Hs) as Hx.
  destruct (body x s) as [s' [[] | e]]; simpl in *.
  - apply IH; [ | exact Hx ]. intros x' s'' Hin. apply Hb. now right.
  - exact Hx.
Qed.

End LoopFacts.

Lemma st_for_flat_map {S X Y : Type} (f : X -> list Y) (l : list X)
    (body : Y -> Py.stateful S unit) (s : S) :
  Py.st_for (flat_map f l) body s
  = Py.st_for l (fun x => Py.st_for (f x) body) s.
Proof.
  revert s. induction l as [ | x l IH ]; intros s; [ reflexivity | ].
  simpl. rewrite st_for_app. unfold Py.st_bind.
  destruct (Py.st_for (f x) body s) as [s' [[] | e]];
    [ apply IH | reflexivity ].
Qed.

Lemma st_for_map {S X Y : Type} (g : X -> Y) (l : list X)
    (body : Y -> Py.stateful S unit) (s : S) :
  Py.st_for (map g l) body s = Py.st_for l (fun x => body (g x)) s.
Proof.
  revert s. induction l as [ | x l IH ]; intros s; [ reflexivity | ].
  simpl. unfold Py.st_bind.
  destruct (body (g x) s) as [s' [[] | e]]; [ apply IH | reflexivity ].
Qed.

(** ** Stacking the expert weights (deepseek_vl_v2) *)

Section SanitizeFacts.

Import Spec.
Import DeepseekV2.

Variable A : Type.
Variable n_routed : option nat.

Lemma pop_experts_cons (p m k : string) (e : nat) (es : list nat)
    (s : weights A) :
  pop_experts p m k (e :: es) s
  = match Py.dict_lookup s (expert_key p e m k) with
    | None => (s, Raise (KeyError (expert_key p e m k)))
    | Some v =>
        match pop_experts p m k es (Py.dict_remove s (expert_key p e m k)) with
        | (s', Ok vs) => (s', Ok (v :: vs))
        | (s', Raise ex) => (s', Raise ex)
        end
    end.
Proof.
  cbn [pop_experts]. unfold Py.st_bind, Py.dict_pop, Py.st_ret.
  destruct (Py.dict_lookup s (expert_key p e m k)); [ | reflexivity ].
  destruct (pop_experts p m k es (Py.dict_remove s (expert_key p e m k)))
    as [s' [vs | ex]]; reflexivity.
Qed.

Lemma join_experts_eq (p m k : string) (s : weights A) :
  join_experts n_routed p m k s
  = match Py.dict_lookup s (expert_key p 0 m k) with
    | None => (s, Ok tt)
    | Some _ =>
        match n_routed with
        | None =>
            (s, Raise (TypeError
                   "'NoneType' object cannot be interpreted as an integer"))
        | Some n =>
            match pop_experts p m k (seq 0 n) s with
            | (s', Ok to_join) =>
                match stack to_join with
                | Ok t => (Py.dict_set s' (switch_key p m k) t, Ok tt)
                | Raise ex => (s', Raise ex)
                end
            | (s', Raise ex) => (s', Raise ex)
            end
        end
    end.
Proof.
  unfold join_experts, Py.dict_mem, Py.st_bind.
  destruct (Py.dict_lookup s (expert_key p 0 m k)); [ | reflexivity ].
  destruct n_routed as [n | ]; [ | reflexivity ].
  destruct (pop_experts p m k (seq 0 n) s) as [s' [vs | ex]]; reflexivity.
Qed.

Lemma expert_key_inj_e (p m k : string) (e e' : nat) :
  expert_key p e m k = expert_key p e' m k -> e = e'.
Proof.
  unfold expert_key. intros H. apply append_inj_l in H.
  apply append_inj_l in H.
  change ("." ++ ?x)%string with (String "."%char x) in H.
  apply digits_dot in H; try apply str_of_nat_digits.
  apply str_of_nat_inj. tauto.
Qed.

(** The comprehension that pops the experts: what it leaves alone, what it
    returns and when it raises. *)
Lemma pop_experts_spec (p m k : string) (es : list nat) :
  forall s : weights A,
    NoDup (map fst s) -> NoDup es ->
    NoDup (map fst (fst (pop_experts p m k es s))) /\
    (forall key, (forall e, In e es -> key <> expert_key p e m k) ->
       Py.dict_lookup (fst (pop_experts p m k es s)) key = Py.dict_lookup s key) /\
    match snd (pop_experts p m k es s) with
    | Ok vs =>
        Forall2 (fun e v => Py.dict_lookup s (expert_key p e m k) = Some v) es vs /\
        (forall e, In e es ->
           Py.dict_lookup (fst (pop_experts p m k es s)) (expert_key p e m k) = None)
    | Raise _ =>
        exists e, In e es /\ Py.dict_lookup s (expert_key p e m k) = None
    end.
Proof.
  induction es as [ | e es IH ]; intros s Hnd Hes.
  - cbn. repeat split; try assumption; try constructor. intros e [].
  - rewrite pop_experts_cons.
    destruct (Py.dict_lookup s (expert_key p e m k)) as [v | ] eqn:Hv.
    + inversion Hes as [ | ? ? He Hes' ]. subst.
      destruct (IH (Py.dict_remove s (expert_key p e m k))
                  (NoDup_remove _ _ Hnd) Hes') as (Hnd' & Hframe & Hres).
      destruct (pop_experts p m k es (Py.dict_remove s (expert_key p e m k)))
        as [s' [vs | ex]]; cbn [fst snd] in *.
      * split; [ exact Hnd' | ]. split.
        -- intros key Hkey. rewrite Hframe.
           ++ apply lookup_remove_other. apply Hkey. now left.
           ++ intros e' He'. apply Hkey. now right.
        -- destruct Hres as [HF Hnone]. split.
           ++ constructor; [ exact Hv | ].
              clear - HF He.
              induction HF as [ | e' v' es vs Hv' _ IHF ]; constructor.
              ** rewrite lookup_remove_other in Hv'; [ exact Hv' | ].
                 intros Heq. apply expert_key_inj_e in Heq. subst e'.
                 apply He. now left.
              ** apply IHF. intros Hin. apply He. now right.
           ++ intros e' [<- | Hin].
              ** rewrite Hframe.
                 --- now apply lookup_remove_same.
                 --- intros e' He' Heq. apply expert_key_inj_e in Heq.
                     subst e'. contradiction.
              ** now apply Hnone.
      * split; [ exact Hnd' | ]. split.
        -- intros key Hkey. rewrite Hframe.
           ++ apply lookup_remove_other. apply Hkey. now left.
           ++ intros e' He'. apply Hkey. now right.
        -- destruct Hres as (e' & He' & Hnone). exists e'. split; [ now right | ].
           rewrite lookup_remove_other in Hnone; [ exact Hnone | ].
           intros Heq. apply expert_key_inj_e in Heq. subst e'. contradiction.
    + cbn [fst snd]. split; [ exact Hnd | ]. split; [ reflexivity | ].
      exists e. split; [ now left | exact Hv ].
Qed.

Lemma expert_switch_neq_prefix (p m k : string) (e : nat) :
  expert_key p e m k <> switch_key p m k.
Proof.
  unfold expert_key, switch_key. intros H. apply append_inj_l in H.
  simpl in H. discriminate H.
Qed.

Lemma join_experts_nodup (p m k : string) (s : weights A) :
  NoDup (map fst s) ->
  NoDup (map fst (fst (join_experts n_routed p m k s))).
Proof.
  intros Hnd. rewrite join_experts_eq.
  destruct (Py.dict_lookup s (expert_key p 0 m k)); [ | exact Hnd ].
  destruct n_routed as [n | ]; [ | exact Hnd ].
  destruct (pop_experts_spec p m k s Hnd (seq_NoDup n 0)) as (Hnd' & _ & _).
  destruct (pop_experts p m k (seq 0 n) s) as [s' [vs | ex]];
    cbn [fst] in *; [ | exact Hnd' ].
  destruct (stack vs); cbn [fst]; [ now apply NoDup_set | exact Hnd' ].
Qed.

Lemma join_experts_frame (p m k : string) (s : weights A) (key : string) :
  NoDup (map fst s) ->
  (forall e, key <> expert_key p e m k) ->
  key <> switch_key p m k ->
  Py.dict_lookup (fst (join_experts n_routed p m k s)) key
  = Py.dict_lookup s key.
Proof.
  intros Hnd He Hs. rewrite join_experts_eq.
  destruct (Py.dict_lookup s (expert_key p 0 m k)); [ | reflexivity ].
  destruct n_routed as [n | ]; [ | reflexivity ].
  destruct (pop_experts_spec p m k s Hnd (seq_NoDup n 0)) as (_ & Hframe & _).
  specialize (Hframe key (fun e _ => He e)).
  destruct (pop_experts p m k (seq 0 n) s) as [s' [vs | ex]];
    cbn [fst] in *; [ | exact Hframe ].
  destruct (stack vs); cbn [fst]; [ | exact Hframe ].
  now rewrite lookup_set_other.
Qed.

Lemma join_experts_absent (p m k : string) (s : weights A) :
  Py.dict_lookup s (expert_key p 0 m k) = None ->
  join_experts n_routed p m k s = (s, Ok tt).
Proof.
  intros H. rewrite join_experts_eq. now rewrite H.
Qed.

Lemma stack_nil : @stack A [] = Raise (ValueError "[stack] No arrays provided for stacking.").
Proof. reflexivity. Qed.

Lemma join_experts_ok_absent (p m k : string) (s : weights A) :
  NoDup (map fst s) ->
  snd (join_experts n_routed p m k s) = Ok tt ->
  Py.dict_lookup (fst (join_experts n_routed p m k s)) (expert_key p 0 m k)
  = None.
Proof.
  intros Hnd. rewrite join_experts_eq.
  destruct (Py.dict_lookup s (expert_key p 0 m k)) eqn:H0; [ | now intros _ ].
  destruct n_routed as [n | ]; [ | discriminate ].
  destruct (pop_experts_spec p m k s Hnd (seq_NoDup n 0)) as (_ & _ & Hres).
  destruct (pop_experts p m k (seq 0 n) s) as [s' [vs | ex]];
    cbn [fst snd] in *; [ | discriminate ].
  destruct Hres as [HF Hnone].
  destruct (stack vs) eqn:Hst; cbn [fst snd]; [ intros _ | discriminate ].
  rewrite lookup_set_other by apply expert_switch_neq_prefix.
  apply Hnone. apply in_seq.
  destruct n as [ | n ]; [ | lia ].
  inversion HF. subst vs. rewrite stack_nil in Hst. discriminate.
Qed.

Lemma Forall2_lookup_map (p m k : string) (s : weights A) (ts : nat -> tensor A)
    (es : list nat) (vs : list (tensor A)) :
  (forall e, In e es -> Py.dict_lookup s (expert_key p e m k) = Some (ts e)) ->
  Forall2 (fun e v => Py.dict_lookup s (expert_key p e m k) = Some v) es vs ->
  vs = map ts es.
Proof.
  intros Hts HF. induction HF as [ | e v es vs Hv _ IH ]; [ reflexivity | ].
  simpl. rewrite (Hts e (or_introl eq_refl)) in Hv. inversion Hv. subst v.
  f_equal. apply IH. intros e' He'. apply Hts. now right.
Qed.

Lemma join_experts_merges (p m k : string) (s : weights A) (n : nat)
    (ts : nat -> tensor A) :
  NoDup (map fst s) ->
  n_routed = Some n ->
  0 < n ->
  (forall e, e < n -> Py.dict_lookup s (expert_key p e m k) = Some (ts e)) ->
  snd (join_experts n_routed p m k s) = Ok tt ->
  exists st,
    stack (map ts (seq 0 n)) = Ok st /\
    Py.dict_lookup (fst (join_experts n_routed p m k s)) (switch_key p m k)
    = Some st /\
    forall e, e < n ->
      Py.dict_lookup (fst (join_experts n_routed p m k s)) (expert_key p e m k)
      = None.
Proof.
  intros Hnd Hn Hpos Hts. rewrite join_experts_eq, Hn.
  rewrite (Hts 0 Hpos).
  destruct (pop_experts_spec p m k s Hnd (seq_NoDup n 0)) as (_ & _ & Hres).
  destruct (pop_experts p m k (seq 0 n) s) as [s' [vs | ex]];
    cbn [fst snd] in *; [ | discriminate ].
  destruct Hres as [HF Hnone].
  assert (Hvs : vs = map ts (seq 0 n)).
  { eapply Forall2_lookup_map; [ | exact HF ].
    intros e He. apply Hts. apply in_seq in He. lia. }
  subst vs.
  destruct (stack (map ts (seq 0 n))) as [st | ex]; cbn [fst snd];
    [ intros _ | discriminate ].
  exists st. split; [ reflexivity | ]. split.
  - apply lookup_set_same.
  - intros e He. rewrite lookup_set_other by apply expert_switch_neq_prefix.
    apply Hnone. apply in_seq. lia.
Qed.

Lemma join_experts_raises (p m k : string) (s : weights A) :
  NoDup (map fst s) ->
  Py.dict_lookup s (expert_key p 0 m k) <> None ->
  (n_routed = None \/
   exists n e, n_routed = Some n /\ e < n /\
               Py.dict_lookup s (expert_key p e m k) = None) ->
  exists ex, snd (join_experts n_routed p m k s) = Raise ex.
Proof.
  intros Hnd H0 Hbad. rewrite join_experts_eq.
  destruct (Py.dict_lookup s (expert_key p 0 m k)); [ | congruence ].
  destruct Hbad as [-> | (n & e & -> & He & Hmiss)];
    [ eexists; reflexivity | ].
  destruct (pop_experts_spec p m k s Hnd (seq_NoDup n 0)) as (_ & _ & Hres).
  destruct (pop_experts p m k (seq 0 n) s) as [s' [vs | ex]];
    cbn [fst snd] in *; [ | eexists; reflexivity ].
  destruct Hres as [HF _].
  assert (Hin : In e (seq 0 n)) by (apply in_seq; lia).
  destruct (Forall2_In_l e HF Hin) as (v & _ & Hv). congruence.
Qed.

End SanitizeFacts.

Section SanitizeLoop.

Import Spec.
Import DeepseekV2.

Variable A : Type.

Lemma sanitize_flat (config : LayerConfig) (s : weights A) :
  LanguageModel_sanitize config s
  = Py.st_for (sanitize_triples (num_hidden_layers config))
      (sanitize_step (config_n_routed_experts config)) s.
Proof.
  unfold LanguageModel_sanitize, sanitize_triples.
  rewrite st_for_flat_map. apply st_for_ext. intros l s1.
  rewrite st_for_flat_map. apply st_for_ext. intros nm s2.
  rewrite st_for_map. reflexivity.
Qed.

Lemma NoDup_flat_map {X Y : Type} (f : X -> list Y) (l : list X) :
  NoDup l ->
  (forall x, In x l -> NoDup (f x)) ->
  (forall x x' y, In x l -> In x' l -> In y (f x) -> In y (f x') -> x = x') ->
  NoDup (flat_map f l).
Proof.
  induction 1 as [ | x l Hx Hnd IH ]; intros Hf Hdis; [ constructor | ].
  simpl. apply NoDup_app.
  - apply Hf. now left.
  - apply IH.
    + intros x' Hx'. apply Hf. now right.
    + intros x1 x2 y H1 H2. apply Hdis; now right.
  - intros y Hy Hy'. apply in_flat_map in Hy'. destruct Hy' as (x' & Hx' & Hy').
    assert (x = x') by (apply (Hdis x x' y); [ now left | now right | assumption | assumption ]).
    subst x'. contradiction.
Qed.

Lemma in_sanitize_triples (L : nat) (T : nat * string * string) :
  In T (sanitize_triples L) <-> fst (fst T) < L /\ valid_triple T.
Proof.
  unfold sanitize_triples, valid_triple. rewrite in_flat_map. split.
  - intros (l & Hl & HT). apply in_seq in Hl.
    simpl in HT.
    repeat match goal with
           | H : _ \/ _ |- _ => destruct H
           | H : False |- _ => contradiction
           end; subst T; simpl; (split; [ lia | tauto ]).
  - destruct T as [[l m] k]. simpl. intros (Hl & Hm & Hk).
    exists l. split; [ apply in_seq; lia | ].
    repeat match goal with
           | H : _ \/ _ |- _ => destruct H
           | H : False |- _ => contradiction
           end; subst; simpl; tauto.
Qed.

Lemma NoDup_sanitize_triples (L : nat) : NoDup (sanitize_triples L).
Proof.
  unfold sanitize_triples. apply NoDup_flat_map.
  - apply seq_NoDup.
  - intros l _. simpl.
    repeat constructor; simpl; intuition congruence.
  - intros l l' y _ _ Hy Hy'. simpl in Hy, Hy'.
    repeat match goal with
           | H : _ \/ _ |- _ => destruct H
           | H : False |- _ => contradiction
           end; subst y; congruence.
Qed.

Variable n_routed : option nat.

(** A key outside what the triples of a list read and write is left alone
    by the loop over the list. *)
Lemma loop_frame (TL : list (nat * string * string)) (key : string)
    (s : weights A) :
  NoDup (map fst s) ->
  (forall T e, In T TL ->
     key <> expert_weight_key (fst (fst T)) e (snd (fst T)) (snd T)) ->
  (forall T, In T TL ->
     key <> switch_weight_key (fst (fst T)) (snd (fst T)) (snd T)) ->
  NoDup (map fst (fst (Py.st_for TL (sanitize_step n_routed) s))) /\
  Py.dict_lookup (fst (Py.st_for TL (sanitize_step n_routed) s)) key
  = Py.dict_lookup s key.
Proof.
  intros Hnd He Hs.
  apply (@st_for_preserves (weights A) _
           (fun s' => NoDup (map fst s') /\
                      Py.dict_lookup s' key = Py.dict_lookup s key)).
  - intros T s' HT [Hnd' Hl]. unfold sanitize_step. split.
    + now apply join_experts_nodup.
    + rewrite join_experts_frame; try assumption.
      * intros e. apply (He T e HT).
      * apply (Hs T HT).
  - split; [ assumption | reflexivity ].
Qed.

Lemma loop_nodup (TL : list (nat * string * string)) (s : weights A) :
  NoDup (map fst s) ->
  NoDup (map fst (fst (Py.st_for TL (sanitize_step n_routed) s))).
Proof.
  intros Hnd.
  apply (@st_for_preserves (weights A) _ (fun s' => NoDup (map fst s')));
    [ | assumption ].
  intros T s' _ Hnd'. unfold sanitize_step. now apply join_experts_nodup.
Qed.

(** The keys of one triple are outside what the other triples touch. *)
Lemma loop_frame_triple (TL : list (nat * string * string))
    (T : nat * string * string) (s : weights A) :
  NoDup (map fst s) ->
  valid_triple T ->
  (forall T', In T' TL -> valid_triple T') ->
  ~ In T TL ->
  (forall e,
     Py.dict_lookup (fst (Py.st_for TL (sanitize_step n_routed) s))
       (expert_weight_key (fst (fst T)) e (snd (fst T)) (snd T))
     = Py.dict_lookup s
         (expert_weight_key (fst (fst T)) e (snd (fst T)) (snd T))) /\
  Py.dict_lookup (fst (Py.st_for TL (sanitize_step n_routed) s))
    (switch_weight_key (fst (fst T)) (snd (fst T)) (snd T))
  = Py.dict_lookup s (switch_weight_key (fst (fst T)) (snd (fst T)) (snd T)).
Proof.
  intros Hnd [Hm Hk] Hvalid Hnot. split.
  - intros e. apply loop_frame; [ assumption | | ].
    + intros T' e' HT' Heq. destruct (Hvalid T' HT') as [Hm' Hk'].
      apply expert_weight_key_inj in Heq; try assumption.
      destruct Heq as (Hl & _ & Hmm & Hkk).
      apply Hnot. destruct T as [[l m] k], T' as [[l' m'] k'].
      simpl in *. subst. exact HT'.
    + intros T' HT'. apply expert_switch_neq.
  - apply loop_frame; [ assumption | | ].
    + intros T' e' HT' Heq. symmetry in Heq. revert Heq. apply expert_switch_neq.
    + intros T' HT' Heq. destruct (Hvalid T' HT') as [Hm' Hk'].
      apply switch_weight_key_inj in Heq; try assumption.
      destruct Heq as (Hl & Hmm & Hkk).
      apply Hnot. destruct T as [[l m] k], T' as [[l' m'] k'].
      simpl in *. subst. exact HT'.
Qed.

Lemma split_at {X : Type} (x : X) (l : list X) :
  NoDup l -> In x l ->
  exists l1 l2, l = l1 ++ x :: l2 /\ ~ In x l1 /\ ~ In x l2.
Proof.
  intros Hnd Hin. apply in_split in Hin. destruct Hin as (l1 & l2 & ->).
  exists l1, l2. split; [ reflexivity | ].
  apply NoDup_remove_2 in Hnd. rewrite in_app_iff in Hnd. tauto.
Qed.

(** A run that returns goes through every triple: the store before the
    step of a triple, the step, and the rest of the loop. *)
Lemma loop_through (TL : list (nat * string * string))
    (T : nat * string * string) (s s' : weights A) :
  NoDup TL -> In T TL ->
  Py.st_for TL (sanitize_step n_routed) s = (s', Ok tt) ->
  exists l1 l2 s1,
    TL = l1 ++ T :: l2 /\ ~ In T l1 /\ ~ In T l2 /\
    Py.st_for l1 (sanitize_step n_routed) s = (s1, Ok tt) /\
    snd (sanitize_step n_routed T s1) = Ok tt /\
    Py.st_for l2 (sanitize_step n_routed) (fst (sanitize_step n_routed T s1))
    = (s', Ok tt).
Proof.
  intros Hnd Hin Hrun.
  destruct (@split_at _ T TL Hnd Hin) as (l1 & l2 & -> & H1 & H2).
  exists l1, l2. rewrite st_for_app in Hrun.
  destruct (Py.st_for l1 (sanitize_step n_routed) s) as [s1 [[] | ex]];
    [ | discriminate ].
  exists s1. cbn [Py.st_for] in Hrun. unfold Py.st_bind in Hrun.
  destruct (sanitize_step n_routed T s1) as [s2 [[] | ex]]; [ | discriminate ].
  cbn [fst snd]. repeat split; assumption.
Qed.

Lemma loop_raises (TL : list (nat * string * string))
    (T : nat * string * string) (s : weights A) :
  NoDup TL -> In T TL ->
  (forall l1 l2 s1,
     TL = l1 ++ T :: l2 -> ~ In T l1 ->
     Py.st_for l1 (sanitize_step n_routed) s = (s1, Ok tt) ->
     exists ex, snd (sanitize_step n_routed T s1) = Raise ex) ->
  exists ex, snd (Py.st_for TL (sanitize_step n_routed) s) = Raise ex.
Proof.
  intros Hnd Hin Hstep.
  destruct (@split_at _ T TL Hnd Hin) as (l1 & l2 & -> & H1 & H2).
  rewrite st_for_app.
  specialize (Hstep l1 l2).
  destruct (Py.st_for l1 (sanitize_step n_routed) s) as [s1 [[] | ex]];
    [ | eexists; reflexivity ].
  destruct (Hstep s1 eq_refl H1 eq_refl) as [ex Hex].
  cbn [Py.st_for]. unfold Py.st_bind.
  destruct (sanitize_step n_routed T s1) as [s2 [[] | ex']];
    cbn [snd] in *; [ discriminate | eexists; reflexivity ].
Qed.

Lemma loop_noop (TL : list (nat * string * string)) (s : weights A) :
  (forall T, In T TL ->
     Py.dict_lookup s
       (expert_weight_key (fst (fst T)) 0 (snd (fst T)) (snd T)) = None) ->
  Py.st_for TL (sanitize_step n_routed) s = (s, Ok tt).
Proof.
  induction TL as [ | T TL IH ]; intros H; [ reflexivity | ].
  cbn [Py.st_for]. unfold Py.st_bind.
  unfold sanitize_step at 1.
  rewrite join_experts_absent by (apply (H T); now left).
  apply IH. intros T' HT'. apply H. now right.
Qed.

End SanitizeLoop.

Section SanitizeTheorems.

Import Spec.
Import DeepseekV2.

Variable A : Type.

Lemma triples_valid (L : nat) (T : nat * string * string) :
  In T (sanitize_triples L) -> valid_triple T.
Proof. intros H. apply in_sanitize_triples in H. tauto. Qed.

Lemma triples_valid_sub (L : nat) (l1 l2 : list (nat * string * string))
    (T : nat * string * string) :
  sanitize_triples L = l1 ++ T :: l2 ->
  (forall T', In T' l1 -> valid_triple T') /\
  (forall T', In T' l2 -> valid_triple T').
Proof.
  intros Heq. split; intros T' HT'; apply (@triples_valid L);
    rewrite Heq, in_app_iff; [ now left | right; now right ].
Qed.

(** X16: [LanguageModel.sanitize] touches only the keys
    of expert weights and of stacked weights: every other key of the dict
    keeps its value, whether the run returns or raises. *)
Theorem expert_stacking_leaves_other_keys (config : LayerConfig)
    (w : weights A) (key : string) :
  NoDup (map fst w) ->
  (forall l e m k, key <> expert_weight_key l e m k) ->
  (forall l m k, key <> switch_weight_key l m k) ->
  Py.dict_lookup (fst (LanguageModel_sanitize config w)) key
  = Py.dict_lookup w key.
Proof.
  intros Hnd He Hs. rewrite sanitize_flat.
  apply loop_frame; [ assumption | | ].
  - intros T e _. apply He.
  - intros T _. apply Hs.
Qed.

(** X17: when the run returns on a dict that holds, for
    a layer [l] below [num_hidden_layers], a projection [m] and a kind
    [k], the weights [ts e] of all the [n] routed experts, the returned
    dict maps the stacked key of [(l, m, k)] to the stack of the [n]
    weights in the order of the experts, and none of their keys is left. *)
Theorem expert_stacking_merges (config : LayerConfig) (w w' : weights A)
    (l n : nat) (m k : string) (ts : nat -> tensor A) :
  NoDup (map fst w) ->
  config_n_routed_experts config = Some n ->
  0 < n ->
  l < num_hidden_layers config ->
  In m (map snd projections) ->
  In k kinds ->
  (forall e, e < n ->
     Py.dict_lookup w (expert_weight_key l e m k) = Some (ts e)) ->
  LanguageModel_sanitize config w = (w', Ok tt) ->
  Py.dict_lookup w' (switch_weight_key l m k)
  = Some (mk_tensor (n :: shape (ts 0))
            (concat (map (fun e => data (ts e)) (seq 0 n)))) /\
  forall e, e < n -> Py.dict_lookup w' (expert_weight_key l e m k) = None.
Proof.
  intros Hnd Hn Hpos Hl Hm Hk Hts Hrun. rewrite sanitize_flat in Hrun.
  assert (HT : In (l, m, k) (sanitize_triples (num_hidden_layers config))).
  { apply in_sanitize_triples. simpl. split; [ assumption | split; assumption ]. }
  destruct (@loop_through A _ _ (l, m, k) _ _ (NoDup_sanitize_triples _) HT Hrun)
    as (l1 & l2 & s1 & Heq & H1 & H2 & Hpre & Hstep & Hpost).
  destruct (triples_valid_sub _ _ _ _ Heq) as [Hv1 Hv2].
  assert (HvT : valid_triple (l, m, k)) by (split; assumption).
  (* the prefix leaves the keys of the triple alone *)
  pose proof (@loop_nodup A (config_n_routed_experts config) l1 w Hnd) as Hnd1.
  destruct (@loop_frame_triple A (config_n_routed_experts config) l1 _ w Hnd HvT Hv1 H1)
    as [Hpre_e _].
  rewrite Hpre in Hnd1, Hpre_e. cbn [fst snd] in Hnd1, Hpre_e.
  (* the step of the triple *)
  destruct (@join_experts_merges A (config_n_routed_experts config)
              (layer_prefix l) m k s1 n ts Hnd1 Hn Hpos) as (st & Hst & Hsw & Hex);
    [ intros e He; change (expert_key (layer_prefix l) e m k)
        with (expert_weight_key l e m k); rewrite Hpre_e; now apply Hts
    | exact Hstep | ].
  (* the rest of the loop *)
  pose proof (@join_experts_nodup A (config_n_routed_experts config)
                (layer_prefix l) m k s1 Hnd1) as Hnd2.
  destruct (@loop_frame_triple A (config_n_routed_experts config) l2 (l, m, k)
              (fst (sanitize_step (config_n_routed_experts config) (l, m, k) s1))
              Hnd2 HvT Hv2 H2)
    as [Hpost_e Hpost_s].
  rewrite Hpost in Hpost_e, Hpost_s. cbn [fst snd] in Hpost_e, Hpost_s.
  split.
  - rewrite Hpost_s. unfold sanitize_step. cbn [fst snd].
    unfold switch_weight_key. rewrite Hsw. f_equal.
    destruct n as [ | n' ]; [ lia | ].
    cbn [seq map] in Hst. unfold stack in Hst.
    destruct (forallb _ _); [ | discriminate ].
    inversion Hst. cbn [length map seq concat].
    rewrite !length_map, map_map, length_seq. reflexivity.
  - intros e He. rewrite Hpost_e. unfold sanitize_step. cbn [fst snd].
    now apply Hex.
Qed.

(** X18: [sanitize] applied to a dict it has returned
    changes nothing and returns: no key of an expert 0 is left, so no
    triple is taken up again. *)
Theorem expert_stacking_idempotent (config : LayerConfig) (w w' : weights A) :
  NoDup (map fst w) ->
  LanguageModel_sanitize config w = (w', Ok tt) ->
  LanguageModel_sanitize config w' = (w', Ok tt).
Proof.
  intros Hnd Hrun. rewrite sanitize_flat in Hrun |- *.
  apply loop_noop. intros T HT.
  destruct (@loop_through A _ _ T _ _ (NoDup_sanitize_triples _) HT Hrun)
    as (l1 & l2 & s1 & Heq & H1 & H2 & Hpre & Hstep & Hpost).
  destruct (triples_valid_sub _ _ _ _ Heq) as [Hv1 Hv2].
  pose proof (triples_valid _ _ HT) as HvT.
  pose proof (@loop_nodup A (config_n_routed_experts config) l1 w Hnd) as Hnd1.
  rewrite Hpre in Hnd1. cbn [fst] in Hnd1.
  pose proof (@join_experts_nodup A (config_n_routed_experts config)
                (layer_prefix (fst (fst T))) (snd (fst T)) (snd T) s1 Hnd1)
    as Hnd2.
  destruct (@loop_frame_triple A (config_n_routed_experts config) l2 T
              (fst (sanitize_step (config_n_routed_experts config) T s1))
              Hnd2 HvT Hv2 H2)
    as [Hpost_e _].
  rewrite Hpost in Hpost_e. cbn [fst] in Hpost_e.
  rewrite Hpost_e. unfold sanitize_step in Hstep |- *.
  now apply join_experts_ok_absent.
Qed.

(** X19: when the dict holds the weight of expert 0
    for a layer, a projection and a kind of the loops, but [n_routed_experts]
    is [None] or the weight of one of the other routed experts is missing,
    [sanitize] raises. *)
Theorem expert_stacking_needs_all_experts (config : LayerConfig)
    (w : weights A) (l : nat) (m k : string) :
  NoDup (map fst w) ->
  l < num_hidden_layers config ->
  In m (map snd projections) ->
  In k kinds ->
  Py.dict_lookup w (expert_weight_key l 0 m k) <> None ->
  (config_n_routed_experts config = None \/
   exists n e, config_n_routed_experts config = Some n /\ e < n /\
               Py.dict_lookup w (expert_weight_key l e m k) = None) ->
  exists ex, snd (LanguageModel_sanitize config w) = Raise ex.
Proof.
  intros Hnd Hl Hm Hk H0 Hbad. rewrite sanitize_flat.
  assert (HT : In (l, m, k) (sanitize_triples (num_hidden_layers config))).
  { apply in_sanitize_triples. simpl. split; [ assumption | split; assumption ]. }
  apply (@loop_raises A _ _ (l, m, k) _ (NoDup_sanitize_triples _) HT).
  intros l1 l2 s1 Heq H1 Hpre.
  destruct (triples_valid_sub _ _ _ _ Heq) as [Hv1 _].
  assert (HvT : valid_triple (l, m, k)) by (split; assumption).
  pose proof (@loop_nodup A (config_n_routed_experts config) l1 w Hnd) as Hnd1.
  destruct (@loop_frame_triple A (config_n_routed_experts config) l1 _ w Hnd HvT Hv1 H1)
    as [Hpre_e _].
  rewrite Hpre in Hnd1, Hpre_e. cbn [fst snd] in Hnd1, Hpre_e.
  unfold sanitize_step. cbn [fst snd].
  apply join_experts_raises; [ assumption | | ].
  - change (expert_key (layer_prefix l) 0 m k) with (expert_weight_key l 0 m k).
    now rewrite Hpre_e.
  - destruct Hbad as [Hnone | (n & e & Hn & He & Hmiss)]; [ now left | ].
    right. exists n, e. repeat split; try assumption.
    change (expert_key (layer_prefix l) e m k) with (expert_weight_key l e m k).
    now rewrite Hpre_e.
Qed.

End SanitizeTheorems.

Lemma sample_expert_weights_keys : NoDup (map fst Samples.expert_weights).
Proof.
  repeat constructor; simpl; intuition discriminate.
Qed.

Lemma sample_expert_weights_short_keys :
  NoDup (map fst Samples.expert_weights_short).
Proof.
  repeat constructor; simpl; intuition discriminate.
Qed.

Lemma expert_stacking_leaves_other_keys_witness :
  Py.dict_lookup
    (fst (DeepseekV2.LanguageModel_sanitize Samples.sanitize_config
            Samples.expert_weights)) "language_model.lm_head.weight"
  = Py.dict_lookup Samples.expert_weights "language_model.lm_head.weight".
Proof.
  apply (@expert_stacking_leaves_other_keys float Samples.sanitize_config
           Samples.expert_weights "language_model.lm_head.weight").
  - exact sample_expert_weights_keys.
  - intros l e m k H.
    unfold Spec.expert_weight_key, DeepseekV2.expert_key,
      DeepseekV2.layer_prefix in H.
    simpl in H. discriminate H.
  - intros l m k H.
    unfold Spec.switch_weight_key, DeepseekV2.switch_key,
      DeepseekV2.layer_prefix in H.
    simpl in H. discriminate H.
Defined.

Lemma expert_stacking_merges_witness :
  exists w',
    DeepseekV2.LanguageModel_sanitize Samples.sanitize_config
      Samples.expert_weights = (w', Ok tt) /\
    Py.dict_lookup w' (Spec.switch_weight_key 0 "gate_proj" "weight")
    = Some (mk_tensor (2 :: shape (Samples.expert_weight 0))
              (concat (map (fun e => data (Samples.expert_weight e)) (seq 0 2)))) /\
    forall e, e < 2 ->
      Py.dict_lookup w' (Spec.expert_weight_key 0 e "gate_proj" "weight") = None.
Proof.
  assert (H : exists w',
             DeepseekV2.LanguageModel_sanitize Samples.sanitize_config
               Samples.expert_weights = (w', Ok tt)).
  { eexists. vm_compute. reflexivity. }
  destruct H as (w' & H). exists w'. split; [ exact H | ].
  apply (@expert_stacking_merges float Samples.sanitize_config
           Samples.expert_weights w' 0 2 "gate_proj" "weight"
           Samples.expert_weight).
  - exact sample_expert_weights_keys.
  - reflexivity.
  - lia.
  - simpl. lia.
  - simpl. tauto.
  - simpl. tauto.
  - intros e He. destruct e as [ | [ | e ] ]; [ reflexivity | reflexivity | lia ].
  - exact H.
Defined.

Lemma expert_stacking_idempotent_witness :
  exists w',
    DeepseekV2.LanguageModel_sanitize Samples.sanitize_config
      Samples.expert_weights = (w', Ok tt) /\
    DeepseekV2.LanguageModel_sanitize Samples.sanitize_config w' = (w', Ok tt).
Proof.
  assert (H : exists w',
             DeepseekV2.LanguageModel_sanitize Samples.sanitize_config
               Samples.expert_weights = (w', Ok tt)).
  { eexists. vm_compute. reflexivity. }
  destruct H as (w' & H). exists w'. split; [ exact H | ].
  exact (@expert_stacking_idempotent float Samples.sanitize_config
           Samples.expert_weights w' sample_expert_weights_keys H).
Defined.

Lemma expert_stacking_needs_all_experts_witness :
  exists ex,
    snd (DeepseekV2.LanguageModel_sanitize Samples.sanitize_config
           Samples.expert_weights_short) = Raise ex.
Proof.
  apply (@expert_stacking_needs_all_experts float Samples.sanitize_config
           Samples.expert_weights_short 0 "gate_proj" "weight").
  - exact sample_expert_weights_short_keys.
  - simpl. lia.
  - simpl. tauto.
  - simpl. tauto.
  - vm_compute. discriminate.
  - right. exists 2, 1. split; [ reflexivity | ]. split; [ lia | reflexivity ].
Defined.

(** ** The vision model (llava_next): construction and forward pass *)

Section VisionModelFacts.

Import Spec.
Import LlavaNext.

Variable pow : float -> float -> float.
Variable Linear_init : nat -> nat -> bool -> result Linear.
Variable Conv2d : Type.
Variable Conv2d_init : nat -> nat -> nat -> nat -> bool -> result Conv2d.
Variable Embedding : Type.
Variable Embedding_init : nat -> nat -> result Embedding.

Lemma encoder_layer_needs_divisible (config : VisionConfig) :
  ~ divisible (hidden_size config) (num_attention_heads config) ->
  exists e, EncoderLayer_init pow Linear_init config = Raise e.
Proof.
  intros Hnd. unfold EncoderLayer_init.
  destruct (vision_attention_rejects pow None None None None None true Hnd)
    as [e He].
  rewrite He. exists e. reflexivity.
Qed.

Lemma attention_ok_divisible (dims heads : nat) (qi ki vi vd vo : option nat)
    (bias : bool) (att : Attention) :
  Attention_init pow dims heads qi ki vi vd vo bias = Ok att ->
  divisible dims heads.
Proof.
  unfold Attention_init, Py.int_mod. intros H.
  destruct (heads =? 0) eqn:E0; [ discriminate | ].
  cbn [bind] in H.
  destruct (dims mod heads =? 0) eqn:E1; [ | discriminate ].
  split; [ now apply Nat.eqb_neq | now apply Nat.eqb_eq ].
Qed.

(** X20: constructing the llava_next [VisionModel]
    with a model type other than "clip_vision_model" raises the
    [ValueError] that names the type, before anything is built; with the
    right type and at least one encoder layer, a hidden size that is not
    a multiple of the number of heads makes the construction raise. *)
Theorem vision_model_construction_errors (config : VisionConfig) :
  (model_type config <> "clip_vision_model" ->
   VisionModel_init pow Linear_init Conv2d_init Embedding_init config
   = Raise (ValueError ("Unsupported model type: " ++ model_type config))) /\
  (model_type config = "clip_vision_model" ->
   1 <= num_hidden_layers config ->
   ~ divisible (hidden_size config) (num_attention_heads config) ->
   exists e,
     VisionModel_init pow Linear_init Conv2d_init Embedding_init config
     = Raise e).
Proof.
  unfold VisionModel_init. split.
  - intros Hne. apply String.eqb_neq in Hne. now rewrite Hne.
  - intros Heq Hn Hnd. rewrite Heq. cbn [String.eqb negb].
    change (negb (String.eqb "clip_vision_model" "clip_vision_model"))
      with false. cbv iota.
    unfold ClipVisionModel_init.
    destruct (VisionEmbeddings_init _ _ _) as [emb | e]; cbn [bind];
      [ | eexists; reflexivity ].
    unfold Encoder_init.
    destruct (num_hidden_layers config) as [ | n ]; [ lia | ].
    cbn [seq list_comp].
    destruct (@encoder_layer_needs_divisible config Hnd) as [e He].
    rewrite He. cbn [bind]. exists e. reflexivity.
Qed.

(** X21: a llava_next [VisionModel] that could be
    constructed has the model type "clip_vision_model", an encoder of
    [num_hidden_layers] layers, [(image_size // patch_size) ** 2] patches
    and one position more than patches; when it has a layer at all, the
    hidden size is a multiple of the number of heads. *)
Theorem vision_model_constructed (config : VisionConfig)
    (m : VisionModel Conv2d Embedding) :
  VisionModel_init pow Linear_init Conv2d_init Embedding_init config = Ok m ->
  model_type config = "clip_vision_model" /\
  length (encoder (vision_model m)) = num_hidden_layers config /\
  patch_size config <> 0 /\
  num_patches (embeddings (vision_model m))
  = (image_size config / patch_size config) ^ 2 /\
  num_positions (embeddings (vision_model m))
  = (image_size config / patch_size config) ^ 2 + 1 /\
  (1 <= num_hidden_layers config ->
   divisible (hidden_size config) (num_attention_heads config)).
Proof.
  unfold VisionModel_init.
  destruct (String.eqb_spec (model_type config) "clip_vision_model")
    as [Heq | Hne]; cbn [negb]; [ | discriminate ].
  intros H. apply bind_ok_inv in H. destruct H as (vm & Hvm & H).
  inversion H. cbn [vision_model]. clear H.
  unfold ClipVisionModel_init in Hvm.
  apply bind_ok_inv in Hvm. destruct Hvm as (emb & Hemb & Hvm).
  apply bind_ok_inv in Hvm. destruct Hvm as (enc & Henc & Hvm).
  inversion Hvm. cbn [encoder embeddings]. clear Hvm.
  unfold VisionEmbeddings_init in Hemb.
  apply bind_ok_inv in Hemb. destruct Hemb as (conv & _ & Hemb).
  apply bind_ok_inv in Hemb. destruct Hemb as (side & Hside & Hemb).
  apply bind_ok_inv in Hemb. destruct Hemb as (pos & _ & Hemb).
  inversion Hemb. cbn [num_patches num_positions]. clear Hemb.
  unfold Py.int_floordiv in Hside.
  destruct (patch_size config =? 0) eqn:Ep; [ discriminate | ].
  inversion Hside. subst side.
  split; [ exact Heq | ]. split.
  { unfold Encoder_init in Henc. rewrite (list_comp_length _ _ Henc).
    apply length_seq. }
  split; [ now apply Nat.eqb_neq | ].
  split; [ reflexivity | ]. split; [ reflexivity | ].
  intros Hn. unfold Encoder_init in Henc.
  destruct (num_hidden_layers config) as [ | n ]; [ lia | ].
  cbn [seq list_comp] in Henc.
  apply bind_ok_inv in Henc. destruct Henc as (layer & Hlayer & _).
  unfold EncoderLayer_init in Hlayer.
  apply bind_ok_inv in Hlayer. destruct Hlayer as (att & Hatt & _).
  exact (attention_ok_divisible _ _ _ _ _ _ _ _ Hatt).
Qed.

End VisionModelFacts.

Section VisionForwardFacts.

Import Spec.
Import LlavaNext.

Variable Image Hidden Layer : Type.
Variable embeddings_call : Image -> Hidden.
Variable pre_layrnorm_call : Hidden -> Hidden.
Variable layer_call : Layer -> Hidden -> Hidden.
Variable post_layernorm_call : Hidden -> Hidden.
Variable cls_token : Hidden -> Hidden.

Lemma length_states_after (x : Hidden) (layers : list Layer) :
  length (states_after layer_call x layers) = length layers.
Proof.
  revert x. induction layers as [ | l layers IH ]; intros x; [ reflexivity | ].
  simpl. now rewrite IH.
Qed.

Lemma last_states_after (d x : Hidden) (layers : list Layer) :
  last (x :: states_after layer_call x layers) d
  = fold_left (fun h l => layer_call l h) layers x.
Proof.
  revert x. induction layers as [ | l layers IH ]; intros x; [ reflexivity | ].
  cbn [states_after fold_left]. rewrite <- IH. reflexivity.
Qed.

Lemma encoder_loop_states (layers : list Layer) (x : Hidden)
    (st : list Hidden) :
  fold_left
    (fun s l =>
       let x := layer_call l (fst s) in
       (x, option_map (fun states => states ++ [x]) (snd s)))
    layers (x, Some st)
  = (fold_left (fun h l => layer_call l h) layers x,
     Some (st ++ states_after layer_call x layers)).
Proof.
  revert x st. induction layers as [ | l layers IH ]; intros x st.
  - simpl. now rewrite app_nil_r.
  - cbn [fold_left fst snd option_map states_after]. rewrite IH.
    now rewrite <- app_assoc.
Qed.

Lemma encoder_loop_no_states (layers : list Layer) (x : Hidden) :
  fold_left
    (fun s l => let x := layer_call l (fst s) in (x, snd s))
    layers (x, @None (list Hidden))
  = (fold_left (fun h l => layer_call l h) layers x, None).
Proof.
  revert x. induction layers as [ | l layers IH ]; intros x; [ reflexivity | ].
  cbn [fold_left fst snd]. apply IH.
Qed.

(** X22: the forward pass of the llava_next encoder returns
    the hidden state after the last layer and its normalised first token;
    with [output_hidden_states] true it also returns one state more than
    there are layers, the first being the normalised embeddings and the
    last the returned hidden state; with [False] or [None] it returns no
    states, and the same hidden state. *)
Theorem encoder_hidden_states (layers : list Layer) (img : Image) :
  let x0 := pre_layrnorm_call (embeddings_call img) in
  let xn := fold_left (fun h l => layer_call l h) layers x0 in
  let pooled := post_layernorm_call (cls_token xn) in
  (exists states,
     ClipVisionModel_call embeddings_call pre_layrnorm_call layer_call
       post_layernorm_call cls_token layers img (Some true)
     = (pooled, xn, Some states) /\
     length states = S (length layers) /\
     hd_error states = Some x0 /\
     last states x0 = xn) /\
  ClipVisionModel_call embeddings_call pre_layrnorm_call layer_call
    post_layernorm_call cls_token layers img (Some false)
  = (pooled, xn, None) /\
  ClipVisionModel_call embeddings_call pre_layrnorm_call layer_call
    post_layernorm_call cls_token layers img None
  = (pooled, xn, None).
Proof.
  intros x0 xn pooled. unfold ClipVisionModel_call. cbn [truthy_flag].
  split; [ | split ].
  - exists (x0 :: states_after layer_call x0 layers).
    fold x0. rewrite encoder_loop_states. fold xn. fold pooled.
    split; [ reflexivity | ]. split; [ | split ].
    + cbn [length]. now rewrite length_states_after.
    + reflexivity.
    + apply last_states_after.
  - fold x0. rewrite encoder_loop_no_states. reflexivity.
  - fold x0. rewrite encoder_loop_no_states. reflexivity.
Qed.

End VisionForwardFacts.

Lemma vision_model_construction_errors_witness :
  LlavaNext.VisionModel_init Samples.pow Samples.Linear_init
    Samples.Conv2d_init Samples.Embedding_init
    (Samples.vision_config "siglip_vision_model" 16)
  = Raise (ValueError "Unsupported model type: siglip_vision_model") /\
  exists e,
    LlavaNext.VisionModel_init Samples.pow Samples.Linear_init
      Samples.Conv2d_init Samples.Embedding_init
      (Samples.vision_config "clip_vision_model" 15) = Raise e.
Proof.
  split.
  - apply (proj1 (@vision_model_construction_errors Samples.pow
                    Samples.Linear_init _ Samples.Conv2d_init _
                    Samples.Embedding_init
                    (Samples.vision_config "siglip_vision_model" 16))).
    discriminate.
  - apply (proj2 (@vision_model_construction_errors Samples.pow
                    Samples.Linear_init _ Samples.Conv2d_init _
                    Samples.Embedding_init
                    (Samples.vision_config "clip_vision_model" 15))).
    + reflexivity.
    + simpl. lia.
    + intros [_ H]. vm_compute in H. discriminate H.
Defined.

Lemma vision_model_constructed_witness :
  let config := Samples.vision_config "clip_vision_model" 16 in
  exists m,
    LlavaNext.VisionModel_init Samples.pow Samples.Linear_init
      Samples.Conv2d_init Samples.Embedding_init config = Ok m /\
    LlavaNext.model_type config = "clip_vision_model" /\
    length (LlavaNext.encoder (LlavaNext.vision_model m)) = 2 /\
    14 <> 0 /\
    LlavaNext.num_patches (LlavaNext.embeddings (LlavaNext.vision_model m))
    = (336 / 14) ^ 2 /\
    LlavaNext.num_positions (LlavaNext.embeddings (LlavaNext.vision_model m))
    = (336 / 14) ^ 2 + 1 /\
    (1 <= 2 -> Spec.divisible 1024 16).
Proof.
  intros config.
  assert (H : exists m,
             LlavaNext.VisionModel_init Samples.pow Samples.Linear_init
               Samples.Conv2d_init Samples.Embedding_init config = Ok m).
  { eexists. vm_compute. reflexivity. }
  destruct H as (m & H). exists m. split; [ exact H | ].
  exact (vision_model_constructed _ _ _ _ _ H).
Defined.

(** ** The command line ([generate.py]) *)

Section GenerateFacts.

Import Generate.

Variable ModelPath Model Processor Config : Type.
Variable get_model_path : string -> result ModelPath.
Variable load_config : ModelPath -> bool -> result Config.
Variable load :
  ModelPath -> option string -> bool -> bool -> result (Model * Processor).
Variable decode_unicode_escape : string -> result string.
Variable apply_chat_template :
  Processor -> Config -> prompt_arg -> nat -> option nat -> result string.
Variable stream_generate :
  Model -> Processor -> string -> option (list string) -> option (list string)
  -> Z -> float -> Kwargs -> list string * option exn.
Variable generate :
  Model -> Processor -> string -> option (list string) -> option (list string)
  -> float -> Z -> bool -> Kwargs -> result string.



(** X24: the keyword arguments [main] builds: one resize
    integer [a] becomes the pair [(a, a)], two become the pair of both, no
    [--resize-shape] leaves the key out; the end-of-sequence tokens are
    the decoded tokens in their order; [skip_special_tokens] is set only
    when the flag was given. *)
Theorem main_kwargs_built (args : Args) (kw : Kwargs) :
  main_kwargs decode_unicode_escape args = Ok kw ->
  kw_resize_shape kw
  = match resize_shape args with
    | Some (a, []) => Some (a, a)
    | Some (a, [b]) => Some (a, b)
    | _ => None
    end /\
  match eos_tokens args, kw_eos_tokens kw with
  | Some tokens, Some decoded =>
      Forall2 (fun t d => decode_unicode_escape t = Ok d) tokens decoded
  | None, None => True
  | _, _ => False
  end /\
  kw_skip_special_tokens kw
  = if skip_special_tokens args then Some true else None.
Proof.
  unfold main_kwargs. intros H.
  apply bind_ok_inv in H. destruct H as (rs & Hrs & H).
  apply bind_ok_inv in H. destruct H as (eos & Heos & H).
  inversion H. cbn [kw_resize_shape kw_eos_tokens kw_skip_special_tokens].
  clear H. split; [ | split; [ | reflexivity ] ].
  - destruct (resize_shape args) as [ [a [ | b [ | c l ] ] ] | ];
      now inversion Hrs.
  - destruct (eos_tokens args) as [tokens | ].
    + apply bind_ok_inv in Heos. destruct Heos as (ds & Hds & Heos).
      inversion Heos. now apply list_comp_ok.
    + now inversion Heos.
Qed.

Variable args : Args.
Variable model : Model.
Variable processor : Processor.
Variable config : Config.
Variable kwargs : Kwargs.

(** X25: in the chat mode without [--image] the first
    line of the user that is not empty makes the loop raise [TypeError]
    ([len(args.image)] of [None]) after the message was appended to the
    chat and before anything is generated. *)
Theorem chat_loop_needs_images (user : string) (rest : list string)
    (chat : list Message) (out : list string) :
  image args = None ->
  user <> "" ->
  chat_loop apply_chat_template stream_generate args model processor config
    kwargs (user :: rest) chat out
  = (chat ++ [{| role := "user"; content := user |}],
     {| stdin := rest; stdout := out ++ ["User:"] |},
     Raises (TypeError "object of type 'NoneType' has no len()")).
Proof.
  intros Himg Hu. cbn [chat_loop].
  apply String.eqb_neq in Hu. rewrite Hu, Himg. reflexivity.
Qed.

Hypothesis template_ok :
  forall chat n, exists p,
    apply_chat_template processor config (PromptChat chat) n None = Ok p.
Hypothesis generation_ok :
  forall p,
    snd (stream_generate model processor p (image args) (audio args)
           (max_tokens args) (temperature args) kwargs) = None.

(** X26: with images given, and as long as the template
    and the generation do not raise, the chat loop takes one turn per line
    up to the first empty line: it only appends to the chat, per line the
    message of the user with that line and then the message of the
    assistant; the lines after the empty one are left unread. *)
Theorem chat_loop_turns (imgs : list string) (lines rest : list string) :
  image args = Some imgs ->
  Forall (fun l => l <> "") lines ->
  forall (chat : list Message) (out : list string),
  exists added out',
    chat_loop apply_chat_template stream_generate args model processor config
      kwargs (lines ++ "" :: rest) chat out
    = (chat ++ added, {| stdin := rest; stdout := out' |}, Returns) /\
    map role added = flat_map (fun _ => ["user"; "assistant"]) lines /\
    map content (filter (fun m => String.eqb (role m) "user") added) = lines.
Proof.
  intros Himg Hlines. induction Hlines as [ | user lines Hu _ IH ];
    intros chat out.
  - exists [], (out ++ ["User:"]). cbn [app chat_loop flat_map].
    rewrite String.eqb_refl, app_nil_r. repeat split.
  - cbn [app chat_loop]. apply String.eqb_neq in Hu. rewrite Hu, Himg.
    cbn [len_opt].
    destruct (template_ok (chat ++ [{| role := "user"; content := user |}])
                (length imgs)) as [p Hp].
    rewrite Hp.
    pose proof (generation_ok p) as Hg. rewrite Himg in Hg.
    destruct (stream_generate model processor p (Some imgs) (audio args)
                (max_tokens args) (temperature args) kwargs)
      as [chunks ended].
    cbn [snd] in Hg. subst ended.
    match goal with
    | |- exists added out', chat_loop _ _ _ _ _ _ _ _ ?c ?o = _ /\ _ =>
        destruct (IH c o) as (added & out' & Hrun & Hroles & Husers)
    end.
    exists ({| role := "user"; content := user |}
            :: {| role := "assistant";
                  content := fold_left String.append chunks "" |}
            :: added), out'.
    split; [ | split ].
    + rewrite Hrun. f_equal. f_equal. rewrite <- !app_assoc. reflexivity.
    + cbn [map role flat_map app]. now rewrite Hroles.
    + cbn [filter role map content]. cbn. now rewrite Husers.
Qed.

(** X27: under the same conditions an input that ends
    without an empty line never lets the loop return: after one turn per
    line [input] finds the end of the input and the loop raises
    [EOFError], the chat holding all the turns. *)
Theorem chat_loop_end_of_input (imgs : list string) (lines : list string) :
  image args = Some imgs ->
  Forall (fun l => l <> "") lines ->
  forall (chat : list Message) (out : list string),
  exists added out',
    chat_loop apply_chat_template stream_generate args model processor config
      kwargs lines chat out
    = (chat ++ added, {| stdin := []; stdout := out' |}, RaisesEOFError) /\
    map role added = flat_map (fun _ => ["user"; "assistant"]) lines /\
    map content (filter (fun m => String.eqb (role m) "user") added) = lines.
Proof.
  intros Himg Hlines. induction Hlines as [ | user lines Hu _ IH ];
    intros chat out.
  - exists [], (out ++ ["User:"]). cbn [chat_loop flat_map].
    rewrite app_nil_r. repeat split.
  - cbn [chat_loop]. apply String.eqb_neq in Hu. rewrite Hu, Himg.
    cbn [len_opt].
    destruct (template_ok (chat ++ [{| role := "user"; content := user |}])
                (length imgs)) as [p Hp].
    rewrite Hp.
    pose proof (generation_ok p) as Hg. rewrite Himg in Hg.
    destruct (stream_generate model processor p (Some imgs) (audio args)
                (max_tokens args) (temperature args) kwargs)
      as [chunks ended].
    cbn [snd] in Hg. subst ended.
    match goal with
    | |- exists added out', chat_loop _ _ _ _ _ _ _ _ ?c ?o = _ /\ _ =>
        destruct (IH c o) as (added & out' & Hrun & Hroles & Husers)
    end.
    exists ({| role := "user"; content := user |}
            :: {| role := "assistant";
                  content := fold_left String.append chunks "" |}
            :: added), out'.
    split; [ | split ].
    + rewrite Hrun. f_equal. f_equal. rewrite <- !app_assoc. reflexivity.
    + cbn [map role flat_map app]. now rewrite Hroles.
    + cbn [filter role map content]. cbn. now rewrite Husers.
Qed.

End GenerateFacts.


Lemma main_kwargs_built_witness :
  exists kw,
    Generate.main_kwargs Samples.decode_unicode_escape
      (Samples.generate_args (Some (224, [])%Z) None false) = Ok kw /\
    Generate.kw_resize_shape kw = Some (224, 224)%Z /\
    match Some ["</s>"], Generate.kw_eos_tokens kw with
    | Some tokens, Some decoded =>
        Forall2 (fun t d => Samples.decode_unicode_escape t = Ok d) tokens decoded
    | None, None => True
    | _, _ => False
    end /\
    Generate.kw_skip_special_tokens kw = None.
Proof.
  assert (H : exists kw,
             Generate.main_kwargs Samples.decode_unicode_escape
               (Samples.generate_args (Some (224, [])%Z) None false) = Ok kw).
  { eexists. vm_compute. reflexivity. }
  destruct H as (kw & H). exists kw. split; [ exact H | ].
  exact (@main_kwargs_built Samples.decode_unicode_escape
           (Samples.generate_args (Some (224, [])%Z) None false) kw H).
Defined.

Lemma chat_loop_needs_images_witness :
  Generate.chat_loop Samples.apply_chat_template Samples.stream_generate
    (Samples.generate_args None None true) tt tt tt Samples.no_kwargs
    ["What is this?"; ""] [] []
  = ([{| Generate.role := "user"; Generate.content := "What is this?" |}],
     {| Generate.stdin := [""]; Generate.stdout := ["User:"] |},
     Generate.Raises (TypeError "object of type 'NoneType' has no len()")).
Proof.
  apply (@chat_loop_needs_images unit unit unit Samples.apply_chat_template
           Samples.stream_generate (Samples.generate_args None None true)
           tt tt tt Samples.no_kwargs "What is this?" [""] [] []).
  - reflexivity.
  - discriminate.
Defined.

Lemma chat_loop_turns_witness :
  exists added out',
    Generate.chat_loop Samples.apply_chat_template Samples.stream_generate
      (Samples.generate_args None (Some ["cat.png"]) true) tt tt tt
      Samples.no_kwargs (["What is this?"; "And the colour?"] ++ "" :: ["unread"])
      [] []
    = ([] ++ added,
       {| Generate.stdin := ["unread"]; Generate.stdout := out' |},
       Generate.Returns) /\
    map Generate.role added
    = flat_map (fun _ => ["user"; "assistant"])
        ["What is this?"; "And the colour?"] /\
    map Generate.content
      (filter (fun m => String.eqb (Generate.role m) "user") added)
    = ["What is this?"; "And the colour?"].
Proof.
  refine (@chat_loop_turns unit unit unit Samples.apply_chat_template
            Samples.stream_generate
            (Samples.generate_args None (Some ["cat.png"]) true) tt tt tt
            Samples.no_kwargs _ _ ["cat.png"]
            ["What is this?"; "And the colour?"] ["unread"] _ _ [] []).
  - intros chat n. eexists. reflexivity.
  - intros p. reflexivity.
  - reflexivity.
  - repeat constructor; discriminate.
Defined.

Lemma chat_loop_end_of_input_witness :
  exists added out',
    Generate.chat_loop Samples.apply_chat_template Samples.stream_generate
      (Samples.generate_args None (Some ["cat.png"]) true) tt tt tt
      Samples.no_kwargs ["What is this?"] [] []
    = ([] ++ added, {| Generate.stdin := []; Generate.stdout := out' |},
       Generate.RaisesEOFError) /\
    map Generate.role added
    = flat_map (fun _ => ["user"; "assistant"]) ["What is this?"] /\
    map Generate.content
      (filter (fun m => String.eqb (Generate.role m) "user") added)
    = ["What is this?"].
Proof.
  refine (@chat_loop_end_of_input unit unit unit Samples.apply_chat_template
            Samples.stream_generate
            (Samples.generate_args None (Some ["cat.png"]) true) tt tt tt
            Samples.no_kwargs _ _ ["cat.png"] ["What is this?"] _ _ [] []).
  - intros chat n. eexists. reflexivity.
  - intros p. reflexivity.
  - reflexivity.
  - repeat constructor; discriminate.
Defined.

(** ** The expert gate: the greedy policy stays inside the kept groups *)

Section GreedyGroups.

Import Spec.

Lemma nth_chunks {X : Type} (n : nat) :
  forall (R t : nat) (l : list X),
    t < R -> nth t (chunks R n l) [] = firstn n (skipn (t * n) l).
Proof.
  induction R as [ | R IH ]; intros t l Ht; [ lia | ].
  cbn [chunks]. destruct t as [ | t ]; [ reflexivity | ].
  cbn [nth]. rewrite IH by lia. rewrite skipn_skipn. f_equal. f_equal. lia.
Qed.

Lemma nth_chunk_entry {X : Type} (n R t e : nat) (l : list X) (d : X) :
  t < R -> e < n ->
  nth e (nth t (chunks R n l) []) d = nth (t * n + e) l d.
Proof.
  intros Ht He. rewrite nth_chunks by assumption.
  rewrite nth_firstn.
  replace (e <? n) with true by (symmetry; now apply Nat.ltb_lt).
  apply nth_skipn.
Qed.

Lemma nth_map2 {X Y Z : Type} (f : X -> Y -> Z) (l1 : list X) (l2 : list Y)
    (t : nat) (dx : X) (dy : Y) (dz : Z) :
  length l1 = length l2 -> t < length l1 ->
  nth t (map2 f l1 l2) dz = f (nth t l1 dx) (nth t l2 dy).
Proof.
  intros Hl Ht. unfold map2.
  rewrite (nth_indep _ dz ((fun q => f (fst q) (snd q)) (dx, dy)))
    by (rewrite length_map, length_combine; lia).
  rewrite (map_nth (fun q => f (fst q) (snd q))).
  now rewrite combine_nth.
Qed.

Lemma combine3_nth (N : nat) :
  forall (a b c : list nat),
    length a = N -> length b = N -> length c = N ->
    combine (combine a b) c
    = map (fun j => (nth j a 0, nth j b 0, nth j c 0)) (seq 0 N).
Proof.
  induction N as [ | N IH ]; intros a b c Ha Hb Hc.
  - destruct a; [ reflexivity | discriminate ].
  - destruct a as [ | x a ]; [ discriminate | ].
    destruct b as [ | y b ]; [ discriminate | ].
    destruct c as [ | z c ]; [ discriminate | ].
    cbn [combine seq map nth]. f_equal.
    rewrite <- seq_shift, map_map. apply IH.
    + now inversion Ha.
    + now inversion Hb.
    + now inversion Hc.
Qed.

Lemma fold_left_ext_in {X Y : Type} (f g : X -> Y -> X) (l : list Y) (x : X) :
  (forall acc y, In y l -> f acc y = g acc y) ->
  fold_left f l x = fold_left g l x.
Proof.
  revert x. induction l as [ | y l IH ]; intros x Hfg; [ reflexivity | ].
  simpl. rewrite Hfg by now left. apply IH.
  intros acc y' Hy'. apply Hfg. now right.
Qed.

Lemma filter_const {X : Type} (b : bool) (l : list X) :
  filter (fun _ => b) l = if b then l else [].
Proof.
  induction l as [ | x l IH ]; [ now destruct b | ].
  simpl. rewrite IH. now destruct b.
Qed.

(** The experts of the groups that satisfy [f]: [p] per group. *)
Lemma length_filter_groups (f : nat -> bool) (p : nat) :
  p <> 0 ->
  forall g,
    length (filter (fun e => f (e / p)) (seq 0 (g * p)))
    = length (filter f (seq 0 g)) * p.
Proof.
  intros Hp. induction g as [ | g IH ]; [ reflexivity | ].
  replace (S g * p) with (g * p + p) by lia.
  rewrite seq_app, seq_S, !filter_app, !length_app, IH. cbn [Nat.add].
  rewrite Nat.mul_add_distr_r. f_equal.
  rewrite (filter_ext_in (fun e => f (e / p)) (fun _ => f g)).
  - rewrite filter_const. cbn [filter].
    destruct (f g); cbn [length]; [ rewrite length_seq; lia | reflexivity ].
  - intros e He. apply in_seq in He. f_equal. symmetry.
    apply Nat.div_unique with (r := e - g * p); lia.
Qed.

(** Of [g] groups, those outside a list of distinct groups. *)
Lemma length_filter_outside (dropped : list nat) (g : nat) :
  NoDup dropped ->
  Forall (fun G => G < g) dropped ->
  length (filter (fun G => negb (existsb (Nat.eqb G) dropped)) (seq 0 g))
  = g - length dropped.
Proof.
  intros Hnd Hlt.
  pose proof (filter_length (fun G => existsb (Nat.eqb G) dropped) (seq 0 g))
    as Hsum.
  rewrite length_seq in Hsum.
  assert (Hin : forall G, In G (filter (fun G => existsb (Nat.eqb G) dropped)
                                  (seq 0 g)) <-> In G dropped).
  { intros G. rewrite filter_In, in_seq, existsb_exists. split.
    - intros [_ (G' & HG' & Heq)]. apply Nat.eqb_eq in Heq. now subst G'.
    - intros HG. split.
      + rewrite Forall_forall in Hlt. specialize (Hlt G HG). lia.
      + exists G. split; [ assumption | apply Nat.eqb_refl ]. }
  assert (Hlen : length (filter (fun G => existsb (Nat.eqb G) dropped) (seq 0 g))
                 = length dropped).
  { apply Nat.le_antisymm; apply NoDup_incl_length.
    - apply NoDup_filter, seq_NoDup.
    - intros G HG. now apply Hin.
    - assumption.
    - intros G HG. now apply Hin. }
  lia.
Qed.

Variable E : Type.
Variable zero : E.
Variable neg : E -> E.
Variable leb : E -> E -> bool.

Hypothesis leb_total : forall a b, leb a b = false -> leb b a = true.
Hypothesis leb_trans :
  forall a b c, leb a b = true -> leb b c = true -> leb a c = true.

Lemma leb_refl (a : E) : leb a a = true.
Proof.
  destruct (leb a a) eqn:H; [ reflexivity | ].
  pose proof (leb_total H) as H'. congruence.
Qed.

(** The [k] first positions of a partition of the negated row around rank
    [k - 1] avoid the masked entries when [k] entries at least are not
    masked and those are above the masked ones. *)
Lemma selection_avoids_masked (row' : list E) (res : list nat) (k n : nat)
    (masked : nat -> bool) :
  1 <= k <= n ->
  Permutation res (seq 0 n) ->
  (forall i, i < k - 1 ->
     leb (nth (nth i res 0) row' zero) (nth (nth (k - 1) res 0) row' zero) = true) ->
  (forall j, k - 1 < j < n ->
     leb (nth (nth (k - 1) res 0) row' zero) (nth (nth j res 0) row' zero) = true) ->
  (forall e, e < n -> masked e = true -> nth e row' zero = neg zero) ->
  (forall e, e < n -> masked e = false ->
     leb (neg zero) (nth e row' zero) = false) ->
  k <= length (filter (fun e => negb (masked e)) (seq 0 n)) ->
  forall e, In e (firstn k res) -> masked e = false.
Proof.
  intros Hk Hperm Hbefore Hafter Hmasked Hkept Hcount e He.
  destruct (masked e) eqn:Hme; [ exfalso | reflexivity ].
  assert (Hlen : length res = n)
    by (rewrite (Permutation_length Hperm); apply length_seq).
  assert (Hbound : forall j, j < n -> nth j res 0 < n).
  { intros j Hj. apply (in_seq n 0 (nth j res 0)).
    apply (Permutation_in _ Hperm). apply nth_In. lia. }
  (* the masked entry is selected at a position [i] below [k] *)
  destruct (In_nth _ _ 0 He) as (i & Hi & Hnth).
  rewrite length_firstn in Hi. rewrite nth_firstn in Hnth.
  replace (i <? k) with true in Hnth by (symmetry; apply Nat.ltb_lt; lia).
  assert (Hpivot : leb (neg zero) (nth (nth (k - 1) res 0) row' zero) = true).
  { destruct (Nat.eq_dec i (k - 1)) as [-> | Hne].
    - rewrite Hnth, (Hmasked e) by (try assumption; subst e; apply Hbound; lia).
      apply leb_refl.
    - rewrite <- (Hmasked e) by (try assumption; subst e; apply Hbound; lia).
      rewrite <- Hnth. apply Hbefore. lia. }
  assert (Htail : forall j, k - 1 <= j < n ->
                    leb (neg zero) (nth (nth j res 0) row' zero) = true).
  { intros j Hj. destruct (Nat.eq_dec j (k - 1)) as [-> | Hne];
      [ exact Hpivot | ].
    apply (leb_trans Hpivot). apply Hafter. lia. }
  (* so every entry that is not masked sits before position [k - 1] *)
  assert (Hincl : incl (filter (fun e => negb (masked e)) (seq 0 n))
                    (firstn (k - 1) res)).
  { intros e' He'. apply filter_In in He'. destruct He' as [Hin Hneg].
    apply in_seq in Hin. apply negb_true_iff in Hneg.
    assert (Hres : In e' res).
    { apply (Permutation_in _ (Permutation_sym Hperm)). apply in_seq. lia. }
    destruct (In_nth _ _ 0 Hres) as (j & Hj & Hnj).
    destruct (Nat.lt_ge_cases j (k - 1)) as [Hlt | Hge].
    - rewrite <- Hnj.
      replace (nth j res 0) with (nth j (firstn (k - 1) res) 0).
      + apply nth_In. rewrite length_firstn. lia.
      + rewrite nth_firstn.
        now replace (j <? k - 1) with true by (symmetry; apply Nat.ltb_lt; lia).
    - exfalso. pose proof (Htail j ltac:(lia)) as Ht. rewrite Hnj in Ht.
      rewrite (Hkept e') in Ht by (assumption || lia). discriminate. }
  pose proof (NoDup_incl_length
                (NoDup_filter (fun e => negb (masked e)) (seq_NoDup n 0)) Hincl)
    as Hle.
  rewrite length_firstn in Hle. lia.
Qed.

(** The masking assignment of the greedy branch, entry by entry: the block
    of group [c[j]] of token [j / w] is filled for every position [j] of
    the index array. *)
Lemma setitem_idx3_groups_eval (bsz s g p w : nat) (d : list E) (c : list nat)
    (v : E) :
  length c = bsz * s * w ->
  setitem_idx3 (mk_tensor [bsz; s; g; p] d)
    (mk_tensor [bsz; 1; 1] (seq 0 bsz)) (mk_tensor [1; s; 1] (seq 0 s))
    (mk_tensor [bsz; s; w] c) v
  = Ok (mk_tensor [bsz; s; g; p]
          (fold_left (fun acc st => fill_range st p v acc)
             (map (fun j => (j / w * g + nth j c 0) * p) (seq 0 (bsz * s * w)))
             d)).
Proof.
  intros Hc. unfold setitem_idx3. cbn [shape].
  rewrite broadcast_shapes_3 by auto.
  rewrite bdim_1_r, bdim_1_l, bdim_same. cbn [bind].
  rewrite broadcast_shapes_3 by auto.
  rewrite !bdim_same, bdim_1_l. cbn [bind].
  rewrite (@broadcast_to_data nat (mk_tensor [bsz; 1; 1] (seq 0 bsz))
             [bsz; s; w]);
    [ | unfold well_formed, numel; cbn; rewrite length_seq; lia
      | cbn [shape]; rewrite broadcast_shapes_3 by auto;
        now rewrite bdim_same, !bdim_1_l ].
  rewrite (@broadcast_to_data nat (mk_tensor [1; s; 1] (seq 0 s)) [bsz; s; w]);
    [ | unfold well_formed, numel; cbn; rewrite length_seq; lia
      | cbn [shape]; rewrite broadcast_shapes_3 by auto;
        now rewrite bdim_same, !bdim_1_l ].
  rewrite broadcast_to_same by reflexivity. cbn [bind data shape ndim length
    Nat.sub repeat app].
  rewrite batch_index_view, seq_index_view.
  replace (numel [p]) with p by (unfold numel; simpl; lia).
  f_equal. f_equal.
  rewrite (@combine3_nth (bsz * s * w));
    [ | rewrite length_flat_map_repeat, length_seq; lia
      | rewrite length_concat_repeat, length_flat_map_repeat, length_seq; lia
      | exact Hc ].
  rewrite <- (fold_left_map
                (fun (acc : list E) (xyz : nat * nat * nat) =>
                   let '(x, y, z) := xyz in
                   fill_range (((x * s + y) * g + z) * p) p v acc)
                (fun j => (nth j (flat_map (fun b => repeat b (s * w)) (seq 0 bsz)) 0,
                           nth j (concat (repeat (flat_map (fun x => repeat x w)
                                                    (seq 0 s)) bsz)) 0,
                           nth j c 0))).
  rewrite <- (fold_left_map (fun (acc : list E) st => fill_range st p v acc)
                (fun j => (j / w * g + nth j c 0) * p)).
  apply fold_left_ext_in. intros acc j Hj. apply in_seq in Hj. cbn beta iota.
  assert (Hw : w <> 0) by (intros ->; lia).
  rewrite nth_flat_map_repeat by lia.
  rewrite (@nth_concat_repeat_block _ (s * w))
    by (rewrite ?length_flat_map_repeat, ?length_seq; lia).
  rewrite nth_flat_map_repeat
    by (apply Nat.mod_upper_bound; intros Hz; apply Nat.eq_mul_0 in Hz; nia).
  now rewrite token_of_index.
Qed.

(** An entry of the masked scores: zero in a masked group of its token,
    the score otherwise. *)
Lemma masked_entry (R g p w : nat) (d : list E) (c : list nat) (v dflt : E)
    (t G r : nat) :
  length d = R * g * p ->
  length c = R * w ->
  Forall (fun z => z < g) c ->
  t < R -> G < g -> r < p ->
  nth ((t * g + G) * p + r)
    (fold_left (fun acc st => fill_range st p v acc)
       (map (fun j => (j / w * g + nth j c 0) * p) (seq 0 (R * w))) d) dflt
  = if existsb (Nat.eqb G) (nth t (chunks R w c) [])
    then v else nth ((t * g + G) * p + r) d dflt.
Proof.
  intros Hd Hc Hlt Ht HG Hr.
  assert (Hpos : (t * g + G) * p + r < length d).
  { rewrite Hd. assert (t * g + G + 1 <= R * g) by nia. nia. }
  rewrite nth_fold_fill by exact Hpos.
  match goal with
  | |- (if ?a then _ else _) = (if ?b then _ else _) =>
      assert (Hab : a = b); [ | now rewrite Hab ]
  end.
  rewrite nth_chunks by assumption.
  apply eq_true_iff_eq. rewrite !existsb_exists. split.
  - intros (st & Hst & Hhit). apply in_map_iff in Hst.
    destruct Hst as (j & <- & Hj). apply in_seq in Hj.
    assert (Hw : w <> 0) by (intros ->; lia).
    rewrite block_hit in Hhit by assumption.
    assert (Hz : nth j c 0 < g).
    { rewrite Forall_forall in Hlt. apply Hlt. apply nth_In. lia. }
    rewrite group_position_eq in Hhit by assumption.
    apply andb_true_iff in Hhit. destruct Hhit as [Ht' HG'].
    apply Nat.eqb_eq in Ht', HG'.
    exists G. split; [ | apply Nat.eqb_refl ].
    rewrite <- HG'.
    replace (nth j c 0) with (nth (j mod w) (firstn w (skipn (t * w) c)) 0).
    + apply nth_In. rewrite length_firstn, length_skipn.
      pose proof (Nat.mod_upper_bound j w Hw).
      pose proof (Nat.div_mod_eq j w). nia.
    + rewrite nth_firstn.
      replace (j mod w <? w) with true
        by (symmetry; apply Nat.ltb_lt; now apply Nat.mod_upper_bound).
      rewrite nth_skipn. f_equal.
      pose proof (Nat.div_mod_eq j w). nia.
  - intros (G' & HG' & Heq). apply Nat.eqb_eq in Heq. subst G'.
    destruct (In_nth _ _ 0 HG') as (i & Hi & Hnth).
    rewrite length_firstn, length_skipn in Hi.
    rewrite nth_firstn in Hnth.
    replace (i <? w) with true in Hnth by (symmetry; apply Nat.ltb_lt; lia).
    rewrite nth_skipn in Hnth.
    assert (Hdiv : (t * w + i) / w = t).
    { symmetry. apply Nat.div_unique with (r := i); lia. }
    exists (((t * w + i) / w * g + nth (t * w + i) c 0) * p). split.
    + apply in_map_iff. exists (t * w + i). split; [ reflexivity | ].
      apply in_seq. nia.
    + rewrite Hdiv, Hnth. rewrite block_hit by assumption. apply Nat.eqb_refl.
Qed.


Variable add mul : E -> E -> E.
Variable partition_fn : list E -> nat -> list nat.
Variables bsz seq_len g p tg k : nat.

Hypothesis neg_antitone :
  forall a b, leb a b = false -> leb (neg b) (neg a) = false.
Hypothesis partition : partition_ok zero leb partition_fn.

Lemma greedy_rank :
  1 <= tg <= g ->
  (if (Z.of_nat g - Z.of_nat tg - 1 <? 0)%Z
   then (Z.of_nat g - Z.of_nat tg - 1 + Z.of_nat g)%Z
   else (Z.of_nat g - Z.of_nat tg - 1)%Z)
  = Z.of_nat (if g - tg =? 0 then g - 1 else g - tg - 1)
  /\ (if g - tg =? 0 then g - 1 else g - tg - 1) < g.
Proof.
  intros Htg.
  destruct (Z.ltb_spec (Z.of_nat g - Z.of_nat tg - 1) 0);
    destruct (Nat.eqb_spec (g - tg) 0); lia.
Qed.

(** One token: the experts selected from the masked scores lie outside
    the masked groups. *)
Lemma token_selection_kept (R : nat) (d : list E) (gperms : list (list nat))
    (t e : nat) :
  1 <= p -> 1 <= tg <= g -> 1 <= k <= tg * p ->
  length d = R * g * p ->
  Forall (fun s => leb s zero = false) d ->
  length gperms = R ->
  Forall (fun r => Permutation r (seq 0 g)) gperms ->
  t < R ->
  In e (firstn k
          (partition_fn
             (nth t (chunks R (g * p)
                       (map neg
                          (fold_left (fun acc st => fill_range st p zero acc)
                             (map (fun j => (j / (g - tg) * g
                                             + nth j (concat (map (firstn (g - tg))
                                                                gperms)) 0) * p)
                                (seq 0 (R * (g - tg)))) d))) [])
             (k - 1))) ->
  e < g * p /\ ~ In (e / p) (firstn (g - tg) (nth t gperms [])) /\
  nth (t * (g * p) + e)
    (fold_left (fun acc st => fill_range st p zero acc)
       (map (fun j => (j / (g - tg) * g
                       + nth j (concat (map (firstn (g - tg)) gperms)) 0) * p)
          (seq 0 (R * (g - tg)))) d) zero
  = nth (t * (g * p) + e) d zero.
Proof.
  intros Hp Htgr Hkr Hd Hpos HR Hperms Ht.
  set (w := g - tg).
  set (c := concat (map (firstn w) gperms)).
  set (d' := fold_left _ _ d).
  set (row' := nth t (chunks R (g * p) (map neg d')) []).
  set (dropped := firstn w (nth t gperms [])).
  intros He.
  (* the index array *)
  assert (Hrows : Forall (fun r => length r = w) (map (firstn w) gperms)).
  { apply Forall_map. eapply Forall_impl; [ | exact Hperms ].
    intros r Hr. cbn beta in Hr |- *.
    rewrite length_firstn, (Permutation_length Hr), length_seq. unfold w. lia. }
  assert (Hc : length c = R * w).
  { unfold c. rewrite (length_concat_const Hrows), length_map. now rewrite HR. }
  assert (Hcg : Forall (fun z => z < g) c).
  { unfold c. apply Forall_concat. apply Forall_map.
    eapply Forall_impl; [ | exact Hperms ].
    intros r Hr. cbn beta in Hr |- *.
    apply (prefix_of_permutation Hr). unfold w. lia. }
  assert (Hdrop : nth t (chunks R w c) [] = dropped).
  { unfold c. rewrite <- HR at 1. rewrite <- (length_map (firstn w) gperms).
    rewrite (chunks_concat Hrows).
    rewrite (nth_indep _ [] (firstn w [])) by (rewrite length_map; lia).
    apply (map_nth (firstn w)). }
  assert (Hpt : Permutation (nth t gperms []) (seq 0 g)).
  { rewrite Forall_forall in Hperms. apply Hperms. apply nth_In. lia. }
  destruct (@prefix_of_permutation (nth t gperms []) g w Hpt ltac:(unfold w; lia))
    as (Hdl & Hdnd & Hdlt).
  fold dropped in Hdl, Hdnd, Hdlt.
  (* the row of the token *)
  assert (Hd' : length d' = R * g * p).
  { unfold d'. rewrite length_fold_preserving; [ exact Hd | ].
    intros acc st. apply length_fill_range. }
  assert (Hent : forall e', e' < g * p ->
            nth (t * (g * p) + e') d' zero
            = if existsb (Nat.eqb (e' / p)) dropped then zero
              else nth (t * (g * p) + e') d zero).
  { intros e' He'.
    assert (Hidx : t * (g * p) + e' = (t * g + e' / p) * p + e' mod p).
    { pose proof (Nat.div_mod_eq e' p). nia. }
    rewrite Hidx. unfold d'.
    rewrite (@masked_entry R g p w d c zero zero t (e' / p) (e' mod p));
      try assumption.
    - now rewrite Hdrop.
    - apply Nat.Div0.div_lt_upper_bound. lia.
    - apply Nat.mod_upper_bound. lia. }
  assert (Hrow : forall e', e' < g * p ->
            nth e' row' zero
            = neg (if existsb (Nat.eqb (e' / p)) dropped then zero
                   else nth (t * (g * p) + e') d zero)).
  { intros e' He'. unfold row'.
    rewrite nth_chunk_entry by assumption.
    rewrite (nth_indep _ zero (neg zero)) by (rewrite length_map, Hd'; nia).
    rewrite map_nth. f_equal. now apply Hent. }
  assert (Hrl : length row' = g * p).
  { unfold row'. rewrite nth_chunks by assumption.
    rewrite length_firstn, length_skipn, length_map, Hd'. nia. }
  assert (Hkl : k - 1 < length row') by (rewrite Hrl; nia).
  pose proof partition as Hpart. unfold partition_ok in Hpart.
  destruct (Hpart row' (k - 1) Hkl) as (Hperm & Hbefore & Hafter).
  clear Hpart.
  rewrite Hrl in Hperm, Hafter.
  assert (Hegp : e < g * p).
  { destruct (@prefix_of_permutation _ (g * p) k Hperm ltac:(nia))
      as (_ & _ & Hlt).
    rewrite Forall_forall in Hlt. now apply Hlt. }
  split; [ exact Hegp | ].
  assert (Hm : existsb (Nat.eqb (e / p)) dropped = false).
  { apply (@selection_avoids_masked row' (partition_fn row' (k - 1)) k (g * p)
             (fun e => existsb (Nat.eqb (e / p)) dropped));
      try assumption.
    - nia.
    - intros e' He' Hme. rewrite Hrow by assumption. now rewrite Hme.
    - intros e' He' Hme. rewrite Hrow by assumption. rewrite Hme.
      apply neg_antitone. rewrite Forall_forall in Hpos. apply Hpos.
      apply nth_In. rewrite Hd. nia.
    - rewrite (@length_filter_groups
                 (fun G => negb (existsb (Nat.eqb G) dropped)) p ltac:(lia) g).
      rewrite length_filter_outside by assumption.
      rewrite Hdl. unfold w. nia. }
  split.
  - intros Hin. apply not_true_iff_false in Hm. apply Hm.
    apply existsb_exists. exists (e / p).
    split; [ assumption | apply Nat.eqb_refl ].
  - fold w. fold c. fold d'. rewrite Hent by assumption. now rewrite Hm.
Qed.

(** The groups that are masked are those of least maximum: no group that
    is kept has a smaller maximum than a masked one. *)
Lemma greedy_dropped_least (R : nat) (d : list E) (t G G' : nat) :
  1 <= tg <= g ->
  length d = R * g * p ->
  t < R -> G' < g ->
  In G (greedy_dropped zero leb partition_fn R g p tg d t) ->
  ~ In G' (greedy_dropped zero leb partition_fn R g p tg d t) ->
  leb (nth G (greedy_group_scores zero leb R g p d t) zero)
    (nth G' (greedy_group_scores zero leb R g p d t) zero) = true.
Proof.
  intros Htgr Hd Ht HG'. unfold greedy_dropped, greedy_group_scores.
  set (gmax := map _ (chunks (R * g) p d)).
  set (row := nth t (chunks R g gmax) []).
  set (kth := if g - tg =? 0 then g - 1 else g - tg - 1).
  intros HG HnG'.
  assert (Hrl : length row = g).
  { unfold row. rewrite nth_chunks by assumption.
    rewrite length_firstn, length_skipn. unfold gmax.
    rewrite length_map, length_chunks. nia. }
  destruct (Nat.eq_dec (g - tg) 0) as [Hz | Hnz].
  { rewrite Hz in HG. destruct HG. }
  assert (Hkth : kth = g - tg - 1).
  { unfold kth. now destruct (Nat.eqb_spec (g - tg) 0). }
  pose proof partition as Hpart. unfold partition_ok in Hpart.
  destruct (Hpart row kth ltac:(lia)) as (Hperm & Hbefore & Hafter).
  clear Hpart. rewrite Hrl in Hperm, Hafter.
  set (res := partition_fn row kth) in *.
  assert (Hres : length res = g)
    by (rewrite (Permutation_length Hperm); apply length_seq).
  (* the masked group sits at a position up to [kth], the kept one after *)
  destruct (In_nth _ _ 0 HG) as (i & Hi & Hnth).
  rewrite length_firstn in Hi. rewrite nth_firstn in Hnth.
  replace (i <? g - tg) with true in Hnth by (symmetry; apply Nat.ltb_lt; lia).
  assert (HinG' : In G' res).
  { apply (Permutation_in _ (Permutation_sym Hperm)). apply in_seq. lia. }
  destruct (In_nth _ _ 0 HinG') as (j & Hj & Hnj).
  assert (Hjk : kth < j).
  { destruct (Nat.lt_ge_cases kth j) as [Hlt | Hge]; [ assumption | ].
    exfalso. apply HnG'. rewrite <- Hnj.
    replace (nth j res 0) with (nth j (firstn (g - tg) res) 0).
    - apply nth_In. rewrite length_firstn. lia.
    - rewrite nth_firstn.
      now replace (j <? g - tg) with true by (symmetry; apply Nat.ltb_lt; lia). }
  rewrite <- Hnth, <- Hnj.
  apply (@leb_trans _ (nth (nth kth res 0) row zero)).
  - destruct (Nat.eq_dec i kth) as [-> | Hne]; [ apply leb_refl | ].
    apply Hbefore. lia.
  - apply Hafter. lia.
Qed.


(** X28: the greedy policy is limited to the kept groups.
    For scores that are all above zero, an order that is total and
    transitive with a negation that reverses it, a partial selection that
    partitions, and [top_k <= topk_group * p] (with [p] experts per
    group), the gate returns, and for every token: exactly
    [n_group - topk_group] distinct groups are masked; every selected
    expert lies outside the masked groups, in a group whose maximum is
    not below the maximum of any masked group; and the weights are the
    scores of the selected experts times [routed_scaling_factor], none of
    them zeroed. *)
Theorem greedy_selects_from_kept_groups (self : DeepseekV2.MoEGate E)
    (rest : list nat) (scores : tensor E) :
  DeepseekV2.topk_method self = "greedy" ->
  DeepseekV2.n_group self = Z.of_nat g ->
  DeepseekV2.topk_group self = Z.of_nat tg ->
  DeepseekV2.top_k self = Z.of_nat k ->
  1 <= bsz -> 1 <= seq_len -> 1 <= p ->
  1 <= tg <= g ->
  1 <= k <= tg * p ->
  numel (shape scores) = bsz * seq_len * (g * p) ->
  length (data scores) = bsz * seq_len * (g * p) ->
  Forall (fun s => leb s zero = false) (data scores) ->
  exists inds weights,
    DeepseekV2.MoEGate_select zero add mul neg leb partition_fn self
      (bsz :: seq_len :: rest) scores = Ok (inds, weights) /\
    forall t,
      t < bsz * seq_len ->
      let dropped :=
        greedy_dropped zero leb partition_fn (bsz * seq_len) g p tg
          (data scores) t in
      let group_scores :=
        greedy_group_scores zero leb (bsz * seq_len) g p (data scores) t in
      length dropped = g - tg /\ NoDup dropped /\
      (forall e,
         In e (nth t (last_rows inds) []) ->
         e < g * p /\ ~ In (e / p) dropped /\
         forall G, In G dropped ->
           leb (nth G group_scores zero) (nth (e / p) group_scores zero) = true) /\
      nth t (last_rows weights) []
      = map (fun e => mul (nth (t * (g * p) + e) (data scores) zero)
                        (DeepseekV2.routed_scaling_factor self))
          (nth t (last_rows inds) []).
Proof.
  intros Hm Hg Htg Hk Hb Hs Hp Htgr Hkr Hnum Hlen Hpos.
  unfold DeepseekV2.MoEGate_select. rewrite Hm, Hg, Htg, Hk.
  change (String.eqb "greedy" "greedy") with true.
  cbn [DeepseekV2.unpack2 bind].
  change [Z.of_nat bsz; Z.of_nat seq_len; Z.of_nat g; (-1)%Z]
    with (map Z.of_nat [bsz; seq_len; g] ++ [(-1)%Z]).
  rewrite (@reshape_infer_ok E scores [bsz; seq_len; g] p);
    [ | rewrite Hnum, numel_3d; lia
      | rewrite numel_3d; repeat (apply Nat.neq_mul_0; split); lia ].
  cbn [bind].
  rewrite max_last_eval by lia. cbn [bind].
  destruct (greedy_rank Htgr) as (Hkth & Hkthlt).
  change [bsz; seq_len; g] with ([bsz; seq_len] ++ [g]) at 2.
  rewrite (@argpartition_eval E partition_fn [bsz; seq_len] g _ _ _ Hkth Hkthlt).
  cbn [bind].
  rewrite slice_last_eval. cbn [bind].
  replace (Z.of_nat g - Z.of_nat tg)%Z with (Z.of_nat (g - tg)) by lia.
  rewrite slice_bounds_prefix by lia. cbn [fst snd]. rewrite Nat.sub_0_r.
  rewrite expand_arange_batch, expand_arange_seq. cbn [bind app].
  rewrite numel_3d, numel_2d.
  set (R := bsz * seq_len).
  set (gmax := map _ (chunks (R * g) p (data scores))).
  set (kth := if g - tg =? 0 then g - 1 else g - tg - 1) in *.
  set (gperms := map (fun row => partition_fn row kth) (chunks R g gmax)).
  assert (HgR : length gperms = R)
    by (unfold gperms; now rewrite length_map, length_chunks).
  assert (Hgperms : Forall (fun r => Permutation r (seq 0 g)) gperms).
  { unfold gperms. apply Forall_map.
    assert (Hgl : Forall (fun r => length r = g) (chunks R g gmax)).
    { apply chunks_lengths. unfold gmax. now rewrite length_map, length_chunks. }
    eapply Forall_impl; [ | exact Hgl ].
    intros r Hr. cbn beta in Hr |- *. rewrite <- Hr.
    pose proof partition as Hpart. unfold partition_ok in Hpart.
    apply Hpart. lia. }
  assert (Hgplen : Forall (fun r => length r = g) gperms).
  { eapply Forall_impl; [ | exact Hgperms ].
    intros r Hr. cbn beta in Hr |- *.
    rewrite (Permutation_length Hr). apply length_seq. }
  assert (Hcc : chunks R g (concat gperms) = gperms)
    by (rewrite <- HgR; apply (chunks_concat Hgplen)).
  rewrite Hcc.
  rewrite (map_ext_Forall _ (firstn (g - tg)) Hgplen)
    by (intros r Hr; apply slice_prefix; lia).
  assert (Hclen : length (concat (map (firstn (g - tg)) gperms))
                  = bsz * seq_len * (g - tg)).
  { rewrite (@length_concat_const nat (g - tg)).
    - now rewrite length_map, HgR.
    - apply Forall_map. eapply Forall_impl; [ | exact Hgplen ].
      intros r Hr. cbn beta in Hr |- *. rewrite length_firstn. lia. }
  rewrite (@setitem_idx3_groups_eval bsz seq_len g p (g - tg) (data scores)
             _ zero Hclen).
  cbn [bind]. fold R.
  set (d' := fold_left _ _ (data scores)).
  assert (Hlen' : length d' = R * (g * p)).
  { unfold d'. rewrite length_fold_preserving; [ exact Hlen | ].
    intros acc st. apply length_fill_range. }
  change [Z.of_nat bsz; Z.of_nat seq_len; (-1)%Z]
    with (map Z.of_nat [bsz; seq_len] ++ [(-1)%Z]).
  rewrite (@reshape_infer_ok E (mk_tensor [bsz; seq_len; g; p] d')
             [bsz; seq_len] (g * p));
    [ | cbn [shape]; unfold numel; simpl; lia
      | rewrite numel_2d; apply Nat.neq_mul_0; split; lia ].
  cbn [bind data]. unfold map_t. cbn [shape data].
  rewrite (@argpartition_eval E partition_fn [bsz; seq_len] (g * p) _ _ (k - 1));
    [ | replace (Z.of_nat k - 1 <? 0)%Z with false
          by (symmetry; apply Z.ltb_ge; lia); lia
      | nia ].
  cbn [bind].
  rewrite slice_last_eval. cbn [bind].
  rewrite slice_bounds_prefix by nia. cbn [fst snd]. rewrite Nat.sub_0_r.
  rewrite take_along_last_eval. cbn [bind app].
  rewrite numel_2d. fold R.
  set (rows := chunks R (g * p) (map neg d')).
  assert (Hrows : Forall (fun r => length r = g * p) rows).
  { apply chunks_lengths. now rewrite length_map, Hlen'. }
  set (perms := map (fun row => partition_fn row (k - 1)) rows).
  assert (Hplen : Forall (fun r => length r = g * p) perms).
  { unfold perms. apply Forall_map. eapply Forall_impl; [ | exact Hrows ].
    intros r Hr. cbn beta in Hr |- *.
    pose proof partition as Hpart. unfold partition_ok in Hpart.
    destruct (Hpart r (k - 1) ltac:(rewrite Hr; nia)) as (Hperm & _).
    rewrite (Permutation_length Hperm). rewrite length_seq. exact Hr. }
  assert (HpR : length perms = R)
    by (unfold perms, rows; now rewrite length_map, length_chunks).
  assert (Hsel : concat (map (fun row => Py.slice row None (Some (Z.of_nat k)))
                           (chunks R (g * p) (concat perms)))
                 = concat (map (firstn k) perms)).
  { assert (Hpc : chunks R (g * p) (concat perms) = perms)
      by (rewrite <- HpR; apply (chunks_concat Hplen)).
    rewrite Hpc. f_equal.
    apply (map_ext_Forall _ _ Hplen). intros r Hr. apply slice_prefix. nia. }
  rewrite Hsel.
  assert (Hklen : Forall (fun r => length r = k) (map (firstn k) perms)).
  { apply Forall_map. eapply Forall_impl; [ | exact Hplen ].
    intros r Hr. cbn beta in Hr |- *. rewrite length_firstn. nia. }
  eexists. eexists. split; [ reflexivity | ].
  intros t Ht. cbn zeta. cbn [shape data].
  assert (Hkc : chunks R k (concat (map (firstn k) perms)) = map (firstn k) perms).
  { rewrite <- HpR, <- (length_map (firstn k) perms).
    apply (chunks_concat Hklen). }
  destruct (shape_app_last [bsz; seq_len] k (concat (map (firstn k) perms)))
    as (Hl & Hd & _).
  cbn [app] in Hl, Hd.
  assert (Hirows : last_rows (mk_tensor [bsz; seq_len; k]
                                (concat (map (firstn k) perms)))
                   = map (firstn k) perms).
  { unfold last_rows. rewrite Hl, Hd. cbn [data]. now rewrite numel_2d. }
  rewrite Hirows.
  assert (Hirow : nth t (map (firstn k) perms) []
                  = firstn k (partition_fn (nth t rows []) (k - 1))).
  { rewrite (nth_indep _ [] (firstn k [])) by (rewrite length_map; lia).
    rewrite (map_nth (firstn k)). unfold perms.
    rewrite (nth_indep _ [] (partition_fn [] (k - 1)))
      by (rewrite length_map; unfold rows; rewrite length_chunks; exact Ht).
    now rewrite (map_nth (fun row => partition_fn row (k - 1))). }
  rewrite Hirow.
  assert (Hdrop : greedy_dropped zero leb partition_fn R g p tg (data scores) t
                  = firstn (g - tg) (nth t gperms [])).
  { unfold greedy_dropped, greedy_group_scores. fold gmax. fold kth.
    f_equal. unfold gperms.
    rewrite (nth_indep _ [] (partition_fn [] kth))
      by (rewrite length_map, length_chunks; exact Ht).
    symmetry. apply (map_nth (fun row => partition_fn row kth)). }
  assert (Hpt : Permutation (nth t gperms []) (seq 0 g)).
  { rewrite Forall_forall in Hgperms. apply Hgperms. apply nth_In. lia. }
  destruct (@prefix_of_permutation (nth t gperms []) g (g - tg) Hpt ltac:(lia))
    as (Hdl & Hdnd & _).
  assert (Hlen3 : length (data scores) = R * g * p)
    by (rewrite Hlen; unfold R; lia).
  assert (Htok : forall e,
            In e (firstn k (partition_fn (nth t rows []) (k - 1))) ->
            e < g * p /\
            ~ In (e / p) (firstn (g - tg) (nth t gperms [])) /\
            nth (t * (g * p) + e) d' zero
            = nth (t * (g * p) + e) (data scores) zero).
  { intros e He.
    apply (@token_selection_kept R (data scores) gperms t e); assumption. }
  split; [ now rewrite Hdrop | ]. split; [ now rewrite Hdrop | ]. split.
  - intros e He. destruct (Htok e He) as (Hegp & Hnin & _).
    split; [ exact Hegp | ]. split; [ now rewrite Hdrop | ].
    intros G HG.
    apply (@greedy_dropped_least R (data scores) t G (e / p));
      try assumption.
    + apply Nat.Div0.div_lt_upper_bound. lia.
    + now rewrite Hdrop.
  - unfold last_rows.
    match goal with
    | |- context [ mk_tensor [bsz; seq_len; k] ?dd ] =>
        destruct (shape_app_last [bsz; seq_len] k dd) as (Hl' & Hd' & _)
    end.
    cbn [app] in Hl', Hd'. rewrite Hl', Hd'. cbn [data].
    rewrite numel_2d. fold R. rewrite Hkc.
    set (taken := map2 _ (chunks R (g * p) d') (map (firstn k) perms)).
    assert (Htl : length taken = R).
    { unfold taken, map2.
      rewrite length_map, length_combine, length_chunks, length_map. lia. }
    assert (Htk : Forall (fun r => length r = k) taken).
    { unfold taken, map2. apply Forall_map. apply Forall_forall.
      intros [row irow] Hin. cbn [fst snd]. rewrite length_map.
      apply in_combine_r in Hin. rewrite Forall_forall in Hklen.
      now apply Hklen. }
    rewrite concat_map.
    assert (Hwc : chunks R k (concat (map (map (fun s => mul s
                     (DeepseekV2.routed_scaling_factor self))) taken))
                  = map (map (fun s => mul s
                     (DeepseekV2.routed_scaling_factor self))) taken).
    { rewrite <- Htl. rewrite <- (length_map (map (fun s => mul s
                     (DeepseekV2.routed_scaling_factor self))) taken).
      apply chunks_concat. apply Forall_map.
      eapply Forall_impl; [ | exact Htk ].
      intros r Hr. cbn beta in Hr |- *. now rewrite length_map. }
    rewrite Hwc.
    rewrite (nth_indep _ [] (map (fun s => mul s
               (DeepseekV2.routed_scaling_factor self)) []))
      by (rewrite length_map; lia).
    rewrite (map_nth (map (fun s => mul s
               (DeepseekV2.routed_scaling_factor self)))).
    unfold taken.
    rewrite (@nth_map2 _ _ _ _ _ _ t [] [] [])
      by (rewrite ?length_chunks, ?length_map; lia).
    rewrite Hirow, map_map. apply map_ext_in. intros e He.
    destruct (Htok e He) as (Hegp & _ & Hval).
    rewrite nth_chunk_entry by assumption. now rewrite Hval.
Qed.


End GreedyGroups.

Lemma Qopp_antitone (a b : Q) :
  Qle_bool a b = false -> Qle_bool (- b) (- a) = false.
Proof.
  intros H. apply not_true_iff_false. intros Hle.
  apply not_true_iff_false in H. apply H.
  apply Qle_bool_iff. apply Qle_bool_iff in Hle.
  apply Qopp_le_compat in Hle. now rewrite !Qopp_involutive in Hle.
Qed.

(** The greedy gate on two sequences of two tokens over 4 experts in 2
    groups, of which one is kept. *)
Lemma greedy_selects_from_kept_groups_witness :
  let scores :=
    mk_tensor [2; 2; 4]
      [0.1; 0.9; 0.5; 0.6;  0.8; 0.7; 0.2; 0.3;
       0.4; 0.3; 0.2; 0.1;  0.2; 0.4; 0.6; 0.8]%Q in
  exists inds weights,
    Samples.gate_select (Samples.gate "greedy" 2 [0; 0; 0; 0]%Q) [2; 2; 3]
      scores = Ok (inds, weights) /\
    forall t,
      t < 2 * 2 ->
      let dropped :=
        Spec.greedy_dropped 0%Q Qle_bool
          (DeepseekV2.partition_by_sort 0%Q Qle_bool) (2 * 2) 2 2 1
          (data scores) t in
      let group_scores :=
        Spec.greedy_group_scores 0%Q Qle_bool (2 * 2) 2 2 (data scores) t in
      length dropped = 2 - 1 /\ NoDup dropped /\
      (forall e,
         In e (nth t (last_rows inds) []) ->
         e < 2 * 2 /\ ~ In (e / 2) dropped /\
         forall G, In G dropped ->
           Qle_bool (nth G group_scores 0%Q) (nth (e / 2) group_scores 0%Q)
           = true) /\
      nth t (last_rows weights) []
      = map (fun e => Qmult (nth (t * (2 * 2) + e) (data scores) 0%Q)
                        (DeepseekV2.routed_scaling_factor
                           (Samples.gate "greedy" 2 [0; 0; 0; 0]%Q)))
          (nth t (last_rows inds) []).
Proof.
  intros scores.
  apply (@greedy_selects_from_kept_groups Q 0%Q Qopp Qle_bool Qle_bool_total
           Qle_bool_trans Qplus Qmult
           (DeepseekV2.partition_by_sort 0%Q Qle_bool) 2 2 2 2 1 2
           Qopp_antitone sample_partition_ok
           (Samples.gate "greedy" 2 [0; 0; 0; 0]%Q) [3] scores);
    try reflexivity; try lia.
  repeat constructor.
Defined.
